(** * Theme switcher for Quarto plots: a model of [updateImageSrc]

    The repository holds one routine, [updateImageSrc], in two versions:
    [src/unnamed/part_000] (version 1.1.0, called the basic variant) and
    [src/light-dark.js] (version 1.2.0, the extended variant, which adds the
    reactable block).  The routine reads the class list of the document
    body and rewrites image sources, inline styles, one data attribute and
    event listeners of the elements a handful of CSS selectors match.

    The development models the part of the DOM the routine reads and
    writes, embeds both versions as state-passing functions over it, and
    proves the properties of the specification.

    What is modelled of the browser, and how:
    - a document is the list of its elements in document order, each with
      the index of its parent; [document.body] is an index into that list;
    - an inline style is the ordered list of its declarations, under their
      CSS names; every declaration is an independent slot that stores the
      text written to it, and writing the empty string removes it
      (shorthand expansion and value normalisation are not modelled);
    - [element.dataset.originalStyle] is an optional string;
    - listeners are the list of registrations, one per [addEventListener]
      (every call of the routine registers a fresh closure); an event runs
      the listeners registered on its target for its type, in the order
      of registration, and a timer runs its callback later;
    - a mutation observer is given the records of the changes its options
      cover; a write of [src], of a style property or of
      [dataset.originalStyle] is a change of the attribute [src], [style]
      or [data-original-style];
    - [window.getComputedStyle] and what [Object.assign] does with a decoded
      payload that is not a snapshot written by the routine are left to
      the browser: they are the two fields of the class [Browser], and
      every theorem holds for every browser. *)

From Stdlib Require Import String Ascii List Bool Arith Lia.
From stdpp Require Import base tactics list strings.
Import ListNotations.

Local Open Scope string_scope.
Local Open Scope list_scope.

(** ** Strings, as the routine uses them *)

Module Str.

(** [s.substring(n)]. *)
Fixpoint drop (n : nat) (s : string) : string :=
  match n, s with
  | O, _ => s
  | S _, EmptyString => EmptyString
  | S n', String _ s' => drop n' s'
  end.

(** [s.startsWith(p)]. *)
Fixpoint startsWith (p s : string) : bool :=
  match p, s with
  | EmptyString, _ => true
  | String _ _, EmptyString => false
  | String a p', String b s' => Ascii.eqb a b && startsWith p' s'
  end.

(** [s.includes(p)]: [p] occurs somewhere in [s]. *)
Fixpoint includes (p s : string) : bool :=
  startsWith p s ||
  match s with
  | EmptyString => false
  | String _ s' => includes p s'
  end.

(** [s.replace(pat, rep)] for a string pattern and a replacement without
    dollar patterns: the first occurrence of [pat] is replaced, the rest
    of [s] is copied. *)
Fixpoint replace (pat rep s : string) : string :=
  if startsWith pat s then rep +:+ drop (String.length pat) s
  else match s with
       | EmptyString => EmptyString
       | String c s' => String c (replace pat rep s')
       end.

(** [parts.join(sep)]. *)
Fixpoint join (sep : string) (parts : list string) : string :=
  match parts with
  | [] => ""
  | [x] => x
  | x :: rest => x +:+ sep +:+ join sep rest
  end.

End Str.

(** ** Inline styles *)

(** The CSS name of a property of [element.style]: [fontSize] is
    [font-size].  Each upper-case letter becomes a dash and its lower-case
    letter. *)
Definition is_upper (c : ascii) : bool :=
  let n := nat_of_ascii c in Nat.leb 65 n && Nat.leb n 90.

Definition to_lower (c : ascii) : ascii :=
  if is_upper c then ascii_of_nat (nat_of_ascii c + 32) else c.

Fixpoint css_name (prop : string) : string :=
  match prop with
  | EmptyString => EmptyString
  | String c rest =>
      if is_upper c then String "-" (String (to_lower c) (css_name rest))
      else String c (css_name rest)
  end.

(** The declarations of a [style] attribute, in order. *)
Definition Style := list (string * string).

Module StyleDecl.

(** [style.getPropertyValue(name)]: the empty string when not declared. *)
Fixpoint get (st : Style) (name : string) : string :=
  match st with
  | [] => ""
  | (k, v) :: rest => if String.eqb k name then v else get rest name
  end.

Fixpoint remove (st : Style) (name : string) : Style :=
  match st with
  | [] => []
  | (k, v) :: rest =>
      if String.eqb k name then remove rest name else (k, v) :: remove rest name
  end.

Fixpoint put (st : Style) (name v : string) : Style :=
  match st with
  | [] => [(name, v)]
  | (k, w) :: rest =>
      if String.eqb k name then (k, v) :: remove rest name
      else (k, w) :: put rest name v
  end.

(** [style.setProperty(name, v)]: the empty string removes the
    declaration; a declared property is updated in place, a new one is
    appended. *)
Definition set (st : Style) (name v : string) : Style :=
  if String.eqb v "" then remove st name else put st name v.

(** The text of the [style] attribute. *)
Definition cssText (st : Style) : string :=
  Str.join " " (map (fun kv => fst kv +:+ ": " +:+ snd kv +:+ ";") st).

End StyleDecl.

(** [elem.style[prop]] and [elem.style[prop] = v], by the name the script
    uses. *)
Definition style_read (st : Style) (prop : string) : string :=
  StyleDecl.get st (css_name prop).

Definition style_write (st : Style) (prop v : string) : Style :=
  StyleDecl.set st (css_name prop) v.

(** ** Elements and documents *)

(** What a registered listener does when its event fires; the routine only
    registers them.  [ResetAllLater]: the click handler, which clears the
    background of every pagination button that is not the current page
    after 50 ms.  [HoverOn], [HoverOff]: the mouseenter and mouseleave
    handlers.  [PressOn], [PressOff]: the mousedown and mouseup handlers. *)
Inductive Handler := ResetAllLater | HoverOn | HoverOff | PressOn | PressOff.

Record Element := {
  tagName : string;                    (* local name, lower case *)
  classList : list string;
  parent : option nat;                 (* index of the parent element *)
  src : string;                        (* [img.src] *)
  style : Style;                       (* [elem.style] *)
  originalStyle : option string;       (* [elem.dataset.originalStyle] *)
  listeners : list (string * Handler)  (* event type, handler *)
}.

Record Document := {
  elements : list Element;             (* in document order *)
  body : option nat                    (* [document.body], [None] when null *)
}.

Definition with_src (v : string) (e : Element) : Element :=
  {| tagName := tagName e; classList := classList e; parent := parent e;
     src := v; style := style e; originalStyle := originalStyle e;
     listeners := listeners e |}.

Definition with_style (st : Style) (e : Element) : Element :=
  {| tagName := tagName e; classList := classList e; parent := parent e;
     src := src e; style := st; originalStyle := originalStyle e;
     listeners := listeners e |}.

Definition with_originalStyle (v : string) (e : Element) : Element :=
  {| tagName := tagName e; classList := classList e; parent := parent e;
     src := src e; style := style e; originalStyle := Some v;
     listeners := listeners e |}.

Definition with_listener (type : string) (h : Handler) (e : Element) : Element :=
  {| tagName := tagName e; classList := classList e; parent := parent e;
     src := src e; style := style e; originalStyle := originalStyle e;
     listeners := listeners e ++ [(type, h)] |}.

Definition with_classList (cl : list string) (e : Element) : Element :=
  {| tagName := tagName e; classList := cl; parent := parent e;
     src := src e; style := style e; originalStyle := originalStyle e;
     listeners := listeners e |}.

Definition with_elements (els : list Element) (d : Document) : Document :=
  {| elements := els; body := body d |}.

(** [tokens.contains(c)]. *)
Definition contains (c : string) (tokens : list string) : bool :=
  existsb (String.eqb c) tokens.

(** ** Selectors *)

(** The selectors of the routine are lists (commas) of descendant chains
    (blanks) of compounds of a tag, classes and [[attr*="text"]] tests. *)
Inductive Simple :=
| Tag (name : string)
| Class (name : string)
| AttrContains (attr text : string).

Definition Compound := list Simple.
Definition Complex := list Compound.   (* ancestors first, subject last *)
Definition Selector := list Complex.

(** The attributes a selector of the routine tests. *)
Definition getAttribute (e : Element) (attr : string) : option string :=
  if String.eqb attr "class" then Some (Str.join " " (classList e))
  else if String.eqb attr "style" then Some (StyleDecl.cssText (style e))
  else None.

Definition matches_simple (e : Element) (s : Simple) : bool :=
  match s with
  | Tag name => String.eqb (tagName e) name
  | Class name => contains name (classList e)
  | AttrContains attr text =>
      match getAttribute e attr with
      | Some v => negb (String.eqb text "") && Str.includes text v
      | None => false
      end
  end.

Definition matches_compound (e : Element) (c : Compound) : bool :=
  forallb (matches_simple e) c.

(** The ancestors of an element, nearest first.  The fuel is the number of
    elements: a chain of parents is no longer than that. *)
Fixpoint ancestors_from (fuel : nat) (els : list Element) (p : option nat)
  : list Element :=
  match fuel, p with
  | S fuel', Some j =>
      match els !! j with
      | Some a => a :: ancestors_from fuel' els (parent a)
      | None => []
      end
  | _, _ => []
  end.

Definition ancestors (d : Document) (e : Element) : list Element :=
  ancestors_from (length (elements d)) (elements d) (parent e).

(** The first of [anc] that matches [c], and what is above it. *)
Fixpoint above_match (c : Compound) (anc : list Element) : option (list Element) :=
  match anc with
  | [] => None
  | a :: up => if matches_compound a c then Some up else above_match c up
  end.

(** [chain] lists the compounds left of the subject, nearest first. *)
Fixpoint matches_chain (chain : list Compound) (anc : list Element) : bool :=
  match chain with
  | [] => true
  | c :: rest =>
      match above_match c anc with
      | Some up => matches_chain rest up
      | None => false
      end
  end.

Definition matches_complex (d : Document) (e : Element) (cx : Complex) : bool :=
  match rev cx with
  | [] => false
  | subject :: chain =>
      matches_compound e subject && matches_chain chain (ancestors d e)
  end.

(** [elem.matches(sel)]. *)
Definition matches (d : Document) (e : Element) (sel : Selector) : bool :=
  existsb (matches_complex d e) sel.

Definition matches_at (d : Document) (sel : Selector) (i : nat) : bool :=
  match elements d !! i with
  | Some e => matches d e sel
  | None => false
  end.

(** [document.querySelectorAll(sel)]: the matching elements, in document
    order, as a static list. *)
Definition querySelectorAll (sel : Selector) (d : Document) : list nat :=
  filter (fun i => matches_at d sel i = true) (seq 0 (length (elements d))).

(** The selectors of the routine. *)
Definition sel_img : Selector := [[[Tag "img"]]].
Definition sel_svg_background : Selector :=
  [[[Tag "svg"; AttrContains "style" "background"]]].
Definition sel_rect_fill : Selector :=
  [[[Tag "rect"; AttrContains "style" "fill"]]].
Definition sel_text : Selector :=
  [ [[Tag "text"; AttrContains "class" "legendtext"]];
    [[Tag "svg"]; [Tag "text"]];
    [[Tag "svg"]; [Tag "tspan"]] ].
Definition sel_gt : Selector :=
  [ [[Class "gt_table_body"]]; [[Class "gt_heading"]];
    [[Class "gt_sourcenotes"]]; [[Class "gt_footnotes"]] ].
Definition sel_reactable : Selector := [[[Class "reactable"]]].
Definition sel_rt_rows : Selector :=
  [ [[Class "rt-tbody"]; [Class "rt-tr"]];
    [[Class "rt-thead"]; [Class "rt-tr"]];
    [[Class "rt-pagination"]] ].
Definition sel_rt_search : Selector := [[[Class "rt-search"]]].
Definition sel_rt_pagination_button : Selector :=
  [[[Class "rt-pagination"]; [Tag "button"]]].
Definition sel_rt_pagination_nav_button : Selector :=
  [[[Class "rt-pagination-nav"]; [Tag "button"]]].
Definition sel_rt_page_button_current : Selector :=
  [[[Class "rt-page-button-current"]]].
Definition sel_rt_sort_header : Selector := [[[Class "rt-sort-header"]]].

(** ** JSON, as far as [JSON.stringify] and [JSON.parse] are used *)

(** The six properties of a computed style the routine keeps. *)
Record Snapshot := {
  fill : string;
  color : string;
  fontSize : string;
  fontWeight : string;
  fontFamily : string;
  textDecoration : string
}.

#[warnings="-register-all"]
Inductive JValue :=
| JNull
| JBool (b : bool)
| JNumber (literal : string)           (* the number as written *)
| JString (s : string)
| JArray (items : list JValue)
| JObject (members : list (string * JValue)).

Module JSON.

Definition dquote : ascii := ascii_of_nat 34.
Definition backslash : ascii := ascii_of_nat 92.

Definition hex_digit (n : nat) : ascii :=
  ascii_of_nat (if Nat.ltb n 10 then 48 + n else 87 + n).

(** The escape of one character inside a JSON string, as [JSON.stringify]
    writes it. *)
Definition escape (c : ascii) : string :=
  let n := nat_of_ascii c in
  if Ascii.eqb c dquote then String backslash (String dquote "")
  else if Ascii.eqb c backslash then String backslash (String backslash "")
  else if Nat.eqb n 8 then String backslash "b"
  else if Nat.eqb n 9 then String backslash "t"
  else if Nat.eqb n 10 then String backslash "n"
  else if Nat.eqb n 12 then String backslash "f"
  else if Nat.eqb n 13 then String backslash "r"
  else if Nat.ltb n 32 then
    String backslash
      (String "u" (String "0" (String "0"
        (String (hex_digit (n / 16)) (String (hex_digit (n mod 16)) "")))))
  else String c "".

Fixpoint escape_all (s : string) : string :=
  match s with
  | EmptyString => EmptyString
  | String c rest => escape c +:+ escape_all rest
  end.

Definition quote (s : string) : string :=
  String dquote (escape_all s +:+ String dquote "").

Definition snapshot_members (o : Snapshot) : list (string * string) :=
  [ ("fill", fill o); ("color", color o); ("fontSize", fontSize o);
    ("fontWeight", fontWeight o); ("fontFamily", fontFamily o);
    ("textDecoration", textDecoration o) ].

Definition member_text (kv : string * string) : string :=
  quote (fst kv) +:+ ":" +:+ quote (snd kv).

(** [JSON.stringify({fill: .., color: .., fontSize: .., fontWeight: ..,
    fontFamily: .., textDecoration: ..})]. *)
Definition stringify (o : Snapshot) : string :=
  "{" +:+ Str.join "," (map member_text (snapshot_members o)) +:+ "}".

(** *** The parser *)

Definition is_ws (c : ascii) : bool :=
  let n := nat_of_ascii c in
  Nat.eqb n 32 || Nat.eqb n 9 || Nat.eqb n 10 || Nat.eqb n 13.

Fixpoint skip_ws (s : string) : string :=
  match s with
  | String c rest => if is_ws c then skip_ws rest else s
  | EmptyString => s
  end.

Definition hex_value (c : ascii) : option nat :=
  let n := nat_of_ascii c in
  if Nat.leb 48 n && Nat.leb n 57 then Some (n - 48)
  else if Nat.leb 97 n && Nat.leb n 102 then Some (n - 87)
  else if Nat.leb 65 n && Nat.leb n 70 then Some (n - 55)
  else None.

(** The text of the code unit [n] of a [\uXXXX] escape: strings are held as
    UTF-8, and a surrogate is written as a code point of its own. *)
Definition code_unit (n : nat) : string :=
  if Nat.ltb n 128 then String (ascii_of_nat n) ""
  else if Nat.ltb n 2048 then
    String (ascii_of_nat (192 + n / 64)) (String (ascii_of_nat (128 + n mod 64)) "")
  else
    String (ascii_of_nat (224 + n / 4096))
      (String (ascii_of_nat (128 + (n / 64) mod 64))
        (String (ascii_of_nat (128 + n mod 64)) "")).

Definition unescape (e : ascii) : option ascii :=
  let n := nat_of_ascii e in
  if Ascii.eqb e dquote then Some dquote
  else if Ascii.eqb e backslash then Some backslash
  else if Nat.eqb n 47 then Some e             (* / *)
  else if Nat.eqb n 98 then Some (ascii_of_nat 8)    (* b *)
  else if Nat.eqb n 102 then Some (ascii_of_nat 12)  (* f *)
  else if Nat.eqb n 110 then Some (ascii_of_nat 10)  (* n *)
  else if Nat.eqb n 114 then Some (ascii_of_nat 13)  (* r *)
  else if Nat.eqb n 116 then Some (ascii_of_nat 9)   (* t *)
  else None.

(** The characters of a string after its opening quote: the string and
    what follows its closing quote. *)
Fixpoint parse_chars (s : string) : option (string * string) :=
  match s with
  | EmptyString => None
  | String c s1 =>
      if Ascii.eqb c dquote then Some (EmptyString, s1)
      else if Ascii.eqb c backslash then
        match s1 with
        | EmptyString => None
        | String e s2 =>
            if Nat.eqb (nat_of_ascii e) 117 then       (* u *)
              match s2 with
              | String h1 (String h2 (String h3 (String h4 s3))) =>
                  match hex_value h1, hex_value h2, hex_value h3, hex_value h4 with
                  | Some a, Some b, Some c', Some d =>
                      match parse_chars s3 with
                      | Some (t, r) =>
                          Some (code_unit (((a * 16 + b) * 16 + c') * 16 + d) +:+ t, r)
                      | None => None
                      end
                  | _, _, _, _ => None
                  end
              | _ => None
              end
            else
              match unescape e with
              | Some c' =>
                  match parse_chars s2 with
                  | Some (t, r) => Some (String c' t, r)
                  | None => None
                  end
              | None => None
              end
        end
      else if Nat.ltb (nat_of_ascii c) 32 then None
      else
        match parse_chars s1 with
        | Some (t, r) => Some (String c t, r)
        | None => None
        end
  end.

Definition is_digit (c : ascii) : bool :=
  let n := nat_of_ascii c in Nat.leb 48 n && Nat.leb n 57.

(** The digits [s] starts with, and the rest. *)
Fixpoint span_digits (s : string) : string * string :=
  match s with
  | String c rest =>
      if is_digit c then
        let '(ds, r) := span_digits rest in (String c ds, r)
      else (EmptyString, s)
  | EmptyString => (EmptyString, s)
  end.

Definition parse_sign (s : string) : string * string :=
  match s with
  | String c rest => if Nat.eqb (nat_of_ascii c) 45 then ("-", rest) else ("", s)
  | EmptyString => ("", s)
  end.

Definition parse_int (s : string) : option (string * string) :=
  match span_digits s with
  | (EmptyString, _) => None
  | (String c ds, r) =>
      if Nat.eqb (nat_of_ascii c) 48 && negb (String.eqb ds "") then None
      else Some (String c ds, r)
  end.

Definition parse_frac (s : string) : option (string * string) :=
  match s with
  | String c rest =>
      if Nat.eqb (nat_of_ascii c) 46 then
        match span_digits rest with
        | (EmptyString, _) => None
        | (ds, r) => Some (String c ds, r)
        end
      else Some ("", s)
  | EmptyString => Some ("", s)
  end.

Definition parse_exp (s : string) : option (string * string) :=
  match s with
  | String c rest =>
      if Nat.eqb (nat_of_ascii c) 101 || Nat.eqb (nat_of_ascii c) 69 then
        let '(sg, r1) :=
          match rest with
          | String g r =>
              if Nat.eqb (nat_of_ascii g) 43 || Nat.eqb (nat_of_ascii g) 45
              then (String g "", r) else ("", rest)
          | EmptyString => ("", rest)
          end in
        match span_digits r1 with
        | (EmptyString, _) => None
        | (ds, r) => Some (String c (sg +:+ ds), r)
        end
      else Some ("", s)
  | EmptyString => Some ("", s)
  end.

(** A number: its text and the rest. *)
Definition parse_number (s : string) : option (string * string) :=
  let '(sg, s1) := parse_sign s in
  match parse_int s1 with
  | None => None
  | Some (i, s2) =>
      match parse_frac s2 with
      | None => None
      | Some (f, s3) =>
          match parse_exp s3 with
          | None => None
          | Some (x, s4) => Some (sg +:+ i +:+ f +:+ x, s4)
          end
      end
  end.

Definition parse_literal (word : string) (v : JValue) (s : string)
  : option (JValue * string) :=
  if Str.startsWith word s then Some (v, Str.drop (String.length word) s) else None.

(** A value, the elements of an array after its bracket or a comma, and
    the members of an object after its brace or a comma.  Every call
    chain reads at least one character per unit of fuel. *)
Fixpoint parse_value (fuel : nat) (s : string) : option (JValue * string) :=
  match fuel with
  | O => None
  | S fuel' =>
      match skip_ws s with
      | EmptyString => None
      | String c rest =>
          let n := nat_of_ascii c in
          if Nat.eqb n 123 then                       (* { *)
            match skip_ws rest with
            | String c1 rest1 =>
                if Nat.eqb (nat_of_ascii c1) 125 then Some (JObject [], rest1)
                else
                  match parse_members fuel' (skip_ws rest) with
                  | Some (ms, r) => Some (JObject ms, r)
                  | None => None
                  end
            | EmptyString => None
            end
          else if Nat.eqb n 91 then                   (* [ *)
            match skip_ws rest with
            | String c1 rest1 =>
                if Nat.eqb (nat_of_ascii c1) 93 then Some (JArray [], rest1)
                else
                  match parse_elements fuel' rest with
                  | Some (vs, r) => Some (JArray vs, r)
                  | None => None
                  end
            | EmptyString => None
            end
          else if Ascii.eqb c dquote then
            match parse_chars rest with
            | Some (t, r) => Some (JString t, r)
            | None => None
            end
          else if Nat.eqb n 116 then parse_literal "true" (JBool true) (String c rest)
          else if Nat.eqb n 102 then parse_literal "false" (JBool false) (String c rest)
          else if Nat.eqb n 110 then parse_literal "null" JNull (String c rest)
          else
            match parse_number (String c rest) with
            | Some (lit, r) => Some (JNumber lit, r)
            | None => None
            end
      end
  end
with parse_elements (fuel : nat) (s : string) : option (list JValue * string) :=
  match fuel with
  | O => None
  | S fuel' =>
      match parse_value fuel' s with
      | None => None
      | Some (v, r) =>
          match skip_ws r with
          | String c rest =>
              if Nat.eqb (nat_of_ascii c) 93 then Some ([v], rest)        (* ] *)
              else if Nat.eqb (nat_of_ascii c) 44 then                    (* , *)
                match parse_elements fuel' rest with
                | Some (vs, r') => Some (v :: vs, r')
                | None => None
                end
              else None
          | EmptyString => None
          end
      end
  end
with parse_members (fuel : nat) (s : string)
  : option (list (string * JValue) * string) :=
  match fuel with
  | O => None
  | S fuel' =>
      match s with
      | String q s1 =>
          if Ascii.eqb q dquote then
            match parse_chars s1 with
            | None => None
            | Some (k, s2) =>
                match skip_ws s2 with
                | String c s3 =>
                    if Nat.eqb (nat_of_ascii c) 58 then                   (* : *)
                      match parse_value fuel' s3 with
                      | None => None
                      | Some (v, r) =>
                          match skip_ws r with
                          | String c' rest =>
                              if Nat.eqb (nat_of_ascii c') 125            (* } *)
                              then Some ([(k, v)], rest)
                              else if Nat.eqb (nat_of_ascii c') 44 then   (* , *)
                                match parse_members fuel' (skip_ws rest) with
                                | Some (ms, r') => Some ((k, v) :: ms, r')
                                | None => None
                                end
                              else None
                          | EmptyString => None
                          end
                      end
                    else None
                | EmptyString => None
                end
            end
          else None
      | EmptyString => None
      end
  end.

(** [JSON.parse(s)]: [None] is the [SyntaxError]. *)
Definition parse (s : string) : option JValue :=
  match parse_value (2 * String.length s + 2) s with
  | Some (v, r) =>
      match skip_ws r with
      | EmptyString => Some v
      | String _ _ => None
      end
  | None => None
  end.

(** The object [JSON.parse] gives back for the text of a snapshot. *)
Definition snapshot_value (o : Snapshot) : JValue :=
  JObject (map (fun kv => (fst kv, JString (snd kv))) (snapshot_members o)).

(** The snapshot a decoded value is, when it has the six members in the
    order the routine writes them, all strings. *)
Definition as_snapshot (v : JValue) : option Snapshot :=
  match v with
  | JObject
      [ (k1, JString a); (k2, JString b); (k3, JString c);
        (k4, JString d); (k5, JString e); (k6, JString f) ] =>
      if String.eqb k1 "fill" && String.eqb k2 "color" && String.eqb k3 "fontSize"
         && String.eqb k4 "fontWeight" && String.eqb k5 "fontFamily"
         && String.eqb k6 "textDecoration"
      then Some {| fill := a; color := b; fontSize := c; fontWeight := d;
                   fontFamily := e; textDecoration := f |}
      else None
  | _ => None
  end.

End JSON.

(** ** The browser *)

(** The two things the routine asks of the browser that the model does not
    compute: the computed style of an element in the current document, and
    what [Object.assign(elem.style, v)] does to an inline style when [v]
    is not a snapshot (the new style, and whether the assignment threw). *)
Inductive Exn := SyntaxError | TypeError.

Inductive Completion := Normal | Throw (e : Exn).

Class Browser := {
  getComputedStyle : Document -> nat -> Snapshot;
  assignForeign : JValue -> Style -> Style * Completion
}.

(** ** Actions on the document *)

(** One assignment or registration the routine executes. *)
Inductive Write :=
| SetSrc (i : nat) (v : string)               (* [img.src = v] *)
| SetStyle (i : nat) (prop v : string)        (* [elem.style[prop] = v] *)
| SetData (i : nat) (v : string)              (* [dataset.originalStyle = v] *)
| AssignStyle (i : nat) (v : JValue)          (* [Object.assign(elem.style, v)] *)
| AddListener (i : nat) (type : string) (h : Handler).

(** What a piece of the routine leaves: the document, the writes it
    executed in order, and whether it ended or threw.  A throw keeps the
    writes made before it. *)
Record Result := {
  final : Document;
  writes : list Write;
  completion : Completion
}.

Definition Action := Document -> Result.

Definition skip : Action :=
  fun d => {| final := d; writes := []; completion := Normal |}.

Definition throw (e : Exn) : Action :=
  fun d => {| final := d; writes := []; completion := Throw e |}.

Definition andThen (a b : Action) : Action :=
  fun d =>
    let r := a d in
    match completion r with
    | Normal =>
        let r' := b (final r) in
        {| final := final r'; writes := writes r ++ writes r';
           completion := completion r' |}
    | Throw _ => r
    end.

Notation "a >> b" := (andThen a b) (at level 61, left associativity).

(** A write to the element [i]. *)
Definition update (i : nat) (f : Element -> Element) (w : Write) : Action :=
  fun d =>
    {| final := with_elements (alter f i (elements d)) d;
       writes := [w]; completion := Normal |}.

Definition set_src (i : nat) (v : string) : Action :=
  update i (with_src v) (SetSrc i v).

Definition set_style (i : nat) (prop v : string) : Action :=
  update i (fun e => with_style (style_write (style e) prop v) e) (SetStyle i prop v).

Definition set_originalStyle (i : nat) (v : string) : Action :=
  update i (with_originalStyle v) (SetData i v).

Definition addEventListener (i : nat) (type : string) (h : Handler) : Action :=
  update i (with_listener type h) (AddListener i type h).

(** The current state of the element [i], for what follows. *)
Definition withElement (i : nat) (k : Element -> Action) : Action :=
  fun d =>
    match elements d !! i with
    | Some e => k e d
    | None => skip d
    end.

(** [nodes.forEach(f)]. *)
Fixpoint forEach (nodes : list nat) (f : nat -> Action) : Action :=
  match nodes with
  | [] => skip
  | i :: rest => f i >> forEach rest f
  end.

(** [updateElements] of both versions:
    [document.querySelectorAll(selector).forEach(updateFunc)]. *)
Definition updateElements (selector : Selector) (updateFunc : nat -> Action) : Action :=
  fun d => forEach (querySelectorAll selector d) updateFunc d.

(** [document.body]: the body or frameset element, or null. *)
Definition document_body (d : Document) : option Element :=
  match body d with
  | Some b =>
      match elements d !! b with
      | Some e =>
          if String.eqb (tagName e) "body" || String.eqb (tagName e) "frameset"
          then Some e else None
      | None => None
      end
  | None => None
  end.

(** [Object.assign(elem.style, v)]: the six members of a snapshot are
    written in order; any other value is the browser's. *)
Definition assign_members (st : Style) (members : list (string * string)) : Style :=
  fold_left (fun acc kv => style_write acc (fst kv) (snd kv)) members st.

Definition Object_assign_style `{Browser} (i : nat) (v : JValue) : Action :=
  withElement i (fun e =>
    match JSON.as_snapshot v with
    | Some o =>
        update i (with_style (assign_members (style e) (JSON.snapshot_members o)))
          (AssignStyle i v)
    | None =>
        fun d =>
          {| final := with_elements
                        (alter (with_style (fst (assignForeign v (style e)))) i
                           (elements d)) d;
             writes := [AssignStyle i v];
             completion := snd (assignForeign v (style e)) |}
    end).

(** [!text.dataset.originalStyle]. *)
Definition unset (payload : option string) : bool :=
  match payload with
  | Some s => String.eqb s ""
  | None => true
  end.

(** *** The callbacks the two versions share *)

(** part_000, lines 18-21; light-dark.js, lines 20-26. *)
Definition img_callback (isLightMode isDarkMode : bool) (img : nat) : Action :=
  withElement img (fun e =>
    let newSrc :=
      Str.replace (if isLightMode then ".dark" else ".light")
                  (if isDarkMode then ".dark" else ".light") (src e) in
    if negb (String.eqb newSrc (src e)) then set_src img newSrc else skip).

(** part_000, lines 24-28; light-dark.js, lines 29-33. *)
Definition updateStyle (isDarkMode : bool) (elem : nat)
    (prop lightValue darkValue : string) : Action :=
  withElement elem (fun e =>
    let currentValue := style_read (style e) prop in
    let newValue := if isDarkMode then darkValue else lightValue in
    if negb (String.eqb currentValue newValue) then set_style elem prop newValue
    else skip).

Definition svg_callback (isDarkMode : bool) (svg : nat) : Action :=
  updateStyle isDarkMode svg "background" "rgb(255, 241, 229)" "rgb(34, 34, 34)".

Definition rect_callback (isDarkMode : bool) (rect : nat) : Action :=
  updateStyle isDarkMode rect "fill" "rgb(255, 241, 229)" "rgb(34, 34, 34)".

(** part_000, lines 35-45; light-dark.js, lines 46-56. *)
Definition save_originalStyle `{Browser} (text : nat) : Action :=
  withElement text (fun e =>
    if unset (originalStyle e) then
      fun d => set_originalStyle text (JSON.stringify (getComputedStyle d text)) d
    else skip).

(** part_000, lines 47-54; light-dark.js, lines 58-66.  The two versions
    differ in [darkColor].  [JSON.parse(undefined)] is a [SyntaxError]. *)
Definition restyle_text `{Browser} (isDarkMode : bool) (darkColor : string)
    (text : nat) : Action :=
  withElement text (fun e =>
    match originalStyle e with
    | None => throw SyntaxError
    | Some payload =>
        match JSON.parse payload with
        | None => throw SyntaxError
        | Some originalStyle =>
            if isDarkMode then
              set_style text "fill" "white" >> set_style text "color" darkColor
            else Object_assign_style text originalStyle
        end
    end).

(** part_000, lines 58-64; light-dark.js, lines 70-79. *)
Definition table_callback (isDarkMode : bool) (table : nat) : Action :=
  if isDarkMode then set_style table "color" "white"
  else set_style table "color" "".

(** ** The basic variant: src/unnamed/part_000, version 1.1.0 *)

Module Basic.

(** Lines 34-55. *)
Definition text_callback `{Browser} (isDarkMode : bool) (text : nat) : Action :=
  save_originalStyle text >> restyle_text isDarkMode "white" text.

(** Lines 13-64, with the two flags of lines 8-9. *)
Definition passes `{Browser} (isLightMode isDarkMode : bool) : Action :=
  updateElements sel_img (img_callback isLightMode isDarkMode)
  >> updateElements sel_svg_background (svg_callback isDarkMode)
  >> updateElements sel_rect_fill (rect_callback isDarkMode)
  >> updateElements sel_text (text_callback isDarkMode)
  >> updateElements sel_gt (table_callback isDarkMode).

(** [updateImageSrc], lines 7-66.  Reading [classList] of a null body is a
    [TypeError]. *)
Definition updateImageSrc `{Browser} : Action :=
  fun d =>
    match document_body d with
    | None => throw TypeError d
    | Some b =>
        let isLightMode := contains "quarto-light" (classList b) in
        let isDarkMode := contains "quarto-dark" (classList b) in
        if negb isLightMode && negb isDarkMode then skip d
        else passes isLightMode isDarkMode d
    end.

End Basic.

(** ** The extended variant: src/light-dark.js, version 1.2.0 *)

Module Extended.

(** Lines 44-67. *)
Definition text_callback `{Browser} (isDarkMode : bool) (text : nat) : Action :=
  save_originalStyle text >> restyle_text isDarkMode "rgb(204,193,183)" text.

(** Lines 83-88. *)
Definition rows_callback (isDarkMode : bool) (elem : nat) : Action :=
  updateStyle isDarkMode elem "color" "" (if isDarkMode then "white" else "").

(** Lines 91-101. *)
Definition search_callback (isDarkMode : bool) (input : nat) : Action :=
  if isDarkMode then
    set_style input "backgroundColor" "rgb(50, 50, 50)"
    >> set_style input "color" "white"
    >> set_style input "borderColor" "rgba(255, 255, 255, 0.2)"
  else
    set_style input "backgroundColor" ""
    >> set_style input "color" ""
    >> set_style input "borderColor" "".

(** Lines 104-140: the first registration block. *)
Definition button_callback_1 (isDarkMode : bool) (button : nat) : Action :=
  if isDarkMode then
    set_style button "transition" "background-color 0.2s"
    >> addEventListener button "click" ResetAllLater
    >> addEventListener button "mouseenter" HoverOn
    >> addEventListener button "mouseleave" HoverOff
  else skip.

(** Lines 143-175: the second registration block. *)
Definition button_callback_2 (isDarkMode : bool) (button : nat) : Action :=
  if isDarkMode then
    set_style button "transition" "background-color 0.2s"
    >> addEventListener button "mouseenter" HoverOn
    >> addEventListener button "mouseleave" HoverOff
    >> addEventListener button "mousedown" PressOn
    >> addEventListener button "mouseup" PressOff
  else set_style button "transition" "".

(** Lines 178-184. *)
Definition nav_button_callback (isDarkMode : bool) (button : nat) : Action :=
  if isDarkMode then set_style button "color" "rgba(255, 255, 255, 0.7)"
  else set_style button "color" "".

(** Lines 187-195. *)
Definition current_button_callback (isDarkMode : bool) (button : nat) : Action :=
  if isDarkMode then
    set_style button "backgroundColor" "rgba(255, 255, 255, 0.2)"
    >> set_style button "color" "white"
  else
    set_style button "backgroundColor" "" >> set_style button "color" "".

(** Lines 198-204. *)
Definition sort_header_callback (isDarkMode : bool) (header : nat) : Action :=
  if isDarkMode then set_style header "color" "white"
  else set_style header "color" "".

(** Lines 81-205: the callback of [.reactable].  It does not use its
    argument: every inner query is over the whole document. *)
Definition reactable_callback (isDarkMode : bool) (table : nat) : Action :=
  updateElements sel_rt_rows (rows_callback isDarkMode)
  >> updateElements sel_rt_search (search_callback isDarkMode)
  >> updateElements sel_rt_pagination_button (button_callback_1 isDarkMode)
  >> updateElements sel_rt_pagination_button (button_callback_2 isDarkMode)
  >> updateElements sel_rt_pagination_nav_button (nav_button_callback isDarkMode)
  >> updateElements sel_rt_page_button_current (current_button_callback isDarkMode)
  >> updateElements sel_rt_sort_header (sort_header_callback isDarkMode).

(** Lines 15-205, with the two flags of lines 9-10. *)
Definition passes `{Browser} (isLightMode isDarkMode : bool) : Action :=
  updateElements sel_img (img_callback isLightMode isDarkMode)
  >> updateElements sel_svg_background (svg_callback isDarkMode)
  >> updateElements sel_rect_fill (rect_callback isDarkMode)
  >> updateElements sel_text (text_callback isDarkMode)
  >> updateElements sel_gt (table_callback isDarkMode)
  >> updateElements sel_reactable (reactable_callback isDarkMode).

(** [updateImageSrc], lines 7-206. *)
Definition updateImageSrc `{Browser} : Action :=
  fun d =>
    match document_body d with
    | None => throw TypeError d
    | Some b =>
        let isLightMode := contains "quarto-light" (classList b) in
        let isDarkMode := contains "quarto-dark" (classList b) in
        if negb isLightMode && negb isDarkMode then skip d
        else passes isLightMode isDarkMode d
    end.

End Extended.

(** ** A browser and documents to run the routine on *)

(** A browser whose computed style is the inline declaration where there is
    one and a fixed default otherwise, and whose [Object.assign] ignores a
    value that is not a snapshot. *)
Definition inline_or (st : Style) (prop dflt : string) : string :=
  if String.eqb (style_read st prop) "" then dflt else style_read st prop.

Definition plain_computed (d : Document) (i : nat) : Snapshot :=
  let st := match elements d !! i with Some e => style e | None => [] end in
  {| fill := inline_or st "fill" "rgb(0, 0, 0)";
     color := inline_or st "color" "rgb(0, 0, 0)";
     fontSize := inline_or st "fontSize" "12px";
     fontWeight := inline_or st "fontWeight" "400";
     fontFamily := inline_or st "fontFamily" "sans-serif";
     textDecoration := inline_or st "textDecoration" "none" |}.

Definition plain_browser : Browser :=
  {| getComputedStyle := plain_computed;
     assignForeign := fun _ st => (st, Normal) |}.

Definition node (tag : string) (classes : list string) (up : option nat) : Element :=
  {| tagName := tag; classList := classes; parent := up; src := "";
     style := []; originalStyle := None; listeners := [] |}.

Definition page (theme : list string) (content : list Element) : Document :=
  {| elements := node "body" theme None :: content; body := Some 0 |}.

(** ** Notions used to state the properties *)

(** The two versions of the routine. *)
Inductive Variant := BasicVariant | ExtendedVariant.

Definition run `{Browser} (v : Variant) : Action :=
  match v with
  | BasicVariant => Basic.updateImageSrc
  | ExtendedVariant => Extended.updateImageSrc
  end.

(** The two flags the routine reads off the body. *)
Definition isLightMode (d : Document) : bool :=
  match document_body d with
  | Some b => contains "quarto-light" (classList b)
  | None => false
  end.

Definition isDarkMode (d : Document) : bool :=
  match document_body d with
  | Some b => contains "quarto-dark" (classList b)
  | None => false
  end.

(** The page gives the body another class list (a theme switch). *)
Definition set_body_classes (cl : list string) (d : Document) : Document :=
  match body d with
  | Some b => with_elements (alter (with_classList cl) b (elements d)) d
  | None => d
  end.

(** The element a write goes to, and the writes that go to [i]. *)
Definition write_target (w : Write) : nat :=
  match w with
  | SetSrc i _ | SetStyle i _ _ | SetData i _ | AssignStyle i _
  | AddListener i _ _ => i
  end.

Definition writes_at (i : nat) (ws : list Write) : list Write :=
  filter (fun w => write_target w = i) ws.

Definition is_SetSrc (w : Write) : bool :=
  match w with SetSrc _ _ => true | _ => false end.

Definition is_SetData (w : Write) : bool :=
  match w with SetData _ _ => true | _ => false end.

Definition is_AddListener (w : Write) : bool :=
  match w with AddListener _ _ _ => true | _ => false end.

(** Two documents whose elements are related one by one. *)
Definition keeps (P : Element -> Element -> Prop) (d d' : Document) : Prop :=
  body d = body d' /\ Forall2 P (elements d) (elements d').

(** What the routine never writes. *)
Definition same_markup (e e' : Element) : Prop :=
  tagName e = tagName e' /\ classList e = classList e' /\ parent e = parent e'.

(** An action that leaves a document related to the one it got. *)
Definition preserves (R : Document -> Document -> Prop) (a : Action) : Prop :=
  forall d, R d (final (a d)).

(** An action that never throws. *)
Definition total (a : Action) : Prop :=
  forall d, completion (a d) = Normal.

(** An action that touches the element [j] only. *)
Definition local_at (j : nat) (a : Action) : Prop :=
  forall d,
    body (final (a d)) = body d /\
    length (elements (final (a d))) = length (elements d) /\
    (forall i, i <> j -> elements (final (a d)) !! i = elements d !! i) /\
    Forall (fun w => write_target w = j) (writes (a d)).

(** Two elements a selector cannot tell apart: the same parent, and the
    same answer to each of its compounds. *)
Definition same_for (sel : Selector) (e e' : Element) : Prop :=
  parent e = parent e' /\
  Forall (fun c => matches_compound e c = matches_compound e' c) (concat sel).

(** A selector that tests no [style] attribute. *)
Definition markup_simple (s : Simple) : bool :=
  match s with
  | AttrContains attr _ => negb (String.eqb attr "style")
  | _ => true
  end.

Definition markup_selector (sel : Selector) : bool :=
  forallb (forallb markup_simple) (concat sel).

(** The elements the text selector can match. *)
Definition text_tag (e : Element) : Prop :=
  tagName e = "text" \/ tagName e = "tspan".

(** The text callback of either version, by the colour it forces. *)
Definition text_callback_with `{Browser} (isDarkMode : bool) (darkColor : string)
    (text : nat) : Action :=
  save_originalStyle text >> restyle_text isDarkMode darkColor text.

(** What any call of the routine leaves of an element: its markup, the
    listeners it had (more may follow), and its saved snapshot if it had
    one. *)
Definition evolves (e e' : Element) : Prop :=
  same_markup e e' /\
  (exists more, listeners e' = listeners e ++ more) /\
  (unset (originalStyle e) = false -> originalStyle e' = originalStyle e).

(** An action all of whose writes satisfy [W]. *)
Definition emits (W : Write -> Prop) (a : Action) : Prop :=
  forall d, Forall W (writes (a d)).

(** The passes before the text pass, and the passes the two versions
    share, by the colour the text pass forces. *)
Definition before_text (isLightMode isDarkMode : bool) : Action :=
  updateElements sel_img (img_callback isLightMode isDarkMode)
  >> updateElements sel_svg_background (svg_callback isDarkMode)
  >> updateElements sel_rect_fill (rect_callback isDarkMode).

Definition common_passes `{Browser} (isLightMode isDarkMode : bool)
    (darkColor : string) : Action :=
  before_text isLightMode isDarkMode
  >> updateElements sel_text (text_callback_with isDarkMode darkColor)
  >> updateElements sel_gt (table_callback isDarkMode).

(** The colour the text pass of a version forces in dark mode. *)
Definition dark_text_color (v : Variant) : string :=
  match v with
  | BasicVariant => "white"
  | ExtendedVariant => "rgb(204,193,183)"
  end.

(** The passes of a version. *)
Definition passes_of `{Browser} (v : Variant) (isLightMode isDarkMode : bool) : Action :=
  match v with
  | BasicVariant => Basic.passes isLightMode isDarkMode
  | ExtendedVariant => Extended.passes isLightMode isDarkMode
  end.

(** The passes of a call, one by one, and a version as the list of its
    passes. *)
Definition img_pass (isLightMode isDarkMode : bool) : Action :=
  updateElements sel_img (img_callback isLightMode isDarkMode).

Definition svg_pass (isDarkMode : bool) : Action :=
  updateElements sel_svg_background (svg_callback isDarkMode).

Definition rect_pass (isDarkMode : bool) : Action :=
  updateElements sel_rect_fill (rect_callback isDarkMode).

Definition text_pass `{Browser} (isDarkMode : bool) (darkColor : string) : Action :=
  updateElements sel_text (text_callback_with isDarkMode darkColor).

Definition table_pass (isDarkMode : bool) : Action :=
  updateElements sel_gt (table_callback isDarkMode).

Definition reactable_pass (isDarkMode : bool) : Action :=
  updateElements sel_reactable (Extended.reactable_callback isDarkMode).

Definition sequence (l : list Action) : Action := foldr andThen skip l.

Definition last_passes (v : Variant) (isDarkMode : bool) : list Action :=
  table_pass isDarkMode ::
  match v with
  | BasicVariant => []
  | ExtendedVariant => [reactable_pass isDarkMode]
  end.

Definition pass_list `{Browser} (v : Variant) (isLightMode isDarkMode : bool)
  : list Action :=
  img_pass isLightMode isDarkMode :: svg_pass isDarkMode :: rect_pass isDarkMode
  :: text_pass isDarkMode (dark_text_color v) :: last_passes v isDarkMode.

(** The sources written to the image [i], in order. *)
Definition src_writes_to (i : nat) (ws : list Write) : list string :=
  omap (fun w => match w with
                 | SetSrc j v => if decide (j = i) then Some v else None
                 | _ => None
                 end) ws.

(** What the passes after the image pass leave of an element. *)
Definition same_src (e e' : Element) : Prop :=
  tagName e = tagName e' /\ src e = src e'.

(** The marker the image pass looks for, and the one it writes. *)
Definition stale_marker (isLightMode : bool) : string :=
  if isLightMode then ".dark" else ".light".

Definition theme_marker (isDarkMode : bool) : string :=
  if isDarkMode then ".dark" else ".light".

(** Documents for the examples. *)
Definition image (url : string) : Element := with_src url (node "img" [] (Some 0)).

Definition chart_page (theme : list string) : Document :=
  page theme [image "chart.light.png"].


(** An element keeps its tag, and the value of [prop] when its tag is
    [tag]. *)
Definition keeps_style_of (tag prop : string) (e e' : Element) : Prop :=
  tagName e = tagName e' /\
  (tagName e = tag -> style_read (style e) prop = style_read (style e') prop).

(** The two fixed colours of the svg and rect passes. *)
Definition light_colour : string := "rgb(255, 241, 229)".
Definition dark_colour : string := "rgb(34, 34, 34)".


(** The snapshots saved on the element [i], in order. *)
Definition data_writes_to (i : nat) (ws : list Write) : list string :=
  omap (fun w => match w with
                 | SetData j v => if decide (j = i) then Some v else None
                 | _ => None
                 end) ws.

(** An element keeps the snapshot it has. *)
Definition keeps_snapshot (e e' : Element) : Prop :=
  unset (originalStyle e) = false -> originalStyle e' = originalStyle e.

(** What the text callback makes of its element [e], writes and ends
    with, when the browser reports the computed style [snap] for it. *)
Definition text_outcome `{Browser} (isDarkMode : bool) (darkColor : string)
    (snap : Snapshot) (i : nat) (e : Element) : Element * list Write * Completion :=
  let saved :=
    if unset (originalStyle e)
    then (with_originalStyle (JSON.stringify snap) e, [SetData i (JSON.stringify snap)])
    else (e, []) in
  let e1 := fst saved in
  match originalStyle e1 with
  | None => (e1, snd saved, Throw SyntaxError)
  | Some payload =>
      match JSON.parse payload with
      | None => (e1, snd saved, Throw SyntaxError)
      | Some v =>
          if isDarkMode then
            (with_style
               (style_write (style_write (style e1) "fill" "white") "color" darkColor) e1,
             snd saved ++ [SetStyle i "fill" "white"; SetStyle i "color" darkColor],
             Normal)
          else
            match JSON.as_snapshot v with
            | Some o =>
                (with_style (assign_members (style e1) (JSON.snapshot_members o)) e1,
                 snd saved ++ [AssignStyle i v], Normal)
            | None =>
                (with_style (fst (assignForeign v (style e1))) e1,
                 snd saved ++ [AssignStyle i v],
                 snd (assignForeign v (style e1)))
            end
      end
  end.

(** The body gets the class lists of [themes] one after the other, with
    a call of the routine after each. *)
Fixpoint session `{Browser} (v : Variant) (themes : list (list string))
    (d : Document) : Document :=
  match themes with
  | [] => d
  | cl :: rest => session v rest (final (run v (set_body_classes cl d)))
  end.

(** An element keeps its tag and its snapshot, saved or not. *)
Definition same_snapshot (e e' : Element) : Prop :=
  tagName e = tagName e' /\ originalStyle e = originalStyle e'.

Definition legend_page (theme : list string) : Document :=
  page theme [node "svg" [] (Some 0); node "text" ["legendtext"] (Some 1)].

(** A legend whose text carries a snapshot that is no JSON. *)
Definition corrupt_legend_page (theme : list string) : Document :=
  page theme
    [ node "svg" [] (Some 0);
      with_originalStyle "{oops" (node "text" ["legendtext"] (Some 1)) ].

(** The selectors of the passes that write [color] after the text pass. *)
Definition sel_color_writers : Selector :=
  sel_gt ++ sel_rt_rows ++ sel_rt_search ++ sel_rt_pagination_nav_button
  ++ sel_rt_page_button_current ++ sel_rt_sort_header.

(** The markup is kept, and so is the [color] of the element [i] when
    none of those selectors matches it. *)
Definition keeps_color_at (i : nat) (d d' : Document) : Prop :=
  keeps same_markup d d' /\
  (matches_at d sel_color_writers i = false ->
   forall e e', elements d !! i = Some e -> elements d' !! i = Some e' ->
                style_read (style e) "color" = style_read (style e') "color").

(** An element keeps its tag and the five properties of its snapshot that
    only the text pass writes. *)
Definition keeps_restored (e e' : Element) : Prop :=
  tagName e = tagName e' /\
  forall p, In p ["fill"; "fontSize"; "fontWeight"; "fontFamily"; "textDecoration"] ->
            style_read (style e) p = style_read (style e') p.

(** An element keeps its markup and its [color]. *)
Definition keeps_color (e e' : Element) : Prop :=
  same_markup e e' /\ style_read (style e) "color" = style_read (style e') "color".

(** A document whose [document.body] is not null. *)
Definition has_body (d : Document) : Prop :=
  exists b be,
    body d = Some b /\ elements d !! b = Some be /\
    (tagName be = "body" \/ tagName be = "frameset").


(** A page with a chart, a legend and a table, for the case of both theme
    classes. *)
Definition mixed_page (theme : list string) : Document :=
  page theme
    [ image "chart.light.png";
      with_style [("background", "white")] (node "svg" [] (Some 0));
      with_style [("fill", "white")] (node "rect" [] (Some 2));
      node "text" ["legendtext"] (Some 2);
      node "div" ["gt_heading"] (Some 0) ].

(** The listeners one run of the reactable callback in dark mode adds to a
    pagination button: three by the first registration block, four by the
    second. *)
Definition seven_listeners : list (string * Handler) :=
  [ ("click", ResetAllLater); ("mouseenter", HoverOn); ("mouseleave", HoverOff);
    ("mouseenter", HoverOn); ("mouseleave", HoverOff);
    ("mousedown", PressOn); ("mouseup", PressOff) ].

(** An element keeps its markup and its listeners. *)
Definition same_listeners (e e' : Element) : Prop :=
  same_markup e e' /\ listeners e = listeners e'.

(** An element keeps its markup, its listeners and its [transition]. *)
Definition same_transition (e e' : Element) : Prop :=
  same_markup e e' /\ listeners e = listeners e' /\
  style_read (style e) "transition" = style_read (style e') "transition".

(** The inner passes of the reactable callback before and after the two
    registration blocks. *)
Definition reactable_head (isDarkMode : bool) : Action :=
  updateElements sel_rt_rows (Extended.rows_callback isDarkMode)
  >> updateElements sel_rt_search (Extended.search_callback isDarkMode).

Definition reactable_tail (isDarkMode : bool) : Action :=
  updateElements sel_rt_pagination_nav_button (Extended.nav_button_callback isDarkMode)
  >> (updateElements sel_rt_page_button_current
        (Extended.current_button_callback isDarkMode)
      >> updateElements sel_rt_sort_header (Extended.sort_header_callback isDarkMode)).

Definition button_pass_1 (isDarkMode : bool) : Action :=
  updateElements sel_rt_pagination_button (Extended.button_callback_1 isDarkMode).

Definition button_pass_2 (isDarkMode : bool) : Action :=
  updateElements sel_rt_pagination_button (Extended.button_callback_2 isDarkMode).

(** [n] calls in a row, without a theme switch. *)
Fixpoint calls `{Browser} (v : Variant) (n : nat) (d : Document) : Document :=
  match n with
  | O => d
  | S n' => calls v n' (final (run v d))
  end.

(** A page with a reactable table and one pagination button. *)
Definition reactable_page (theme : list string) : Document :=
  page theme
    [ node "div" ["reactable"] (Some 0);
      node "div" ["rt-pagination"] (Some 1);
      node "button" ["rt-page-button"] (Some 2) ].

(** An element whose saved snapshot is there and parses. *)
Definition decodable (e : Element) : Prop :=
  exists p v, originalStyle e = Some p /\ unset (Some p) = false /\
              JSON.parse p = Some v.

(** Two documents whose elements have the same sources, one by one. *)
Definition same_sources (d d' : Document) : Prop :=
  Forall2 (fun e e' => src e = src e') (elements d) (elements d').

(** The character [c] occurs in [s]. *)
Fixpoint has_char (c : ascii) (s : string) : bool :=
  match s with
  | EmptyString => false
  | String x s' => Ascii.eqb x c || has_char c s'
  end.

(** A word that can only occur inside one name or one value of the text
    of a [style] attribute: not empty, and without colon, space or
    semicolon. *)
Definition plain_word (p : string) : bool :=
  negb (String.eqb p "") && negb (has_char ":" p) && negb (has_char " " p)
  && negb (has_char ";" p).

(** The number of places of [s] at which [pat] occurs. *)
Fixpoint occurrences (pat s : string) : nat :=
  (if Str.startsWith pat s then 1 else 0) +
  match s with
  | EmptyString => 0
  | String _ s' => occurrences pat s'
  end.

(** *** What a call makes of one element

    The passes the two versions share, read off for a single element:
    [mt] and [mg] say whether the text selector and the table selector
    match it, [o] is the snapshot the text callback parses. *)
Definition src_after (L D : bool) (tag s : string) : string :=
  if String.eqb tag "img" then Str.replace (stale_marker L) (theme_marker D) s
  else s.

(** [updateStyle] on an element of the tag [on] stands for, when the
    text of its style attribute holds [prop]. *)
Definition guarded (D on : bool) (prop : string) (st : Style) : Style :=
  if on && Str.includes prop (StyleDecl.cssText st) then
    if String.eqb (style_read st prop) (if D then dark_colour else light_colour)
    then st
    else style_write st prop (if D then dark_colour else light_colour)
  else st.

Definition restyled (D : bool) (c : string) (o : Snapshot) (st : Style) : Style :=
  if D then style_write (style_write st "fill" "white") "color" c
  else assign_members st (JSON.snapshot_members o).

Definition style_after (D : bool) (c : string) (mt mg : bool) (o : Snapshot)
    (tag : string) (st : Style) : Style :=
  let s1 := guarded D (String.eqb tag "svg") "background" st in
  let s2 := guarded D (String.eqb tag "rect") "fill" s1 in
  let s3 := if mt then restyled D c o s2 else s2 in
  if mg then style_write s3 "color" (if D then "white" else "") else s3.

Definition element_after (L D : bool) (c : string) (mt mg : bool) (o : Snapshot)
    (e : Element) : Element :=
  {| tagName := tagName e; classList := classList e; parent := parent e;
     src := src_after L D (tagName e) (src e);
     style := style_after D c mt mg o (tagName e) (style e);
     originalStyle := if mt then Some (JSON.stringify o) else originalStyle e;
     listeners := listeners e |}.

(** Two states of an element no reader of its properties can tell apart:
    the same markup, source, snapshot and listeners, and the same value
    for every style property. *)
Definition same_reads (e e' : Element) : Prop :=
  same_markup e e' /\ src e = src e' /\ originalStyle e = originalStyle e' /\
  listeners e = listeners e' /\
  forall name, StyleDecl.get (style e) name = StyleDecl.get (style e') name.

(** The value the text callback leaves in the declaration [name], if it
    writes it. *)
Definition restyled_value (D : bool) (c : string) (o : Snapshot) (name : string)
  : option string :=
  if D then
    if String.eqb name "color" then Some c
    else if String.eqb name "fill" then Some "white" else None
  else
    if String.eqb name "text-decoration" then Some (textDecoration o)
    else if String.eqb name "font-family" then Some (fontFamily o)
    else if String.eqb name "font-weight" then Some (fontWeight o)
    else if String.eqb name "font-size" then Some (fontSize o)
    else if String.eqb name "color" then Some (color o)
    else if String.eqb name "fill" then Some (fill o)
    else None.

(** A snapshot the routine itself has written, or none. *)
Definition written (e : Element) : Prop :=
  unset (originalStyle e) = true \/
  exists o, originalStyle e = Some (JSON.stringify o).




(** *** Callbacks as functions on their element

    An action on the element [j] alone that always ends and makes [g e]
    of the state [e] it finds. *)
Definition acts_as (j : nat) (a : Action) (g : Element -> Element) : Prop :=
  total a /\ local_at j a /\
  forall d e, elements d !! j = Some e -> elements (final (a d)) !! j = Some (g e).

Definition when (b : bool) (g : Element -> Element) (e : Element) : Element :=
  if b then g e else e.

(** [elem.style[prop] = v] on the element itself. *)
Definition restyle (prop v : string) (e : Element) : Element :=
  with_style (style_write (style e) prop v) e.

(** [updateStyle] on the element itself. *)
Definition guard_step (D : bool) (prop lv dv : string) (e : Element) : Element :=
  if negb (String.eqb (style_read (style e) prop) (if D then dv else lv))
  then restyle prop (if D then dv else lv) e
  else e.

(** The callbacks of the reactable block on the element itself. *)
Definition rows_step (D : bool) : Element -> Element :=
  guard_step D "color" "" (if D then "white" else "").

Definition search_step (D : bool) (e : Element) : Element :=
  if D then
    restyle "borderColor" "rgba(255, 255, 255, 0.2)"
      (restyle "color" "white" (restyle "backgroundColor" "rgb(50, 50, 50)" e))
  else
    restyle "borderColor" "" (restyle "color" "" (restyle "backgroundColor" "" e)).

Definition button_step_1 (D : bool) (e : Element) : Element :=
  if D then
    with_listener "mouseleave" HoverOff
      (with_listener "mouseenter" HoverOn
         (with_listener "click" ResetAllLater
            (restyle "transition" "background-color 0.2s" e)))
  else e.

Definition button_step_2 (D : bool) (e : Element) : Element :=
  if D then
    with_listener "mouseup" PressOff
      (with_listener "mousedown" PressOn
         (with_listener "mouseleave" HoverOff
            (with_listener "mouseenter" HoverOn
               (restyle "transition" "background-color 0.2s" e))))
  else restyle "transition" "" e.

Definition nav_step (D : bool) (e : Element) : Element :=
  if D then restyle "color" "rgba(255, 255, 255, 0.7)" e else restyle "color" "" e.

Definition current_step (D : bool) (e : Element) : Element :=
  if D then restyle "color" "white" (restyle "backgroundColor" "rgba(255, 255, 255, 0.2)" e)
  else restyle "color" "" (restyle "backgroundColor" "" e).

Definition sort_step (D : bool) (e : Element) : Element :=
  if D then restyle "color" "white" e else restyle "color" "" e.

(** One run of the reactable callback on an element, [m] telling which
    selectors match it. *)
Definition reactable_step (D : bool) (m : Selector -> bool) (e : Element) : Element :=
  when (m sel_rt_sort_header) (sort_step D)
    (when (m sel_rt_page_button_current) (current_step D)
       (when (m sel_rt_pagination_nav_button) (nav_step D)
          (when (m sel_rt_pagination_button) (button_step_2 D)
             (when (m sel_rt_pagination_button) (button_step_1 D)
                (when (m sel_rt_search) (search_step D)
                   (when (m sel_rt_rows) (rows_step D) e)))))).

(** The value one run of the reactable callback leaves in the declaration
    [name] of an element, if it writes it: the last callback that sets it
    decides. *)
Definition reactable_value (D : bool) (m : Selector -> bool) (name : string)
  : option string :=
  if String.eqb name "color" then
    if m sel_rt_sort_header then Some (if D then "white" else "")
    else if m sel_rt_page_button_current then Some (if D then "white" else "")
    else if m sel_rt_pagination_nav_button
         then Some (if D then "rgba(255, 255, 255, 0.7)" else "")
    else if m sel_rt_search then Some (if D then "white" else "")
    else if m sel_rt_rows then Some (if D then "white" else "")
    else None
  else if String.eqb name "background-color" then
    if m sel_rt_page_button_current
    then Some (if D then "rgba(255, 255, 255, 0.2)" else "")
    else if m sel_rt_search then Some (if D then "rgb(50, 50, 50)" else "")
    else None
  else if String.eqb name "border-color" then
    if m sel_rt_search then Some (if D then "rgba(255, 255, 255, 0.2)" else "")
    else None
  else if String.eqb name "transition" then
    if m sel_rt_pagination_button
    then Some (if D then "background-color 0.2s" else "")
    else None
  else None.

(** A page with a reactable table: search input, sort header, and a
    pagination bar with two page buttons, the second one current. *)
Definition table_page (theme : list string) : Document :=
  page theme
    [ node "div" ["reactable"] (Some 0);
      node "input" ["rt-search"] (Some 1);
      node "div" ["rt-sort-header"] (Some 1);
      node "div" ["rt-pagination"] (Some 1);
      node "div" ["rt-pagination-nav"] (Some 4);
      node "button" ["rt-page-button"] (Some 5);
      node "button" ["rt-page-button"; "rt-page-button-current"] (Some 5) ].

(** The listeners one run of the reactable callback adds to an element. *)
Definition added_listeners (D : bool) (m : Selector -> bool) : list (string * Handler) :=
  if D && m sel_rt_pagination_button then seven_listeners else [].

(** A page with two reactable tables, each with one pagination button. *)
Definition two_tables_page (theme : list string) : Document :=
  page theme
    [ node "div" ["reactable"] (Some 0);
      node "div" ["rt-pagination"] (Some 1);
      node "button" ["rt-page-button"] (Some 2);
      node "div" ["reactable"] (Some 0);
      node "div" ["rt-pagination"] (Some 4);
      node "button" ["rt-page-button"] (Some 5) ].

(** One of the selectors of the version matches the element.  The
    elements [.reactable] matches are not among them: the callback does
    not use its argument. *)
Definition selected (v : Variant) (d : Document) (e : Element) : bool :=
  matches d e (sel_img ++ sel_svg_background ++ sel_rect_fill ++ sel_text ++ sel_gt)
  || match v with
     | BasicVariant => false
     | ExtendedVariant =>
         matches d e (sel_rt_rows ++ sel_rt_search ++ sel_rt_pagination_button
                      ++ sel_rt_pagination_nav_button
                      ++ sel_rt_page_button_current ++ sel_rt_sort_header)
     end.

(** An action that passes by the element [e] at [i] of a document with
    the markup of [d0]: it leaves it as it is and writes nothing to it. *)
Definition passes_by (d0 : Document) (i : nat) (e : Element) (a : Action) : Prop :=
  forall d,
    keeps same_markup d0 d -> elements d !! i = Some e ->
    keeps same_markup d0 (final (a d)) /\
    elements (final (a d)) !! i = Some e /\
    writes_at i (writes (a d)) = [].

(** A page with a chart and a paragraph beside it. *)
Definition prose_page (theme : list string) : Document :=
  page theme
    [ image "chart.light.png";
      with_style [("color", "red")] (node "p" ["note"] (Some 0));
      node "div" ["reactable"] (Some 0);
      node "input" ["rt-search"] (Some 3) ].

(** A page with a gt table beside a reactable table. *)
Definition tables_page (theme : list string) : Document :=
  page theme
    [ node "table" ["gt_table"] (Some 0);
      node "tbody" ["gt_table_body"] (Some 1);
      node "div" ["reactable"] (Some 0);
      node "div" ["rt-sort-header"] (Some 3) ].

(** ** The listeners of the pagination buttons: light-dark.js, lines 107-170

    What the closures the two registration blocks register do when their
    event is dispatched.  [button] is the element a closure has captured,
    the one it is registered on. *)

(** [resetAllButtons], lines 113-119; [originalBg] is the empty string of
    line 107. *)
Definition resetAllButtons : Action :=
  updateElements sel_rt_pagination_button (fun btn =>
    withElement btn (fun e =>
      if negb (contains "rt-page-button-current" (classList e))
      then set_style btn "backgroundColor" ""
      else skip)).

(** The body of a listener.  The click listener, lines 122-125, only sets
    a timer; the mouseenter and mouseleave listeners of lines 128-138 are
    those of lines 149-159; mousedown, lines 162-164, does not test the
    class; mouseup, lines 166-170. *)
Definition handle (h : Handler) (button : nat) : Action :=
  match h with
  | ResetAllLater => skip
  | HoverOn =>
      withElement button (fun e =>
        if negb (contains "rt-page-button-current" (classList e))
        then set_style button "backgroundColor" "rgba(255, 255, 255, 0.1)"
        else skip)
  | HoverOff =>
      withElement button (fun e =>
        if negb (contains "rt-page-button-current" (classList e))
        then set_style button "backgroundColor" ""
        else skip)
  | PressOn => set_style button "backgroundColor" "rgba(255, 255, 255, 0.2)"
  | PressOff =>
      withElement button (fun e =>
        if negb (contains "rt-page-button-current" (classList e))
        then set_style button "backgroundColor" "rgba(255, 255, 255, 0.1)"
        else skip)
  end.

(** What a listener leaves to a timer: [setTimeout(resetAllButtons, 50)],
    line 124. *)
Definition timers (h : Handler) : list Action :=
  match h with
  | ResetAllLater => [resetAllButtons]
  | _ => []
  end.

(** The listeners of an element for the events of one type, in the order
    of their registration. *)
Definition listeners_for (type : string) (e : Element) : list Handler :=
  omap (fun th => if String.eqb (fst th) type then Some (snd th) else None)
       (listeners e).

(** An event of the type [type] at the element [target]: its listeners
    for the type run in the order of registration. *)
Definition dispatchEvent (type : string) (target : nat) : Action :=
  withElement target (fun e =>
    sequence (map (fun h => handle h target) (listeners_for type e))).

(** The timers the listeners of such an event have set, run when they
    are due. *)
Definition timers_due (type : string) (target : nat) (d : Document) : Action :=
  match elements d !! target with
  | Some e => sequence (concat (map timers (listeners_for type e)))
  | None => skip
  end.

(** *** The listeners on the element itself *)

Definition is_current (e : Element) : bool :=
  contains "rt-page-button-current" (classList e).

Definition handle_step (h : Handler) (e : Element) : Element :=
  match h with
  | ResetAllLater => e
  | HoverOn | PressOff =>
      if negb (is_current e) then restyle "backgroundColor" "rgba(255, 255, 255, 0.1)" e
      else e
  | HoverOff =>
      if negb (is_current e) then restyle "backgroundColor" "" e else e
  | PressOn => restyle "backgroundColor" "rgba(255, 255, 255, 0.2)" e
  end.

(** The writes of a listener on an element. *)
Definition handle_writes (h : Handler) (i : nat) (e : Element) : list Write :=
  match h with
  | ResetAllLater => []
  | HoverOn | PressOff =>
      if negb (is_current e)
      then [SetStyle i "backgroundColor" "rgba(255, 255, 255, 0.1)"] else []
  | HoverOff =>
      if negb (is_current e) then [SetStyle i "backgroundColor" ""] else []
  | PressOn => [SetStyle i "backgroundColor" "rgba(255, 255, 255, 0.2)"]
  end.

(** Listeners as the routine registers them: each is one of the seven
    registrations of the two blocks. *)
Definition routine_listeners (e : Element) : Prop :=
  Forall (fun th => In th seven_listeners) (listeners e).

(** [resetAllButtons] on the element itself. *)
Definition reset_step (e : Element) : Element :=
  if negb (is_current e) then restyle "backgroundColor" "" e else e.

(** The table page after a call in dark mode. *)
Definition dark_table_page `{Browser} : Document :=
  final (run ExtendedVariant (table_page ["quarto-dark"])).

(** ** The observer: light-dark.js, lines 208-227; part_000, lines 68-80 *)








(** A document with a body in which every [text] and [tspan] element has
    no snapshot or one the routine has written. *)
Definition safe (d : Document) : Prop :=
  has_body d /\
  forall i e, elements d !! i = Some e -> text_tag e -> written e.

(** * Properties *)

(** ** Strings *)

Lemma append_cons c s t : String c s +:+ t = String c (s +:+ t).
Proof. reflexivity. Qed.

Lemma append_empty s : "" +:+ s = s.
Proof. reflexivity. Qed.

Lemma append_assoc s t u : (s +:+ t) +:+ u = s +:+ (t +:+ u).
Proof. induction s as [|c s IH]; [done|]. by rewrite !append_cons, IH. Qed.

Lemma append_empty_r s : s +:+ "" = s.
Proof. induction s as [|c s IH]; [done|]. by rewrite append_cons, IH. Qed.

Lemma startsWith_app p s : Str.startsWith p (p +:+ s) = true.
Proof.
  induction p as [|c p IH]; [done|]. rewrite append_cons. simpl.
  by rewrite Ascii.eqb_refl, IH.
Qed.

Lemma startsWith_split p s :
  Str.startsWith p s = true -> s = p +:+ Str.drop (String.length p) s.
Proof.
  revert s. induction p as [|c p IH]; intros [|b s]; simpl; try done.
  intros [Hc Hp]%andb_true_iff. apply Ascii.eqb_eq in Hc as ->.
  rewrite append_cons. f_equal. by apply IH.
Qed.

Lemma startsWith_app_r p s t :
  Str.startsWith p s = true -> Str.startsWith p (s +:+ t) = true.
Proof.
  revert s. induction p as [|c p IH]; intros [|b s]; simpl; try done.
  intros [Hc Hp]%andb_true_iff. rewrite Hc. simpl. by apply IH.
Qed.

Lemma includes_app_l p s t :
  Str.includes p s = true -> Str.includes p (s +:+ t) = true.
Proof.
  induction s as [|c s IH]; simpl.
  - rewrite orb_false_r. intros Hp. destruct p; [|done].
    destruct t; reflexivity.
  - intros [Hp|Hp]%orb_true_iff.
    + change (String c (s +:+ t)) with (String c s +:+ t).
      by rewrite (startsWith_app_r _ _ _ Hp).
    + rewrite (IH Hp). apply orb_true_r.
Qed.



(** Without an occurrence of the pattern, [replace] copies the string. *)
Lemma replace_absent pat rep s :
  Str.includes pat s = false -> Str.replace pat rep s = s.
Proof.
  induction s as [|c s IH]; simpl.
  - intros [-> _]%orb_false_iff. done.
  - intros [-> Hs]%orb_false_iff. by rewrite IH.
Qed.

(** With one, [replace] rewrites the first: nothing before it contains the
    pattern. *)
Lemma replace_first pat rep s :
  pat <> "" ->
  Str.includes pat s = true ->
  exists pre post,
    s = pre +:+ pat +:+ post /\ Str.includes pat pre = false /\
    Str.replace pat rep s = pre +:+ rep +:+ post.
Proof.
  intros Hne. induction s as [|c s IH]; simpl.
  - rewrite orb_false_r. intros Hp. by destruct pat.
  - destruct (Str.startsWith pat (String c s)) eqn:Hst.
    + intros _. destruct pat as [|a pat]; [done|].
      exists "", (Str.drop (String.length (String a pat)) (String c s)).
      split; [|done]. by apply startsWith_split in Hst.
    + simpl. intros Hs. destruct (IH Hs) as (pre & post & -> & Hpre & Hrep).
      exists (String c pre), post. split; [done|]. split; [|by rewrite Hrep].
      simpl. rewrite Hpre, orb_false_r.
      destruct (Str.startsWith pat (String c pre)) eqn:Hst'; [|done].
      change (String c (pre +:+ pat +:+ post))
        with (String c pre +:+ (pat +:+ post)) in Hst.
      by rewrite (startsWith_app_r _ _ _ Hst') in Hst.
Qed.

Lemma replace_same pat s :
  Str.replace pat pat s = s.
Proof.
  induction s as [|c s IH]; simpl.
  - destruct pat; [done|]. done.
  - destruct (Str.startsWith pat (String c s)) eqn:Hst.
    + symmetry. by apply startsWith_split.
    + by rewrite IH.
Qed.

Example replace_chart :
  Str.replace ".light" ".dark" "chart.light.png" = "chart.dark.png".
Proof. reflexivity. Qed.

Example replace_first_only :
  Str.replace ".light" ".dark" "a.light.b.light.png" = "a.dark.b.light.png".
Proof. reflexivity. Qed.

(** ** Inline styles *)

Lemma get_remove_eq st k : StyleDecl.get (StyleDecl.remove st k) k = "".
Proof.
  induction st as [|[k' v] st IH]; simpl; [done|].
  destruct (String.eqb k' k) eqn:E; [done|]. simpl. by rewrite E.
Qed.

Lemma get_remove_ne st k k' :
  k <> k' -> StyleDecl.get (StyleDecl.remove st k) k' = StyleDecl.get st k'.
Proof.
  intros Hne. induction st as [|[k0 v] st IH]; simpl; [done|].
  destruct (String.eqb k0 k) eqn:E.
  - apply String.eqb_eq in E as ->.
    destruct (String.eqb_spec k k'); [done|]. done.
  - simpl. by rewrite IH.
Qed.

Lemma get_put_eq st k v : StyleDecl.get (StyleDecl.put st k v) k = v.
Proof.
  induction st as [|[k' w] st IH]; simpl.
  - by rewrite String.eqb_refl.
  - destruct (String.eqb k' k) eqn:E; simpl; by rewrite E.
Qed.

Lemma get_put_ne st k k' v :
  k <> k' -> StyleDecl.get (StyleDecl.put st k v) k' = StyleDecl.get st k'.
Proof.
  intros Hne. induction st as [|[k0 w] st IH]; simpl.
  - by destruct (String.eqb_spec k k').
  - destruct (String.eqb k0 k) eqn:E; simpl.
    + apply String.eqb_eq in E as ->.
      destruct (String.eqb_spec k k'); [done|]. by apply get_remove_ne.
    + by rewrite IH.
Qed.

Lemma get_set_eq st k v : StyleDecl.get (StyleDecl.set st k v) k = v.
Proof.
  unfold StyleDecl.set. destruct (String.eqb_spec v "") as [->|_].
  - apply get_remove_eq.
  - apply get_put_eq.
Qed.

Lemma get_set_ne st k k' v :
  k <> k' -> StyleDecl.get (StyleDecl.set st k v) k' = StyleDecl.get st k'.
Proof.
  intros Hne. unfold StyleDecl.set. destruct (String.eqb v "").
  - by apply get_remove_ne.
  - by apply get_put_ne.
Qed.

Lemma style_read_write_eq st p v : style_read (style_write st p v) p = v.
Proof. apply get_set_eq. Qed.

Lemma style_read_write_ne st p q v :
  css_name p <> css_name q ->
  style_read (style_write st p v) q = style_read st q.
Proof. apply get_set_ne. Qed.

(** Reading back what [Object.assign] wrote from a snapshot. *)
Lemma assign_members_read st o :
  let st' := assign_members st (JSON.snapshot_members o) in
  style_read st' "fill" = fill o /\ style_read st' "color" = color o /\
  style_read st' "fontSize" = fontSize o /\
  style_read st' "fontWeight" = fontWeight o /\
  style_read st' "fontFamily" = fontFamily o /\
  style_read st' "textDecoration" = textDecoration o.
Proof.
  unfold assign_members. simpl.
  repeat split;
    repeat first [ apply style_read_write_eq
                 | rewrite style_read_write_ne by (vm_compute; discriminate) ].
Qed.

(** A property [Object.assign] does not name keeps its value. *)
Lemma assign_members_other st o q :
  ~ In (css_name q)
      ["fill"; "color"; "font-size"; "font-weight"; "font-family"; "text-decoration"] ->
  style_read (assign_members st (JSON.snapshot_members o)) q = style_read st q.
Proof.
  intros Hq. unfold assign_members. simpl.
  rewrite !style_read_write_ne; [done|..];
    intros E; apply Hq; rewrite <- E; vm_compute; tauto.
Qed.

(** ** JSON: what [stringify] writes, [parse] reads back *)

Lemma parse_chars_escape c rest :
  JSON.parse_chars (JSON.escape c +:+ rest) =
  match JSON.parse_chars rest with
  | Some (t, r) => Some (String c t, r)
  | None => None
  end.
Proof.
  destruct c as [[] [] [] [] [] [] [] []]; reflexivity.
Qed.

Lemma parse_chars_escape_all s rest :
  JSON.parse_chars (JSON.escape_all s +:+ String JSON.dquote rest) = Some (s, rest).
Proof.
  induction s as [|c s IH]; [done|].
  simpl. rewrite append_assoc, parse_chars_escape. by rewrite IH.
Qed.

Lemma parse_chars_quote s rest :
  JSON.parse_chars (JSON.escape_all s +:+ String JSON.dquote "" +:+ rest)
  = Some (s, rest).
Proof. apply parse_chars_escape_all. Qed.

Lemma quote_unfold s rest :
  JSON.quote s +:+ rest = String JSON.dquote (JSON.escape_all s +:+ String JSON.dquote rest).
Proof.
  unfold JSON.quote. rewrite append_cons, append_assoc. by rewrite append_cons.
Qed.

Lemma parse_value_quote fuel s rest :
  JSON.parse_value (S fuel) (JSON.quote s +:+ rest) = Some (JString s, rest).
Proof.
  rewrite quote_unfold. simpl. by rewrite parse_chars_escape_all.
Qed.

Lemma member_text_unfold kv rest :
  JSON.member_text kv +:+ rest =
  String JSON.dquote
    (JSON.escape_all (fst kv) +:+
       String JSON.dquote (String ":" (JSON.quote (snd kv) +:+ rest))).
Proof.
  unfold JSON.member_text. rewrite !append_assoc, quote_unfold.
  by rewrite append_cons.
Qed.

Ltac parse_member_step fuel :=
  rewrite member_text_unfold;
  change (JSON.parse_members (S (S fuel)) (String JSON.dquote ?s))
    with (match JSON.parse_chars s with
          | None => None
          | Some (k, s2) =>
              match JSON.skip_ws s2 with
              | String c s3 =>
                  if Nat.eqb (nat_of_ascii c) 58 then
                    match JSON.parse_value (S fuel) s3 with
                    | None => None
                    | Some (v, r) =>
                        match JSON.skip_ws r with
                        | String c' rest =>
                            if Nat.eqb (nat_of_ascii c') 125
                            then Some ([(k, v)], rest)
                            else if Nat.eqb (nat_of_ascii c') 44 then
                              match JSON.parse_members (S fuel) (JSON.skip_ws rest) with
                              | Some (ms, r') => Some ((k, v) :: ms, r')
                              | None => None
                              end
                            else None
                        | EmptyString => None
                        end
                    end
                  else None
              | EmptyString => None
              end
          end);
  rewrite parse_chars_escape_all;
  change (JSON.skip_ws (String ":" ?s)) with (String ":" s);
  change (Nat.eqb (nat_of_ascii ":") 58) with true; cbv iota;
  rewrite parse_value_quote.

(** One member whose value is a string, before the closing brace. *)
Lemma parse_members_last fuel kv rest :
  JSON.parse_members (S (S fuel)) (JSON.member_text kv +:+ String "}" rest) =
  Some ([(fst kv, JString (snd kv))], rest).
Proof. parse_member_step fuel. reflexivity. Qed.

(** One member whose value is a string, before a comma. *)
Lemma parse_members_more fuel kv rest :
  JSON.parse_members (S (S fuel)) (JSON.member_text kv +:+ String "," rest) =
  match JSON.parse_members (S fuel) (JSON.skip_ws rest) with
  | Some (ms, r') => Some ((fst kv, JString (snd kv)) :: ms, r')
  | None => None
  end.
Proof. parse_member_step fuel. reflexivity. Qed.

Lemma skip_ws_member kv rest :
  JSON.skip_ws (JSON.member_text kv +:+ rest) = JSON.member_text kv +:+ rest.
Proof. by rewrite member_text_unfold. Qed.

Lemma parse_value_object fuel kv rest :
  JSON.parse_value (S fuel) (String "{" (JSON.member_text kv +:+ rest)) =
  match JSON.parse_members fuel (JSON.member_text kv +:+ rest) with
  | Some (ms, r) => Some (JObject ms, r)
  | None => None
  end.
Proof. rewrite member_text_unfold. reflexivity. Qed.

(** [JSON.parse(JSON.stringify(o))] is the object with the six members. *)
Lemma parse_stringify o : JSON.parse (JSON.stringify o) = Some (JSON.snapshot_value o).
Proof.
  unfold JSON.parse, JSON.stringify.
  set (n := String.length _).
  assert (Hn : 8 <= n).
  { subst n. rewrite append_cons. simpl String.length.
    unfold JSON.snapshot_members. simpl map. simpl Str.join.
    rewrite !append_assoc. rewrite !member_text_unfold.
    simpl String.length. lia. }
  destruct n as [|[|[|[|[|[|[|[|n]]]]]]]]; try lia. clear Hn.
  unfold JSON.snapshot_members, JSON.snapshot_value. simpl map. simpl Str.join.
  rewrite !append_assoc.
  replace (2 * S (S (S (S (S (S (S (S n))))))) + 2)
    with (S (S (S (S (S (S (S (S (2 * n + 10))))))))) by lia.
  rewrite append_cons, append_empty, parse_value_object.
  rewrite !append_cons, !append_empty.
  do 5 (rewrite parse_members_more, skip_ws_member).
  rewrite parse_members_last. reflexivity.
Qed.

(** The text of a snapshot is not empty, so a saved snapshot counts as set. *)
Lemma stringify_set o : unset (Some (JSON.stringify o)) = false.
Proof. reflexivity. Qed.

Lemma as_snapshot_value o : JSON.as_snapshot (JSON.snapshot_value o) = Some o.
Proof. by destruct o. Qed.

Example parse_garbage : JSON.parse "{oops" = None.
Proof. reflexivity. Qed.

Example parse_number_text : JSON.parse " [1, -2.5e+3] " = Some (JArray [JNumber "1"; JNumber "-2.5e+3"]).
Proof. reflexivity. Qed.

(** ** Sequencing *)

Lemma andThen_normal (a b : Action) d :
  completion (a d) = Normal ->
  (a >> b) d =
  {| final := final (b (final (a d)));
     writes := writes (a d) ++ writes (b (final (a d)));
     completion := completion (b (final (a d))) |}.
Proof. intros H. unfold andThen. by rewrite H. Qed.

Lemma andThen_throw (a b : Action) d e :
  completion (a d) = Throw e -> (a >> b) d = a d.
Proof. intros H. unfold andThen. by rewrite H. Qed.

Lemma andThen_completes (a b : Action) d :
  completion ((a >> b) d) = Normal ->
  completion (a d) = Normal /\ completion (b (final (a d))) = Normal.
Proof.
  unfold andThen. destruct (completion (a d)) eqn:E; simpl; [done|].
  rewrite E. done.
Qed.

Lemma andThen_skip_l (a : Action) d : (skip >> a) d = a d.
Proof. unfold andThen, skip. simpl. by destruct (a d). Qed.

(** ** Relations an action preserves *)

Section Preserves.
Context (R : Document -> Document -> Prop) `{!PreOrder R}.

Lemma preserves_skip : preserves R skip.
Proof. intros d. reflexivity. Qed.

Lemma preserves_throw e : preserves R (throw e).
Proof. intros d. reflexivity. Qed.

Lemma preserves_andThen a b :
  preserves R a -> preserves R b -> preserves R (a >> b).
Proof.
  intros Ha Hb d. unfold andThen.
  destruct (completion (a d)); simpl; [|apply Ha].
  etrans; [apply Ha|apply Hb].
Qed.

Lemma preserves_forEach l f :
  (forall i, preserves R (f i)) -> preserves R (forEach l f).
Proof.
  intros Hf. induction l as [|i l IH]; simpl.
  - apply preserves_skip.
  - by apply preserves_andThen.
Qed.

Lemma preserves_updateElements sel f :
  (forall i, preserves R (f i)) -> preserves R (updateElements sel f).
Proof. intros Hf d. unfold updateElements. by apply preserves_forEach. Qed.

Lemma preserves_withElement i k :
  (forall d e, elements d !! i = Some e -> R d (final (k e d))) ->
  preserves R (withElement i k).
Proof.
  intros Hk d. unfold withElement. destruct (elements d !! i) eqn:E.
  - by apply Hk.
  - reflexivity.
Qed.

End Preserves.

(** ** Documents related element by element *)

Global Instance keeps_preorder P `{!PreOrder P} : PreOrder (keeps P).
Proof.
  split.
  - intros d. split; reflexivity.
  - intros d1 d2 d3 [Hb1 H1] [Hb2 H2]. split; [congruence|].
    by etrans.
Qed.

Lemma keeps_lookup P d d' i e :
  keeps P d d' -> elements d !! i = Some e ->
  exists e', elements d' !! i = Some e' /\ P e e'.
Proof. intros [_ H] He. by eapply Forall2_lookup_l. Qed.

Lemma keeps_lookup_r P d d' i e' :
  keeps P d d' -> elements d' !! i = Some e' ->
  exists e, elements d !! i = Some e /\ P e e'.
Proof. intros [_ H] He. by eapply Forall2_lookup_r. Qed.

Lemma keeps_length P d d' :
  keeps P d d' -> length (elements d) = length (elements d').
Proof. intros [_ H]. by eapply Forall2_length. Qed.

Lemma keeps_impl (P Q : Element -> Element -> Prop) d d' :
  (forall e e', P e e' -> Q e e') -> keeps P d d' -> keeps Q d d'.
Proof. intros HPQ [Hb H]. split; [done|]. eapply Forall2_impl; eauto. Qed.

Lemma keeps_and (P Q : Element -> Element -> Prop) d d' :
  keeps P d d' -> keeps Q d d' -> keeps (fun e e' => P e e' /\ Q e e') d d'.
Proof.
  intros [Hb H1] [_ H2]. split; [done|].
  apply Forall2_same_length_lookup_2; [by eapply Forall2_length|].
  intros i e e' He He'. split.
  - by eapply Forall2_lookup_lr.
  - by eapply Forall2_lookup_lr.
Qed.

(** A write to one element that respects [P]. *)
Lemma keeps_alter P `{!Reflexive P} d i f :
  (forall e, elements d !! i = Some e -> P e (f e)) ->
  keeps P d (with_elements (alter f i (elements d)) d).
Proof.
  intros Hf. split; [done|]. simpl.
  apply Forall2_same_length_lookup_2; [by rewrite length_alter|].
  intros j e e' He He'. destruct (decide (i = j)) as [->|Hne].
  - rewrite list_lookup_alter_eq, He in He'. simpl in He'.
    injection He' as <-. by apply Hf.
  - rewrite list_lookup_alter_ne, He in He' by done. by injection He' as <-.
Qed.

Lemma preserves_update P `{!Reflexive P} i f w :
  (forall e, P e (f e)) -> preserves (keeps P) (update i f w).
Proof. intros Hf d. simpl. apply keeps_alter; auto. Qed.

(** ** Actions that never throw *)

Lemma total_skip : total skip.
Proof. done. Qed.

Lemma total_update i f w : total (update i f w).
Proof. done. Qed.

Lemma total_andThen a b : total a -> total b -> total (a >> b).
Proof. intros Ha Hb d. rewrite andThen_normal by apply Ha. apply Hb. Qed.

Lemma total_withElement i k : (forall e, total (k e)) -> total (withElement i k).
Proof.
  intros Hk d. unfold withElement. destruct (elements d !! i); [apply Hk|done].
Qed.

Lemma total_forEach l f : (forall i, total (f i)) -> total (forEach l f).
Proof.
  intros Hf. induction l as [|i l IH]; simpl; [done|]. by apply total_andThen.
Qed.

Lemma total_updateElements sel f :
  (forall i, total (f i)) -> total (updateElements sel f).
Proof. intros Hf d. by apply total_forEach. Qed.

(** ** Actions on one element *)

Lemma local_at_skip j : local_at j skip.
Proof. intros d. simpl. by repeat split. Qed.

Lemma local_at_throw j e : local_at j (throw e).
Proof. intros d. simpl. by repeat split. Qed.

Lemma local_at_update j f w :
  write_target w = j -> local_at j (update j f w).
Proof.
  intros Hw d. simpl. split; [done|]. split; [by rewrite length_alter|].
  split; [|by repeat constructor].
  intros i Hi. by rewrite list_lookup_alter_ne.
Qed.

Lemma local_at_andThen j a b :
  local_at j a -> local_at j b -> local_at j (a >> b).
Proof.
  intros Ha Hb d. unfold andThen.
  destruct (Ha d) as (Ha1 & Ha2 & Ha3 & Ha4).
  destruct (completion (a d)); [|done].
  destruct (Hb (final (a d))) as (Hb1 & Hb2 & Hb3 & Hb4). simpl.
  split; [congruence|]. split; [congruence|]. split.
  - intros i Hi. by rewrite Hb3, Ha3.
  - by apply Forall_app.
Qed.

Lemma local_at_withElement j i k :
  (forall e, local_at j (k e)) -> local_at j (withElement i k).
Proof.
  intros Hk d. unfold withElement. destruct (elements d !! i).
  - apply Hk.
  - apply local_at_skip.
Qed.

Lemma local_at_lookup j a d i :
  local_at j a -> i <> j -> elements (final (a d)) !! i = elements d !! i.
Proof. intros Ha Hi. by apply Ha. Qed.

Lemma local_at_writes j a d i :
  local_at j a -> i <> j -> writes_at i (writes (a d)) = [].
Proof.
  intros Ha Hi. destruct (Ha d) as (_ & _ & _ & Hw). unfold writes_at.
  induction Hw as [|w ws Hw _ IH]; [done|].
  rewrite filter_cons_False by congruence. done.
Qed.

Lemma local_at_writes_self j a d :
  local_at j a -> writes_at j (writes (a d)) = writes (a d).
Proof.
  intros Ha. destruct (Ha d) as (_ & _ & _ & Hw). unfold writes_at.
  induction Hw as [|w ws Hw _ IH]; [done|].
  rewrite filter_cons_True by done. by f_equal.
Qed.

Lemma writes_at_app i ws ws' :
  writes_at i (ws ++ ws') = writes_at i ws ++ writes_at i ws'.
Proof. apply filter_app. Qed.

(** ** [forEach] with a callback that touches its own element only *)

Section ForEach.
Context (f : nat -> Action) (Hlocal : forall j, local_at j (f j)).

(** An element that is not in the list is left as it is. *)
Lemma forEach_notin l d i :
  i ∉ l ->
  elements (final (forEach l f d)) !! i = elements d !! i /\
  writes_at i (writes (forEach l f d)) = [].
Proof.
  revert d. induction l as [|j l IH]; intros d Hi; [done|].
  apply not_elem_of_cons in Hi as [Hij Hil]. simpl. unfold andThen.
  destruct (completion (f j d)).
  - simpl. destruct (IH (final (f j d)) Hil) as [-> Hw]. split.
    + by apply (local_at_lookup j (f j)).
    + rewrite writes_at_app, Hw, app_nil_r. by apply (local_at_writes j (f j)).
  - split; [by apply (local_at_lookup j (f j))|by apply (local_at_writes j (f j))].
Qed.

(** What became of an element of the list: the loop stopped before it, or
    its callback ran once, on a document [dk] in which the element was as
    at the start, and nothing else touched it. *)
Lemma forEach_at (R : Document -> Document -> Prop) `{!PreOrder R} l d i :
  (forall j, preserves R (f j)) ->
  NoDup l -> i ∈ l ->
  let r := forEach l f d in
  (elements (final r) !! i = elements d !! i /\ writes_at i (writes r) = [] /\
   completion r <> Normal)
  \/
  (exists dk,
     R d dk /\ elements dk !! i = elements d !! i /\
     elements (final r) !! i = elements (final (f i dk)) !! i /\
     writes_at i (writes r) = writes (f i dk) /\
     (completion r = Normal -> completion (f i dk) = Normal)).
Proof.
  intros HR. revert d. induction l as [|j l IH]; intros d Hnd Hi; [by apply elem_of_nil in Hi|].
  apply NoDup_cons in Hnd as [Hjl Hnd]. simpl. unfold andThen.
  destruct (decide (i = j)) as [->|Hij].
  - right. exists d. split; [reflexivity|]. split; [done|].
    destruct (completion (f j d)) eqn:Hc; simpl.
    + destruct (forEach_notin l (final (f j d)) j Hjl) as [-> Hw].
      split; [done|]. split; [|done].
      by rewrite writes_at_app, Hw, app_nil_r, (local_at_writes_self j (f j)).
    + split; [done|]. split; [by rewrite (local_at_writes_self j (f j))|]. by rewrite Hc.
  - apply elem_of_cons in Hi as [?|Hi]; [done|].
    destruct (completion (f j d)) eqn:Hc; simpl.
    + destruct (IH (final (f j d)) Hnd Hi) as [(He & Hw & Hn)|(dk & HRk & Hk & He & Hw & Hn)].
      * left. split; [by rewrite He; apply (local_at_lookup j (f j))|].
        split; [|done].
        by rewrite writes_at_app, Hw, app_nil_r, (local_at_writes j (f j)).
      * right. exists dk. split; [etrans; [apply HR|done]|].
        split; [by rewrite Hk; apply (local_at_lookup j (f j))|]. split; [done|].
        split; [|done].
        by rewrite writes_at_app, Hw, (local_at_writes j (f j)).
    + left. split; [by apply (local_at_lookup j (f j))|].
      split; [by apply (local_at_writes j (f j))|]. by rewrite Hc.
Qed.

(** The same when the loop ended: the callback ran. *)
Lemma forEach_at_normal (R : Document -> Document -> Prop) `{!PreOrder R} l d i :
  (forall j, preserves R (f j)) ->
  NoDup l -> i ∈ l ->
  let r := forEach l f d in
  completion r = Normal ->
  exists dk,
    R d dk /\ elements dk !! i = elements d !! i /\
    elements (final r) !! i = elements (final (f i dk)) !! i /\
    writes_at i (writes r) = writes (f i dk) /\
    completion (f i dk) = Normal.
Proof.
  intros HR Hnd Hi r Hc.
  destruct (forEach_at R l d i HR Hnd Hi) as [(_ & _ & Hn)|(dk & H1 & H2 & H3 & H4 & H5)].
  - done.
  - exists dk. repeat split; auto.
Qed.

End ForEach.

(** ** Selectors *)

Lemma querySelectorAll_NoDup sel d : NoDup (querySelectorAll sel d).
Proof. apply NoDup_filter, NoDup_seq. Qed.

Lemma elem_of_querySelectorAll sel d i :
  i ∈ querySelectorAll sel d <-> matches_at d sel i = true.
Proof.
  unfold querySelectorAll. rewrite list_elem_of_filter, elem_of_seq.
  split; [tauto|]. intros Hm. split; [done|]. split; [lia|]. simpl.
  unfold matches_at in Hm. destruct (elements d !! i) eqn:E; [|done].
  by apply lookup_lt_Some in E.
Qed.

Lemma matches_at_lookup d sel i :
  matches_at d sel i = true ->
  exists e, elements d !! i = Some e /\ matches d e sel = true.
Proof.
  unfold matches_at. destruct (elements d !! i) as [e|]; [|done]. by exists e.
Qed.

Section SameFor.
Context (sel : Selector).

Lemma ancestors_from_same els els' n p :
  Forall2 (same_for sel) els els' ->
  Forall2 (same_for sel) (ancestors_from n els p) (ancestors_from n els' p).
Proof.
  intros H. revert p. induction n as [|n IH]; intros p; simpl; [by destruct p|].
  destruct p as [j|]; [|done].
  destruct (els !! j) as [a|] eqn:Ea.
  - destruct (Forall2_lookup_l _ _ _ _ _ H Ea) as (a' & -> & Ha).
    constructor; [done|]. destruct Ha as [-> _]. apply IH.
  - destruct (els' !! j) as [a'|] eqn:Ea'; [|done].
    destruct (Forall2_lookup_r _ _ _ _ _ H Ea') as (a & Ha & _). congruence.
Qed.

Lemma above_match_same c anc anc' :
  c ∈ concat sel -> Forall2 (same_for sel) anc anc' ->
  match above_match c anc, above_match c anc' with
  | Some up, Some up' => Forall2 (same_for sel) up up'
  | None, None => True
  | _, _ => False
  end.
Proof.
  intros Hc H. induction H as [|a a' anc anc' Ha H IH]; simpl; [done|].
  destruct Ha as [_ Ha]. rewrite Forall_forall in Ha.
  rewrite <- (Ha c Hc). by destruct (matches_compound a c).
Qed.

Lemma matches_chain_same chain anc anc' :
  chain ⊆ concat sel -> Forall2 (same_for sel) anc anc' ->
  matches_chain chain anc = matches_chain chain anc'.
Proof.
  revert anc anc'. induction chain as [|c chain IH]; intros anc anc' Hsub H; [done|].
  simpl. assert (Hc : c ∈ concat sel) by (apply Hsub; left).
  pose proof (above_match_same c anc anc' Hc H) as Hup.
  destruct (above_match c anc), (above_match c anc'); try done.
  apply IH; [|done]. intros x Hx. apply Hsub. by right.
Qed.

Lemma matches_same d d' e e' :
  keeps (same_for sel) d d' -> same_for sel e e' ->
  matches d e sel = matches d' e' sel.
Proof.
  intros Hd He. unfold matches.
  assert (Hall : forall cx, cx ∈ sel ->
            matches_complex d e cx = matches_complex d' e' cx).
  { intros cx Hcx. unfold matches_complex.
    assert (Hsub : rev cx ⊆ concat sel).
    { intros c Hc. apply list_elem_of_In, in_rev in Hc. apply list_elem_of_In.
      apply in_concat. exists cx. split; [by apply list_elem_of_In|done]. }
    destruct (rev cx) as [|subject chain]; [done|].
    destruct He as [Hp He]. rewrite Forall_forall in He.
    rewrite (He subject) by (apply Hsub; left). f_equal.
    apply matches_chain_same; [intros x Hx; apply Hsub; by right|].
    unfold ancestors. rewrite Hp, (keeps_length _ _ _ Hd).
    apply ancestors_from_same, Hd. }
  induction sel as [|cx sel' IH] in Hall |- *; [done|]. simpl.
  rewrite Hall by left. f_equal. apply IH. intros cx' Hcx'. apply Hall. by right.
Qed.

Lemma matches_at_same d d' i :
  keeps (same_for sel) d d' -> matches_at d sel i = matches_at d' sel i.
Proof.
  intros Hd. unfold matches_at. destruct (elements d !! i) as [e|] eqn:E.
  - destruct (keeps_lookup _ _ _ _ _ Hd E) as (e' & -> & He).
    by apply matches_same.
  - destruct (elements d' !! i) as [e'|] eqn:E'; [|done].
    destruct (keeps_lookup_r _ _ _ _ _ Hd E') as (e & He & _). congruence.
Qed.

Lemma querySelectorAll_same d d' :
  keeps (same_for sel) d d' -> querySelectorAll sel d = querySelectorAll sel d'.
Proof.
  intros Hd. unfold querySelectorAll. rewrite (keeps_length _ _ _ Hd).
  apply list_filter_iff. intros i. by rewrite (matches_at_same d d' i Hd).
Qed.

End SameFor.

(** The routine never writes what a selector without a [style] test
    reads. *)
Lemma same_markup_same_for sel e e' :
  markup_selector sel = true -> same_markup e e' -> same_for sel e e'.
Proof.
  intros Hsel (Ht & Hc & Hp). split; [done|].
  unfold markup_selector in Hsel. rewrite forallb_forall in Hsel.
  apply Forall_forall. intros c Hc'. rewrite list_elem_of_In in Hc'.
  specialize (Hsel c Hc'). unfold matches_compound. clear Hc'.
  induction c as [|s c IH]; [done|]. simpl in *.
  apply andb_true_iff in Hsel as [Hs Hrest]. rewrite (IH Hrest). f_equal.
  destruct s as [name|name|attr text]; simpl.
  - by rewrite Ht.
  - by rewrite Hc.
  - unfold getAttribute. rewrite Hc. simpl in Hs.
    destruct (String.eqb attr "class"); [done|].
    by destruct (String.eqb attr "style").
Qed.

Lemma querySelectorAll_markup sel d d' :
  markup_selector sel = true -> keeps same_markup d d' ->
  querySelectorAll sel d = querySelectorAll sel d'.
Proof.
  intros Hsel Hd. apply querySelectorAll_same.
  eapply keeps_impl; [|done]. intros e e'. by apply same_markup_same_for.
Qed.

Lemma matches_at_markup sel d d' i :
  markup_selector sel = true -> keeps same_markup d d' ->
  matches_at d sel i = matches_at d' sel i.
Proof.
  intros Hsel Hd. apply matches_at_same.
  eapply keeps_impl; [|done]. intros e e'. by apply same_markup_same_for.
Qed.

Global Instance same_markup_preorder : PreOrder same_markup.
Proof.
  split.
  - by intros e.
  - intros e1 e2 e3 (?&?&?) (?&?&?). repeat split; congruence.
Qed.

(** ** What each pass preserves *)

Lemma matches_sel_text d e : matches d e sel_text = true -> text_tag e.
Proof.
  unfold matches, sel_text, matches_complex, matches_compound. simpl.
  unfold text_tag.
  destruct (String.eqb_spec (tagName e) "text"); [by left|].
  destruct (String.eqb_spec (tagName e) "tspan"); [by right|].
  simpl. done.
Qed.

Lemma keeps_andThen P `{!PreOrder P} (a b : Action) d :
  keeps P d (final (a d)) ->
  keeps P (final (a d)) (final (b (final (a d)))) ->
  keeps P d (final ((a >> b) d)).
Proof.
  intros Ha Hb. unfold andThen. destruct (completion (a d)); [|done].
  simpl. by etrans.
Qed.

Section Frames.
Context (P : Element -> Element -> Prop) `{!PreOrder P}.

Lemma preserves_set_src i v :
  (forall e, P e (with_src v e)) -> preserves (keeps P) (set_src i v).
Proof. intros Hs. unfold set_src. apply preserves_update; [apply _|done]. Qed.

Lemma preserves_set_style i q v :
  (forall e w, P e (with_style (style_write (style e) q w) e)) ->
  preserves (keeps P) (set_style i q v).
Proof.
  intros Hq. unfold set_style. apply preserves_update; [apply _|].
  intros e. apply Hq.
Qed.

Lemma preserves_addEventListener i t h :
  (forall e t h, P e (with_listener t h e)) ->
  preserves (keeps P) (addEventListener i t h).
Proof.
  intros Hl. unfold addEventListener. apply preserves_update; [apply _|].
  intros e. apply Hl.
Qed.

Lemma preserves_updateStyle dark i q lv dv :
  (forall e w, P e (with_style (style_write (style e) q w) e)) ->
  preserves (keeps P) (updateStyle dark i q lv dv).
Proof.
  intros Hq. apply preserves_withElement; [apply _|]. intros d e _.
  cbv zeta. destruct (negb (String.eqb _ _)).
  - by apply preserves_set_style.
  - reflexivity.
Qed.

Lemma img_pass_preserves L D :
  (forall e v, P e (with_src v e)) ->
  preserves (keeps P) (updateElements sel_img (img_callback L D)).
Proof.
  intros Hs. apply preserves_updateElements; [apply _|]. intros i.
  apply preserves_withElement; [apply _|]. intros d e _.
  cbv zeta. destruct (negb (String.eqb _ _)).
  - apply preserves_set_src. intros e'. apply Hs.
  - reflexivity.
Qed.

Lemma svg_pass_preserves D :
  (forall e w, P e (with_style (style_write (style e) "background" w) e)) ->
  preserves (keeps P) (updateElements sel_svg_background (svg_callback D)).
Proof.
  intros Hq. apply preserves_updateElements; [apply _|]. intros i.
  by apply preserves_updateStyle.
Qed.

Lemma rect_pass_preserves D :
  (forall e w, P e (with_style (style_write (style e) "fill" w) e)) ->
  preserves (keeps P) (updateElements sel_rect_fill (rect_callback D)).
Proof.
  intros Hq. apply preserves_updateElements; [apply _|]. intros i.
  by apply preserves_updateStyle.
Qed.

Lemma table_pass_preserves D :
  (forall e w, P e (with_style (style_write (style e) "color" w) e)) ->
  preserves (keeps P) (updateElements sel_gt (table_callback D)).
Proof.
  intros Hq. apply preserves_updateElements; [apply _|]. intros i.
  unfold table_callback. destruct D; by apply preserves_set_style.
Qed.

Lemma reactable_pass_preserves D :
  (forall e w, P e (with_style (style_write (style e) "color" w) e)) ->
  (forall e w, P e (with_style (style_write (style e) "backgroundColor" w) e)) ->
  (forall e w, P e (with_style (style_write (style e) "borderColor" w) e)) ->
  (forall e w, P e (with_style (style_write (style e) "transition" w) e)) ->
  (forall e t h, P e (with_listener t h e)) ->
  preserves (keeps P)
    (updateElements sel_reactable (Extended.reactable_callback D)).
Proof.
  intros Hc Hb Hbd Ht Hl. apply preserves_updateElements; [apply _|]. intros k.
  unfold Extended.reactable_callback.
  repeat (apply preserves_andThen; [apply _| |]);
    (apply preserves_updateElements; [apply _|]; intros i).
  - by apply preserves_updateStyle.
  - unfold Extended.search_callback.
    destruct D; repeat (apply preserves_andThen; [apply _| |]);
      by apply preserves_set_style.
  - unfold Extended.button_callback_1.
    destruct D; [|apply preserves_skip; apply _].
    repeat (apply preserves_andThen; [apply _| |]);
      first [by apply preserves_set_style | by apply preserves_addEventListener].
  - unfold Extended.button_callback_2.
    destruct D; [|by apply preserves_set_style].
    repeat (apply preserves_andThen; [apply _| |]);
      first [by apply preserves_set_style | by apply preserves_addEventListener].
  - unfold Extended.nav_button_callback. destruct D; by apply preserves_set_style.
  - unfold Extended.current_button_callback.
    destruct D; repeat (apply preserves_andThen; [apply _| |]);
      by apply preserves_set_style.
  - unfold Extended.sort_header_callback. destruct D; by apply preserves_set_style.
Qed.

(** A loop over elements that all satisfy [Q], with a callback that
    respects [P] on such an element. *)
Lemma forEach_preserves_where (Q : Element -> Prop) (f : nat -> Action) l d :
  (forall e e', P e e' -> Q e -> Q e') ->
  (forall i d e, elements d !! i = Some e -> Q e -> keeps P d (final (f i d))) ->
  (forall i, i ∈ l -> exists e, elements d !! i = Some e /\ Q e) ->
  keeps P d (final (forEach l f d)).
Proof.
  intros Hstable Hf. revert d. induction l as [|i l IH]; intros d Hl; [reflexivity|].
  simpl. destruct (Hl i) as (e & He & HQ); [left|].
  pose proof (Hf i d e He HQ) as Hstep.
  apply keeps_andThen; [apply _|done|]. apply IH. intros j Hj.
  destruct (Hl j) as (ej & Hej & HQj); [by right|].
  destruct (keeps_lookup _ _ _ _ _ Hstep Hej) as (ej' & Hej' & HP).
  exists ej'. eauto.
Qed.

Context `{Browser}.

Lemma text_callback_preserves D c i d e :
  (forall e st, text_tag e -> P e (with_style st e)) ->
  (forall e v, text_tag e -> unset (originalStyle e) = true ->
               P e (with_originalStyle v e)) ->
  elements d !! i = Some e -> text_tag e ->
  keeps P d (final (text_callback_with D c i d)).
Proof.
  intros Hst Hdata He Htag. unfold text_callback_with.
  assert (Hsave : keeps P d (final (save_originalStyle i d)) /\
                  exists e1, elements (final (save_originalStyle i d)) !! i = Some e1 /\
                             text_tag e1).
  { unfold save_originalStyle, withElement. rewrite He.
    destruct (unset (originalStyle e)) eqn:Hu.
    - simpl. split.
      + apply keeps_alter; [apply _|]. intros e0 He0. rewrite He in He0.
        injection He0 as <-. by apply Hdata.
      + rewrite list_lookup_alter_eq, He. simpl. eauto.
    - simpl. split; [reflexivity|eauto]. }
  destruct Hsave as [Hsave (e1 & He1 & Htag1)].
  apply keeps_andThen; [apply _|done|].
  set (d1 := final (save_originalStyle i d)) in *. clearbody d1.
  unfold restyle_text, withElement. rewrite He1.
  destruct (originalStyle e1) as [payload|]; [|reflexivity].
  destruct (JSON.parse payload) as [v|]; [|reflexivity].
  destruct D.
  - apply keeps_andThen; [apply _| |].
    + simpl. apply keeps_alter; [apply _|]. intros e0 He0.
      rewrite He1 in He0. injection He0 as <-. by apply Hst.
    + simpl. apply keeps_alter; [apply _|]. intros e0 He0. simpl in He0.
      rewrite list_lookup_alter_eq, He1 in He0. injection He0 as <-.
      by apply Hst.
  - unfold Object_assign_style, withElement. rewrite He1.
    destruct (JSON.as_snapshot v); simpl;
      (apply keeps_alter; [apply _|]; intros e0 He0; rewrite He1 in He0;
       injection He0 as <-; by apply Hst).
Qed.

Lemma text_pass_preserves D c :
  (forall e e', P e e' -> tagName e = tagName e') ->
  (forall e st, text_tag e -> P e (with_style st e)) ->
  (forall e v, text_tag e -> unset (originalStyle e) = true ->
               P e (with_originalStyle v e)) ->
  preserves (keeps P) (updateElements sel_text (text_callback_with D c)).
Proof.
  intros Htag Hst Hdata d. unfold updateElements.
  apply (forEach_preserves_where text_tag).
  - intros e e' HP. unfold text_tag. by rewrite (Htag e e' HP).
  - intros i d' e He Ht. by apply (text_callback_preserves D c i d' e).
  - intros i Hi. apply elem_of_querySelectorAll, matches_at_lookup in Hi.
    destruct Hi as (e & He & Hm). exists e. split; [done|].
    by apply matches_sel_text in Hm.
Qed.

End Frames.

(** ** The shape of a call *)

Section Shape.
Context `{Browser}.

Lemma basic_passes_common L D :
  Basic.passes L D = common_passes L D "white".
Proof. reflexivity. Qed.

Lemma extended_passes_common L D :
  Extended.passes L D =
  common_passes L D "rgb(204,193,183)"
  >> updateElements sel_reactable (Extended.reactable_callback D).
Proof. reflexivity. Qed.

Lemma run_unfold v d :
  run v d =
  match document_body d with
  | None => throw TypeError d
  | Some b =>
      if negb (isLightMode d) && negb (isDarkMode d) then skip d
      else passes_of v (isLightMode d) (isDarkMode d) d
  end.
Proof.
  unfold isLightMode, isDarkMode.
  destruct v; simpl; unfold Basic.updateImageSrc, Extended.updateImageSrc;
    by destruct (document_body d).
Qed.

(** With a theme class on the body, a call is the passes. *)
Lemma run_passes v d :
  isLightMode d || isDarkMode d = true ->
  run v d = passes_of v (isLightMode d) (isDarkMode d) d.
Proof.
  intros Hm. rewrite run_unfold. unfold isLightMode, isDarkMode in *.
  destruct (document_body d); [|done].
  by destruct (contains "quarto-light" _), (contains "quarto-dark" _).
Qed.

End Shape.

(** ** Every callback but the reactable one touches its own element *)

Lemma local_at_set_style i q v : local_at i (set_style i q v).
Proof. by apply local_at_update. Qed.

Lemma local_at_addEventListener i t h : local_at i (addEventListener i t h).
Proof. by apply local_at_update. Qed.

Lemma local_at_updateStyle D i q lv dv : local_at i (updateStyle D i q lv dv).
Proof.
  apply local_at_withElement. intros e. cbv zeta.
  destruct (negb (String.eqb _ _)); [apply local_at_set_style|apply local_at_skip].
Qed.

Lemma local_at_img_callback L D i : local_at i (img_callback L D i).
Proof.
  apply local_at_withElement. intros e. cbv zeta.
  destruct (negb (String.eqb _ _)); [by apply local_at_update|apply local_at_skip].
Qed.

Lemma local_at_table_callback D i : local_at i (table_callback D i).
Proof. unfold table_callback. destruct D; apply local_at_set_style. Qed.

Lemma local_at_Object_assign_style `{Browser} i v : local_at i (Object_assign_style i v).
Proof.
  apply local_at_withElement. intros e.
  destruct (JSON.as_snapshot v); [by apply local_at_update|].
  intros d. simpl. split; [done|]. split; [by rewrite length_alter|].
  split; [|by repeat constructor].
  intros j Hj. by rewrite list_lookup_alter_ne.
Qed.

Lemma local_at_text_callback `{Browser} D c i : local_at i (text_callback_with D c i).
Proof.
  apply local_at_andThen.
  - apply local_at_withElement. intros e. destruct (unset _); [|apply local_at_skip].
    intros d. by apply local_at_update.
  - apply local_at_withElement. intros e.
    destruct (originalStyle e); [|apply local_at_throw].
    destruct (JSON.parse _); [|apply local_at_throw].
    destruct D.
    + apply local_at_andThen; apply local_at_set_style.
    + apply local_at_Object_assign_style.
Qed.

Lemma local_at_button_callback_1 D i : local_at i (Extended.button_callback_1 D i).
Proof.
  unfold Extended.button_callback_1. destruct D; [|apply local_at_skip].
  repeat apply local_at_andThen;
    first [apply local_at_set_style | apply local_at_addEventListener].
Qed.

Lemma local_at_button_callback_2 D i : local_at i (Extended.button_callback_2 D i).
Proof.
  unfold Extended.button_callback_2. destruct D; [|apply local_at_set_style].
  repeat apply local_at_andThen;
    first [apply local_at_set_style | apply local_at_addEventListener].
Qed.

(** ** Every pass but the text pass ends *)

Lemma total_set_style i q v : total (set_style i q v).
Proof. apply total_update. Qed.

Lemma total_updateStyle D i q lv dv : total (updateStyle D i q lv dv).
Proof.
  apply total_withElement. intros e. cbv zeta.
  destruct (negb (String.eqb _ _)); [apply total_update|apply total_skip].
Qed.

Lemma total_img_callback L D i : total (img_callback L D i).
Proof.
  apply total_withElement. intros e. cbv zeta.
  destruct (negb (String.eqb _ _)); [apply total_update|apply total_skip].
Qed.

Lemma total_before_text L D : total (before_text L D).
Proof.
  unfold before_text. repeat apply total_andThen;
    apply total_updateElements; intros i;
    first [apply total_img_callback | apply total_updateStyle].
Qed.

Lemma total_table_pass D : total (updateElements sel_gt (table_callback D)).
Proof.
  apply total_updateElements. intros i. unfold table_callback.
  destruct D; apply total_set_style.
Qed.

Lemma total_reactable_callback D k : total (Extended.reactable_callback D k).
Proof.
  unfold Extended.reactable_callback.
  repeat apply total_andThen; apply total_updateElements; intros i.
  - apply total_updateStyle.
  - unfold Extended.search_callback. destruct D; repeat apply total_andThen; apply total_update.
  - unfold Extended.button_callback_1. destruct D; [|apply total_skip].
    repeat apply total_andThen; apply total_update.
  - unfold Extended.button_callback_2. destruct D; [|apply total_update].
    repeat apply total_andThen; apply total_update.
  - unfold Extended.nav_button_callback. destruct D; apply total_update.
  - unfold Extended.current_button_callback.
    destruct D; repeat apply total_andThen; apply total_update.
  - unfold Extended.sort_header_callback. destruct D; apply total_update.
Qed.

Lemma total_reactable_pass D :
  total (updateElements sel_reactable (Extended.reactable_callback D)).
Proof. apply total_updateElements. intros k. apply total_reactable_callback. Qed.

(** ** A call as a sequence of passes *)

Lemma andThen_assoc (a b c : Action) d : ((a >> b) >> c) d = (a >> (b >> c)) d.
Proof.
  unfold andThen. destruct (completion (a d)) eqn:Ea; simpl; [|by rewrite Ea].
  destruct (completion (b (final (a d)))) eqn:Eb; simpl.
  - by rewrite <- app_assoc.
  - by rewrite Eb.
Qed.

Lemma andThen_skip_r (a : Action) d : (a >> skip) d = a d.
Proof.
  unfold andThen, skip. destruct (a d) as [f w c] eqn:E. simpl.
  destruct c; [|done]. by rewrite app_nil_r.
Qed.

Lemma andThen_ext (a a' b b' : Action) d :
  a d = a' d -> (forall d', b d' = b' d') -> (a >> b) d = (a' >> b') d.
Proof. intros Ha Hb. unfold andThen. rewrite Ha. by rewrite Hb. Qed.

Lemma passes_sequence `{Browser} v L D d :
  passes_of v L D d = sequence (pass_list v L D) d.
Proof.
  destruct v; simpl.
  - unfold Basic.passes.
    change (updateElements sel_text (Basic.text_callback D))
      with (text_pass D "white").
    fold (img_pass L D) (svg_pass D) (rect_pass D) (table_pass D).
    rewrite !andThen_assoc. unfold sequence. simpl.
    repeat (apply andThen_ext; [done|intros ?]).
    by rewrite andThen_skip_r.
  - unfold Extended.passes.
    change (updateElements sel_text (Extended.text_callback D))
      with (text_pass D "rgb(204,193,183)").
    fold (img_pass L D) (svg_pass D) (rect_pass D) (table_pass D)
      (reactable_pass D).
    rewrite !andThen_assoc. unfold sequence. simpl.
    repeat (apply andThen_ext; [done|intros ?]).
    by rewrite andThen_skip_r.
Qed.

Lemma sequence_cons a l d : sequence (a :: l) d = (a >> sequence l) d.
Proof. reflexivity. Qed.

Lemma sequence_preserves R `{!PreOrder R} l :
  Forall (preserves R) l -> preserves R (sequence l).
Proof.
  induction 1 as [|a l Ha _ IH]; simpl.
  - by apply preserves_skip.
  - by apply preserves_andThen.
Qed.

Lemma sequence_total l : Forall total l -> total (sequence l).
Proof.
  induction 1 as [|a l Ha _ IH]; simpl; [done|]. by apply total_andThen.
Qed.

(** ** Writes an action can make *)

Lemma emits_skip W : emits W skip.
Proof. intros d. constructor. Qed.

Lemma emits_throw W e : emits W (throw e).
Proof. intros d. constructor. Qed.

Lemma emits_update (W : Write -> Prop) i f w : W w -> emits W (update i f w).
Proof. intros Hw d. by repeat constructor. Qed.

Lemma emits_andThen W a b : emits W a -> emits W b -> emits W (a >> b).
Proof.
  intros Ha Hb d. unfold andThen. destruct (completion (a d)); [|apply Ha].
  simpl. apply Forall_app. split; [apply Ha|apply Hb].
Qed.

Lemma emits_withElement W i k : (forall e, emits W (k e)) -> emits W (withElement i k).
Proof.
  intros Hk d. unfold withElement. destruct (elements d !! i); [apply Hk|constructor].
Qed.

Lemma emits_forEach W l f : (forall i, emits W (f i)) -> emits W (forEach l f).
Proof.
  intros Hf. induction l as [|i l IH]; simpl; [apply emits_skip|].
  by apply emits_andThen.
Qed.

Lemma emits_updateElements W sel f :
  (forall i, emits W (f i)) -> emits W (updateElements sel f).
Proof. intros Hf d. by apply emits_forEach. Qed.

Lemma emits_sequence W l : Forall (emits W) l -> emits W (sequence l).
Proof.
  induction 1 as [|a l Ha _ IH]; simpl; [apply emits_skip|].
  by apply emits_andThen.
Qed.

(** The passes after the image pass by the kinds of their writes: a style
    write, a snapshot saved, a style assigned, a listener added. *)
Ltac emits_step :=
  first
    [ apply emits_skip | apply emits_throw
    | apply emits_andThen
    | apply emits_updateElements; intros ?
    | apply emits_withElement; intros ?
    | apply emits_update; done
    | match goal with
      | |- emits _ (if ?b then _ else _) => destruct b
      | |- emits _ (match ?x with _ => _ end) => destruct x
      | |- emits _ (let _ := _ in _) => cbv zeta
      end ].

Lemma emits_svg_pass (W : Write -> Prop) D :
  (forall i q v, W (SetStyle i q v)) -> emits W (svg_pass D).
Proof.
  intros HW. unfold svg_pass, svg_callback, updateStyle, set_style.
  repeat emits_step; apply emits_update, HW.
Qed.

Lemma emits_rect_pass (W : Write -> Prop) D :
  (forall i q v, W (SetStyle i q v)) -> emits W (rect_pass D).
Proof.
  intros HW. unfold rect_pass, rect_callback, updateStyle, set_style.
  repeat emits_step; apply emits_update, HW.
Qed.

Lemma emits_table_pass (W : Write -> Prop) D :
  (forall i q v, W (SetStyle i q v)) -> emits W (table_pass D).
Proof.
  intros HW. unfold table_pass, table_callback, set_style.
  repeat emits_step; apply emits_update, HW.
Qed.

Lemma emits_reactable_pass (W : Write -> Prop) D :
  (forall i q v, W (SetStyle i q v)) ->
  (forall i t h, W (AddListener i t h)) ->
  emits W (reactable_pass D).
Proof.
  intros HW HL. unfold reactable_pass, Extended.reactable_callback.
  unfold Extended.rows_callback, Extended.search_callback,
    Extended.button_callback_1, Extended.button_callback_2,
    Extended.nav_button_callback, Extended.current_button_callback,
    Extended.sort_header_callback, updateStyle, set_style, addEventListener.
  repeat emits_step; apply emits_update; first [apply HW | apply HL].
Qed.

Lemma emits_text_pass `{Browser} (W : Write -> Prop) D c :
  (forall i q v, W (SetStyle i q v)) ->
  (forall i v, W (SetData i v)) ->
  (forall i v, W (AssignStyle i v)) ->
  emits W (text_pass D c).
Proof.
  intros HW HD HA. unfold text_pass, text_callback_with.
  apply emits_updateElements. intros i. apply emits_andThen.
  - apply emits_withElement. intros e. destruct (unset _); [|apply emits_skip].
    intros d. simpl. repeat constructor. apply HD.
  - apply emits_withElement. intros e.
    destruct (originalStyle e); [|apply emits_throw].
    destruct (JSON.parse _); [|apply emits_throw].
    destruct D.
    + apply emits_andThen; apply emits_update, HW.
    + apply emits_withElement. intros e'.
      destruct (JSON.as_snapshot _); [apply emits_update, HA|].
      intros d. simpl. repeat constructor. apply HA.
Qed.

(** ** The image pass *)

Global Instance any_document_preorder : PreOrder (fun _ _ : Document => True).
Proof. by split. Qed.

Global Instance evolves_preorder : PreOrder evolves.
Proof.
  split.
  - intros e. split; [reflexivity|]. split; [by exists []; rewrite app_nil_r|done].
  - intros e1 e2 e3 (Hm1 & [m1 Hl1] & Hp1) (Hm2 & [m2 Hl2] & Hp2).
    split; [by etrans|]. split.
    + exists (m1 ++ m2). by rewrite Hl2, Hl1, app_assoc.
    + intros Hu. rewrite Hp2; [by apply Hp1|]. by rewrite (Hp1 Hu).
Qed.

Global Instance same_src_preorder : PreOrder same_src.
Proof.
  split; [by intros e|]. intros e1 e2 e3 [? ?] [? ?]. split; congruence.
Qed.

Lemma src_writes_to_app i ws ws' :
  src_writes_to i (ws ++ ws') = src_writes_to i ws ++ src_writes_to i ws'.
Proof. apply omap_app. Qed.

Lemma src_writes_to_cons i w ws :
  src_writes_to i (w :: ws) =
  match w with
  | SetSrc j v => if decide (j = i) then v :: src_writes_to i ws else src_writes_to i ws
  | _ => src_writes_to i ws
  end.
Proof. unfold src_writes_to. destruct w; try done. simpl. by destruct (decide _). Qed.

Lemma src_writes_to_none i ws :
  Forall (fun w => is_SetSrc w = false) ws -> src_writes_to i ws = [].
Proof.
  induction 1 as [|w ws Hw _ IH]; [done|]. rewrite src_writes_to_cons, IH.
  by destruct w.
Qed.

Lemma src_writes_to_at i ws :
  src_writes_to i (writes_at i ws) = src_writes_to i ws.
Proof.
  unfold writes_at. induction ws as [|w ws IH]; [done|].
  destruct (decide (write_target w = i)) as [Hw|Hw].
  - rewrite filter_cons_True by done. by rewrite !src_writes_to_cons, IH.
  - rewrite filter_cons_False by done. rewrite src_writes_to_cons, IH.
    destruct w; try done. simpl in Hw. by rewrite decide_False.
Qed.

Lemma matches_sel_img d e : matches d e sel_img = String.eqb (tagName e) "img".
Proof.
  unfold matches, sel_img, matches_complex, matches_compound. simpl.
  by rewrite !andb_true_r, orb_false_r.
Qed.

(** What the image pass does to an image. *)
Lemma img_pass_at L D d i e :
  elements d !! i = Some e -> tagName e = "img" ->
  let new := Str.replace (stale_marker L) (theme_marker D) (src e) in
  elements (final (img_pass L D d)) !! i =
    Some (if String.eqb new (src e) then e else with_src new e) /\
  writes_at i (writes (img_pass L D d)) =
    (if String.eqb new (src e) then [] else [SetSrc i new]).
Proof.
  intros He Ht new. unfold img_pass, updateElements.
  destruct (forEach_at_normal (img_callback L D) (local_at_img_callback L D)
              (fun _ _ => True) (querySelectorAll sel_img d) d i)
    as (dk & _ & Hk & Hf & Hw & _).
  - done.
  - apply querySelectorAll_NoDup.
  - apply elem_of_querySelectorAll. unfold matches_at. rewrite He.
    rewrite matches_sel_img, Ht. done.
  - apply total_forEach. intros j. apply total_img_callback.
  - rewrite Hf, Hw. rewrite He in Hk. unfold img_callback, withElement.
    rewrite Hk. fold (stale_marker L) (theme_marker D). fold new.
    destruct (String.eqb new (src e)); simpl; [done|].
    by rewrite list_lookup_alter_eq, Hk.
Qed.

(** An element that is no image keeps its source in the image pass. *)
Lemma img_pass_other L D d i e :
  elements d !! i = Some e -> tagName e <> "img" ->
  elements (final (img_pass L D d)) !! i = Some e /\
  writes_at i (writes (img_pass L D d)) = [].
Proof.
  intros He Ht. unfold img_pass, updateElements.
  destruct (forEach_notin (img_callback L D) (local_at_img_callback L D)
              (querySelectorAll sel_img d) d i) as [Hf Hw].
  - rewrite elem_of_querySelectorAll. unfold matches_at. rewrite He.
    rewrite matches_sel_img. by destruct (String.eqb_spec (tagName e) "img").
  - by rewrite Hf.
Qed.

(** The image pass writes sources only. *)
Lemma img_pass_preserves_style L D :
  preserves (keeps (fun e e' => same_markup e e' /\ style e = style e' /\
                                 originalStyle e = originalStyle e' /\
                                 listeners e = listeners e'))
    (img_pass L D).
Proof.
  apply img_pass_preserves.
  - split; [by intros e|]. intros e1 e2 e3 (?&?&?&?) (?&?&?&?).
    split; [by etrans|]. repeat split; congruence.
  - intros e v. by repeat split.
Qed.

Section AfterImage.
Context `{Browser}.

(** The passes after the image pass write no source. *)
Lemma later_passes_preserves P `{!PreOrder P} v D :
  (forall e w, P e (with_style (style_write (style e) "color" w) e)) ->
  (forall e w, P e (with_style (style_write (style e) "backgroundColor" w) e)) ->
  (forall e w, P e (with_style (style_write (style e) "borderColor" w) e)) ->
  (forall e w, P e (with_style (style_write (style e) "transition" w) e)) ->
  (forall e t h, P e (with_listener t h e)) ->
  Forall (preserves (keeps P)) (last_passes v D).
Proof.
  intros Hc Hb Hbd Ht Hl. unfold last_passes, table_pass, reactable_pass.
  constructor; [by apply table_pass_preserves|].
  destruct v; constructor; [|constructor].
  by apply reactable_pass_preserves.
Qed.

Lemma after_img_same_src v L D :
  Forall (preserves (keeps same_src)) (tail (pass_list v L D)).
Proof.
  assert (Hst : forall e st, same_src e (with_style st e)) by (by split).
  assert (Hl : forall e t h, same_src e (with_listener t h e)) by (by split).
  assert (Hd : forall e v, same_src e (with_originalStyle v e)) by (by split).
  simpl. unfold svg_pass, rect_pass, text_pass.
  constructor; [apply svg_pass_preserves; [apply _|auto]|].
  constructor; [apply rect_pass_preserves; [apply _|auto]|].
  constructor.
  { apply text_pass_preserves; [apply _|by intros e e' [? ?]|auto..]. }
  apply later_passes_preserves; auto. apply _.
Qed.

Lemma after_img_emits v L D :
  Forall (emits (fun w => is_SetSrc w = false)) (tail (pass_list v L D)).
Proof.
  simpl. constructor; [by apply emits_svg_pass|].
  constructor; [by apply emits_rect_pass|].
  constructor; [by apply emits_text_pass|].
  constructor; [by apply emits_table_pass|].
  destruct v; constructor; [|constructor]. by apply emits_reactable_pass.
Qed.

(** The source of an image after the passes, and the writes to it. *)
Lemma passes_img v L D d i e :
  elements d !! i = Some e -> tagName e = "img" ->
  let new := Str.replace (stale_marker L) (theme_marker D) (src e) in
  let r := passes_of v L D d in
  (exists e', elements (final r) !! i = Some e' /\ src e' = new) /\
  src_writes_to i (writes r) = (if String.eqb new (src e) then [] else [new]).
Proof.
  intros He Ht new r. subst r. rewrite passes_sequence.
  unfold pass_list. rewrite sequence_cons.
  rewrite andThen_normal
    by (apply total_updateElements; intros j; apply total_img_callback).
  simpl final. simpl writes.
  destruct (img_pass_at L D d i e He Ht) as [Hf Hw]. fold new in Hf, Hw.
  set (d1 := final (img_pass L D d)) in *.
  pose proof (sequence_preserves (keeps same_src) _ (after_img_same_src v L D) d1)
    as Hk.
  pose proof (emits_sequence _ _ (after_img_emits v L D) d1) as Hn.
  simpl in Hk, Hn.
  destruct (keeps_lookup _ _ _ _ _ Hk Hf) as (e' & He' & _ & Hsrc).
  split.
  - exists e'. split; [done|]. rewrite <- Hsrc.
    destruct (String.eqb_spec new (src e)); [done|done].
  - rewrite src_writes_to_app, (src_writes_to_none _ _ Hn), app_nil_r.
    rewrite <- src_writes_to_at, Hw.
    destruct (String.eqb new (src e)); [done|].
    unfold src_writes_to. simpl. by rewrite decide_True.
Qed.

End AfterImage.

(** * The claims *)

(** ** C3: without a theme class nothing is touched *)

(** C3.  If the class list of the body holds neither [quarto-light] nor
    [quarto-dark], a call of either version returns at once: the document
    it leaves is the document it got (every source, inline style and
    snapshot record), and it executed no write. *)
Theorem neither_class_is_noop `{Browser} v d b :
  document_body d = Some b ->
  contains "quarto-light" (classList b) = false ->
  contains "quarto-dark" (classList b) = false ->
  run v d = {| final := d; writes := []; completion := Normal |}.
Proof.
  intros Hb HL HD. rewrite run_unfold. unfold isLightMode, isDarkMode.
  by rewrite Hb, HL, HD.
Qed.

Lemma neither_class_is_noop_witness :
  run (H := plain_browser) ExtendedVariant (chart_page ["quarto-sepia"]) =
  {| final := chart_page ["quarto-sepia"]; writes := []; completion := Normal |}.
Proof.
  apply (neither_class_is_noop (H := plain_browser) ExtendedVariant
           (chart_page ["quarto-sepia"]) (node "body" ["quarto-sepia"] None));
    reflexivity.
Defined.

(** ** C4: the source of an image *)

(** C4.  For an [img] element, in either version: in dark mode (dark class
    without the light one) a source that contains [.light] has its first
    [.light] replaced by [.dark], and one without [.light] is kept; in light
    mode the same with the two markers exchanged; a source with neither
    marker is kept whatever the classes; the source is written once when
    the rewritten URL differs from the current one and not at all
    otherwise; and [chart.light.png] becomes [chart.dark.png] in dark
    mode. *)
Theorem image_source_rewrite `{Browser} v d i e :
  elements d !! i = Some e -> tagName e = "img" ->
  exists e',
    elements (final (run v d)) !! i = Some e' /\
    (isDarkMode d = true -> isLightMode d = false ->
       (Str.includes ".light" (src e) = true ->
          exists pre post,
            src e = pre +:+ ".light" +:+ post /\
            Str.includes ".light" pre = false /\
            src e' = pre +:+ ".dark" +:+ post) /\
       (Str.includes ".light" (src e) = false -> src e' = src e)) /\
    (isLightMode d = true -> isDarkMode d = false ->
       (Str.includes ".dark" (src e) = true ->
          exists pre post,
            src e = pre +:+ ".dark" +:+ post /\
            Str.includes ".dark" pre = false /\
            src e' = pre +:+ ".light" +:+ post) /\
       (Str.includes ".dark" (src e) = false -> src e' = src e)) /\
    (Str.includes ".light" (src e) = false ->
     Str.includes ".dark" (src e) = false -> src e' = src e) /\
    src_writes_to i (writes (run v d)) =
      (if String.eqb (src e') (src e) then [] else [src e']) /\
    (isDarkMode d = true -> isLightMode d = false ->
     src e = "chart.light.png" -> src e' = "chart.dark.png").
Proof.
  intros He Ht.
  assert (Hsame : forall r : Result, final r = d -> writes r = [] ->
    exists e', elements (final r) !! i = Some e' /\ src e' = src e /\
               src_writes_to i (writes r) = []).
  { intros r -> ->. exists e. done. }
  assert (Hcases :
    (exists e', elements (final (run v d)) !! i = Some e' /\ src e' = src e /\
                src_writes_to i (writes (run v d)) = [] /\
                isLightMode d || isDarkMode d = false) \/
    (exists e', elements (final (run v d)) !! i = Some e' /\
       src e' = Str.replace (stale_marker (isLightMode d))
                  (theme_marker (isDarkMode d)) (src e) /\
       src_writes_to i (writes (run v d)) =
         (if String.eqb (src e') (src e) then [] else [src e']))).
  { destruct (isLightMode d || isDarkMode d) eqn:Hm.
    - right. rewrite (run_passes v d Hm).
      destruct (passes_img v (isLightMode d) (isDarkMode d) d i e He Ht)
        as [(e' & He' & Hsrc) Hw].
      exists e'. split; [done|]. split; [done|]. by rewrite Hsrc.
    - left. rewrite run_unfold. apply orb_false_iff in Hm as [HL HD].
      rewrite HL, HD. simpl.
      destruct (document_body d); exists e; by rewrite ?HL, ?HD. }
  destruct Hcases as [(e' & He' & Hsrc & Hw & Hm)|(e' & He' & Hsrc & Hw)].
  - apply orb_false_iff in Hm as [HL HD]. exists e'. split; [done|].
    rewrite HL, HD, Hsrc, Hw, String.eqb_refl. done.
  - exists e'. split; [done|]. split; [|split; [|split; [|split]]].
    + intros HD HL. rewrite HD, HL in Hsrc. simpl in Hsrc. split.
      * intros Hin.
        destruct (replace_first ".light" ".dark" (src e))
          as (pre & post & ? & ? & Hr); [done|done|].
        exists pre, post. by rewrite Hsrc, Hr.
      * intros Hout. by rewrite Hsrc, replace_absent.
    + intros HL HD. rewrite HD, HL in Hsrc. simpl in Hsrc. split.
      * intros Hin.
        destruct (replace_first ".dark" ".light" (src e))
          as (pre & post & ? & ? & Hr); [done|done|].
        exists pre, post. by rewrite Hsrc, Hr.
      * intros Hout. by rewrite Hsrc, replace_absent.
    + intros Hl Hd. rewrite Hsrc. apply replace_absent.
      unfold stale_marker. by destruct (isLightMode d).
    + done.
    + intros HD HL Hchart. rewrite HD, HL, Hchart in Hsrc. by rewrite Hsrc.
Qed.

Lemma image_source_rewrite_witness :
  exists e',
    elements (final (run (H := plain_browser) ExtendedVariant
                       (chart_page ["quarto-dark"]))) !! 1 = Some e' /\
    src e' = "chart.dark.png" /\
    src_writes_to 1 (writes (run (H := plain_browser) ExtendedVariant
                               (chart_page ["quarto-dark"]))) = ["chart.dark.png"].
Proof.
  destruct (image_source_rewrite (H := plain_browser) ExtendedVariant
              (chart_page ["quarto-dark"]) 1 (image "chart.light.png"))
    as (e' & He' & _ & _ & _ & Hw & Hchart); [reflexivity..|].
  exists e'. split; [exact He'|].
  assert (Hs : src e' = "chart.dark.png") by (apply Hchart; reflexivity).
  split; [exact Hs|]. rewrite Hw, Hs. reflexivity.
Defined.

(** ** The svg and rect passes *)

Global Instance keeps_style_of_preorder tag prop : PreOrder (keeps_style_of tag prop).
Proof.
  split; [by intros e|]. intros e1 e2 e3 [Ht1 H1] [Ht2 H2]. split; [congruence|].
  intros Ht. rewrite H1 by done. apply H2. congruence.
Qed.



Lemma matches_style_selector d e tag prop :
  matches d e [[[Tag tag; AttrContains "style" prop]]] =
  String.eqb (tagName e) tag &&
  (negb (String.eqb prop "") && Str.includes prop (StyleDecl.cssText (style e))).
Proof.
  unfold matches, matches_complex, matches_compound. simpl.
  by rewrite !andb_true_r, orb_false_r.
Qed.

Section StylePass.
Context (tag prop lv dv : string) (D : bool).

Let pass : Action :=
  updateElements [[[Tag tag; AttrContains "style" prop]]]
    (fun elem => updateStyle D elem prop lv dv).


(** An element with another tag is not touched. *)
Lemma style_pass_other d i e :
  elements d !! i = Some e -> tagName e <> tag ->
  elements (final (pass d)) !! i = Some e.
Proof.
  intros He Ht. unfold pass, updateElements.
  destruct (forEach_notin (fun elem => updateStyle D elem prop lv dv)
              (fun j => local_at_updateStyle D j prop lv dv)
              (querySelectorAll [[[Tag tag; AttrContains "style" prop]]] d) d i)
    as [Hf _].
  - rewrite elem_of_querySelectorAll. unfold matches_at. rewrite He.
    rewrite matches_style_selector.
    by destruct (String.eqb_spec (tagName e) tag).
  - by rewrite Hf.
Qed.

Lemma style_pass_total : total pass.
Proof. apply total_updateElements. intros j. apply total_updateStyle. Qed.

End StylePass.

Section FixedColours.
Context `{Browser}.





End FixedColours.

(** ** C5: the two fixed colours *)



(** ** The text callback *)

Section TextCallback.
Context `{Browser}.

Lemma text_callback_at D c i d e :
  elements d !! i = Some e ->
  let o := text_outcome D c (getComputedStyle d i) i e in
  elements (final (text_callback_with D c i d)) !! i = Some (fst (fst o)) /\
  writes (text_callback_with D c i d) = snd (fst o) /\
  completion (text_callback_with D c i d) = snd o.
Proof.
  intros He. unfold text_callback_with, text_outcome.
  set (snap := getComputedStyle d i).
  assert (Hsave :
    let saved := if unset (originalStyle e)
                 then (with_originalStyle (JSON.stringify snap) e,
                       [SetData i (JSON.stringify snap)])
                 else (e, []) in
    elements (final (save_originalStyle i d)) !! i = Some (fst saved) /\
    writes (save_originalStyle i d) = snd saved /\
    completion (save_originalStyle i d) = Normal).
  { unfold save_originalStyle, withElement. rewrite He.
    destruct (unset (originalStyle e)); simpl; [|done].
    by rewrite list_lookup_alter_eq, He. }
  cbv zeta in Hsave. destruct Hsave as (He1 & Hw1 & Hc1).
  rewrite andThen_normal by done. cbn [final writes completion].
  set (saved := if unset (originalStyle e) then _ else _) in *.
  set (d1 := final (save_originalStyle i d)) in *.
  rewrite Hw1. clearbody d1. clear Hw1 Hc1.
  unfold restyle_text, withElement. rewrite He1.
  destruct (originalStyle (fst saved)) as [payload|]; [|by rewrite app_nil_r].
  destruct (JSON.parse payload) as [v|]; [|by rewrite app_nil_r].
  destruct D.
  - simpl. rewrite !list_lookup_alter_eq, He1. split; [reflexivity|done].
  - unfold Object_assign_style, withElement. rewrite He1.
    destruct (JSON.as_snapshot v); simpl; by rewrite list_lookup_alter_eq, He1.
Qed.

(** The snapshot the callback leaves on its element. *)
Lemma text_outcome_snapshot D c snap i e :
  originalStyle (fst (fst (text_outcome D c snap i e))) =
  if unset (originalStyle e) then Some (JSON.stringify snap) else originalStyle e.
Proof.
  unfold text_outcome. destruct (unset (originalStyle e)) eqn:Hu;
    cbn -[JSON.parse JSON.stringify JSON.as_snapshot JSON.snapshot_value].
  - rewrite parse_stringify. destruct D; [done|]. by rewrite as_snapshot_value.
  - destruct (originalStyle e) as [p|] eqn:Hp; [|done].
    destruct (JSON.parse p) as [v|]; [|done]. destruct D; [done|].
    by destruct (JSON.as_snapshot v).
Qed.

(** An element without a snapshot gets one, and the callback ends. *)
Lemma text_outcome_unset D c snap i e :
  unset (originalStyle e) = true ->
  snd (text_outcome D c snap i e) = Normal /\
  data_writes_to i (snd (fst (text_outcome D c snap i e))) = [JSON.stringify snap].
Proof.
  intros Hu. unfold text_outcome. rewrite Hu.
  cbn -[JSON.parse JSON.stringify JSON.as_snapshot JSON.snapshot_value].
  rewrite parse_stringify.
  unfold data_writes_to. destruct D.
  - simpl. by rewrite decide_True.
  - rewrite as_snapshot_value. simpl. by rewrite decide_True.
Qed.

(** An element with a snapshot has none saved again. *)
Lemma text_outcome_set D c snap i e :
  unset (originalStyle e) = false ->
  data_writes_to i (snd (fst (text_outcome D c snap i e))) = [].
Proof.
  intros Hu. unfold text_outcome. rewrite Hu. simpl.
  destruct (originalStyle e) as [p|]; [|done].
  destruct (JSON.parse p) as [v|]; [|done]. destruct D; [done|].
  by destruct (JSON.as_snapshot v).
Qed.

(** A snapshot that does not parse makes the callback throw. *)
Lemma text_outcome_corrupt D c snap i e payload :
  originalStyle e = Some payload -> payload <> "" -> JSON.parse payload = None ->
  snd (text_outcome D c snap i e) = Throw SyntaxError.
Proof.
  intros Hp Hne Hparse. unfold text_outcome. rewrite Hp. simpl.
  destruct (String.eqb_spec payload ""); [done|]. simpl. by rewrite Hp, Hparse.
Qed.

(** In dark mode the callback throws a [SyntaxError] or nothing. *)
Lemma text_outcome_dark c snap i e :
  snd (text_outcome true c snap i e) = Normal \/
  snd (text_outcome true c snap i e) = Throw SyntaxError.
Proof.
  unfold text_outcome. destruct (originalStyle (fst _)); [|by right].
  destruct (JSON.parse _); [by left|by right].
Qed.

End TextCallback.

(** ** What a whole call preserves *)

Section WholeCall.
Context `{Browser}.

Lemma pass_list_preserves P `{!PreOrder P} v L D :
  (forall e e', P e e' -> tagName e = tagName e') ->
  (forall e w, P e (with_src w e)) ->
  (forall e st, P e (with_style st e)) ->
  (forall e t h, P e (with_listener t h e)) ->
  (forall e w, unset (originalStyle e) = true -> P e (with_originalStyle w e)) ->
  Forall (preserves (keeps P)) (pass_list v L D).
Proof.
  intros Htag Hsrc Hst Hl Hd. unfold pass_list, img_pass, svg_pass, rect_pass, text_pass.
  constructor; [by apply img_pass_preserves|].
  constructor; [apply svg_pass_preserves; [apply _|auto]|].
  constructor; [apply rect_pass_preserves; [apply _|auto]|].
  constructor; [apply text_pass_preserves; [apply _|auto..]|].
  apply later_passes_preserves; auto.
Qed.

Lemma run_preserves P `{!PreOrder P} v :
  (forall e e', P e e' -> tagName e = tagName e') ->
  (forall e w, P e (with_src w e)) ->
  (forall e st, P e (with_style st e)) ->
  (forall e t h, P e (with_listener t h e)) ->
  (forall e w, unset (originalStyle e) = true -> P e (with_originalStyle w e)) ->
  preserves (keeps P) (run v).
Proof.
  intros Htag Hsrc Hst Hl Hd d. rewrite run_unfold.
  destruct (document_body d); [|reflexivity].
  destruct (negb _ && negb _); [reflexivity|].
  rewrite passes_sequence. apply sequence_preserves; [apply _|].
  by apply pass_list_preserves.
Qed.

Lemma evolves_permits :
  (forall e e', evolves e e' -> tagName e = tagName e') /\
  (forall e w, evolves e (with_src w e)) /\
  (forall e st, evolves e (with_style st e)) /\
  (forall e t h, evolves e (with_listener t h e)) /\
  (forall e w, unset (originalStyle e) = true -> evolves e (with_originalStyle w e)).
Proof.
  split; [by intros e e' ((?&?&?)&_)|].
  split; [intros e w; split; [done|]; split; [by exists []; rewrite app_nil_r|done]|].
  split; [intros e w; split; [done|]; split; [by exists []; rewrite app_nil_r|done]|].
  split.
  - intros e t h. split; [done|]. split; [by exists [(t, h)]|done].
  - intros e w Hu. split; [done|]. split; [by exists []; rewrite app_nil_r|].
    by rewrite Hu.
Qed.

(** A call keeps the markup, the listeners and the saved snapshots. *)
Lemma run_evolves v : preserves (keeps evolves) (run v).
Proof.
  destruct evolves_permits as (?&?&?&?&?). apply run_preserves; auto. apply _.
Qed.

Lemma pass_list_evolves v L D : Forall (preserves (keeps evolves)) (pass_list v L D).
Proof.
  destruct evolves_permits as (?&?&?&?&?). apply pass_list_preserves; auto.
  apply _.
Qed.

Lemma before_text_evolves L D : preserves (keeps evolves) (before_text L D).
Proof.
  pose proof (pass_list_evolves BasicVariant L D) as Hall.
  unfold pass_list in Hall.
  apply Forall_cons in Hall as [H1 Hall]. apply Forall_cons in Hall as [H2 Hall].
  apply Forall_cons in Hall as [H3 _].
  unfold before_text. repeat apply preserves_andThen; try apply _; done.
Qed.

(** The passes, with the passes before the text pass apart. *)
Lemma passes_split v L D d :
  passes_of v L D d =
  (before_text L D
   >> (text_pass D (dark_text_color v) >> sequence (last_passes v D))) d.
Proof.
  rewrite passes_sequence. unfold pass_list, before_text. rewrite !sequence_cons.
  fold (img_pass L D) (svg_pass D) (rect_pass D).
  rewrite !andThen_assoc.
  apply andThen_ext; [done|]. intros d1.
  apply andThen_ext; [done|]. intros d2. done.
Qed.

(** The passes before the text pass leave an element that is no image,
    svg or rect as it is. *)
Lemma before_text_other L D d i e :
  elements d !! i = Some e ->
  tagName e <> "img" -> tagName e <> "svg" -> tagName e <> "rect" ->
  elements (final (before_text L D d)) !! i = Some e.
Proof.
  intros He H1 H2 H3. unfold before_text.
  rewrite andThen_normal.
  2:{ apply total_andThen; [|apply style_pass_total].
      apply total_updateElements. intros j. apply total_img_callback. }
  cbn [final]. rewrite andThen_normal
    by (apply total_updateElements; intros j; apply total_img_callback).
  cbn [final].
  destruct (img_pass_other L D d i e He H1) as [He1 _].
  unfold img_pass in He1.
  pose proof (style_pass_other "svg" "background" light_colour dark_colour D _ i e He1 H2)
    as He2.
  by apply (style_pass_other "rect" "fill" light_colour dark_colour D _ i e He2 H3).
Qed.

Lemma text_tag_other e :
  text_tag e -> tagName e <> "img" /\ tagName e <> "svg" /\ tagName e <> "rect".
Proof. intros [Ht|Ht]; rewrite Ht; done. Qed.

End WholeCall.

(** ** The text pass and the saved snapshot *)

Lemma data_writes_to_cons i w ws :
  data_writes_to i (w :: ws) =
  match w with
  | SetData j v => if decide (j = i) then v :: data_writes_to i ws else data_writes_to i ws
  | _ => data_writes_to i ws
  end.
Proof. unfold data_writes_to. destruct w; try done. simpl. by destruct (decide _). Qed.

Lemma data_writes_to_app i ws ws' :
  data_writes_to i (ws ++ ws') = data_writes_to i ws ++ data_writes_to i ws'.
Proof. apply omap_app. Qed.

Lemma data_writes_to_none i ws :
  Forall (fun w => is_SetData w = false) ws -> data_writes_to i ws = [].
Proof.
  induction 1 as [|w ws Hw _ IH]; [done|]. rewrite data_writes_to_cons, IH.
  by destruct w.
Qed.

Lemma data_writes_to_at i ws :
  data_writes_to i (writes_at i ws) = data_writes_to i ws.
Proof.
  unfold writes_at. induction ws as [|w ws IH]; [done|].
  destruct (decide (write_target w = i)) as [Hw|Hw].
  - rewrite filter_cons_True by done. by rewrite !data_writes_to_cons, IH.
  - rewrite filter_cons_False by done. rewrite data_writes_to_cons, IH.
    destruct w; try done. simpl in Hw. by rewrite decide_False.
Qed.

Lemma emits_img_pass (W : Write -> Prop) L D :
  (forall i v, W (SetSrc i v)) -> emits W (img_pass L D).
Proof.
  intros HW. unfold img_pass, img_callback, set_src.
  repeat emits_step; apply emits_update, HW.
Qed.

Lemma emits_before_text (W : Write -> Prop) L D :
  (forall i v, W (SetSrc i v)) -> (forall i q v, W (SetStyle i q v)) ->
  emits W (before_text L D).
Proof.
  intros HS HW. unfold before_text. repeat apply emits_andThen.
  - by apply emits_img_pass.
  - by apply emits_svg_pass.
  - by apply emits_rect_pass.
Qed.

Lemma emits_last_passes (W : Write -> Prop) v D :
  (forall i q w, W (SetStyle i q w)) -> (forall i t h, W (AddListener i t h)) ->
  emits W (sequence (last_passes v D)).
Proof.
  intros HW HL. apply emits_sequence. unfold last_passes.
  constructor; [by apply emits_table_pass|].
  destruct v; constructor; [|constructor]. by apply emits_reactable_pass.
Qed.

Section TextPass.
Context `{Browser}.

(** What the text pass did to an element the text selector matches: the
    loop stopped before it, or its callback ran on a document in which the
    element was as before the pass. *)
Lemma text_pass_at D c d i e :
  elements d !! i = Some e -> matches d e sel_text = true ->
  let r := text_pass D c d in
  (elements (final r) !! i = Some e /\ writes_at i (writes r) = [] /\
   completion r <> Normal)
  \/
  (exists dk,
     elements dk !! i = Some e /\
     let o := text_outcome D c (getComputedStyle dk i) i e in
     elements (final r) !! i = Some (fst (fst o)) /\
     writes_at i (writes r) = snd (fst o) /\
     (completion r = Normal -> snd o = Normal)).
Proof.
  intros He Hm r. subst r. unfold text_pass, updateElements.
  destruct (forEach_at (text_callback_with D c) (local_at_text_callback D c)
              (fun _ _ => True) (querySelectorAll sel_text d) d i)
    as [(Hf & Hw & Hn)|(dk & _ & Hk & Hf & Hw & Hn)].
  - done.
  - apply querySelectorAll_NoDup.
  - apply elem_of_querySelectorAll. unfold matches_at. by rewrite He.
  - left. by rewrite Hf.
  - right. exists dk. rewrite He in Hk. split; [done|].
    destruct (text_callback_at D c i dk e Hk) as (Ho1 & Ho2 & Ho3).
    cbv zeta. rewrite Hf, Hw. split; [done|]. split; [done|].
    intros Hc. rewrite <- Ho3. by apply Hn.
Qed.

(** An element the text selector does not match is not touched. *)
Lemma text_pass_other D c d i e :
  elements d !! i = Some e -> matches d e sel_text = false ->
  elements (final (text_pass D c d)) !! i = Some e /\
  writes_at i (writes (text_pass D c d)) = [].
Proof.
  intros He Hm. unfold text_pass, updateElements.
  destruct (forEach_notin (text_callback_with D c) (local_at_text_callback D c)
              (querySelectorAll sel_text d) d i) as [Hf Hw].
  - rewrite elem_of_querySelectorAll. unfold matches_at. by rewrite He, Hm.
  - by rewrite Hf.
Qed.

(** The snapshot of an element after the text pass, and the snapshots
    saved on it. *)
Lemma text_pass_snapshot D c d i e :
  elements d !! i = Some e ->
  let r := text_pass D c d in
  exists e',
    elements (final r) !! i = Some e' /\
    ((originalStyle e' = originalStyle e /\ data_writes_to i (writes r) = [] /\
      (unset (originalStyle e) = true -> matches d e sel_text = true ->
       completion r <> Normal))
     \/
     (unset (originalStyle e) = true /\ matches d e sel_text = true /\
      exists dk,
        elements dk !! i = Some e /\
        originalStyle e' = Some (JSON.stringify (getComputedStyle dk i)) /\
        data_writes_to i (writes r) = [JSON.stringify (getComputedStyle dk i)])).
Proof.
  intros He r. subst r. destruct (matches d e sel_text) eqn:Hm.
  - destruct (text_pass_at D c d i e He Hm)
      as [(Hf & Hw & Hn)|(dk & Hk & Hf & Hw & Hn)].
    + exists e. split; [done|]. left. split; [done|].
      by rewrite <- data_writes_to_at, Hw.
    + eexists. split; [exact Hf|].
      rewrite <- data_writes_to_at, Hw, text_outcome_snapshot.
      destruct (unset (originalStyle e)) eqn:Hu.
      * right. split; [done|]. split; [done|]. exists dk. split; [done|].
        split; [done|]. by apply text_outcome_unset.
      * left. split; [done|]. split; [by apply text_outcome_set|done].
  - destruct (text_pass_other D c d i e He Hm) as [Hf Hw].
    exists e. split; [done|]. left. split; [done|].
    by rewrite <- data_writes_to_at, Hw.
Qed.

End TextPass.

(** ** The snapshot over a whole call *)

Global Instance same_snapshot_preorder : PreOrder same_snapshot.
Proof.
  split; [by intros e|]. intros e1 e2 e3 [? ?] [? ?]. split; congruence.
Qed.

Global Instance keeps_snapshot_preorder : PreOrder keeps_snapshot.
Proof.
  split; [by intros e|]. intros e1 e2 e3 H1 H2 Hu. unfold keeps_snapshot in *.
  rewrite H2; [by apply H1|]. by rewrite (H1 Hu).
Qed.

Lemma total_last_passes v D : total (sequence (last_passes v D)).
Proof.
  apply sequence_total. unfold last_passes.
  constructor; [apply total_table_pass|].
  destruct v; constructor; [|constructor]. apply total_reactable_pass.
Qed.

Lemma before_text_same_snapshot L D :
  preserves (keeps same_snapshot) (before_text L D).
Proof.
  unfold before_text. repeat apply preserves_andThen; try apply _.
  - apply img_pass_preserves; [apply _|by split].
  - apply svg_pass_preserves; [apply _|by split].
  - apply rect_pass_preserves; [apply _|by split].
Qed.

Lemma last_passes_same_snapshot v D :
  preserves (keeps same_snapshot) (sequence (last_passes v D)).
Proof.
  apply sequence_preserves; [apply _|].
  apply later_passes_preserves; [apply _|by split..].
Qed.

Section Snapshot.
Context `{Browser}.

Lemma before_text_matches L D d i :
  matches_at (final (before_text L D d)) sel_text i = matches_at d sel_text i.
Proof.
  symmetry. apply matches_at_markup; [done|].
  eapply keeps_impl; [|apply before_text_evolves]. by intros e e' [? _].
Qed.

Lemma passes_snapshot v L D d i e :
  elements d !! i = Some e ->
  let r := passes_of v L D d in
  exists e',
    elements (final r) !! i = Some e' /\
    ((originalStyle e' = originalStyle e /\ data_writes_to i (writes r) = [] /\
      (unset (originalStyle e) = true -> matches d e sel_text = true ->
       completion r <> Normal))
     \/
     (unset (originalStyle e) = true /\ matches d e sel_text = true /\
      exists dk,
        elements dk !! i = Some e /\
        originalStyle e' = Some (JSON.stringify (getComputedStyle dk i)) /\
        data_writes_to i (writes r) = [JSON.stringify (getComputedStyle dk i)])).
Proof.
  intros He r. subst r. rewrite passes_split.
  rewrite andThen_normal by apply total_before_text.
  cbn [final writes completion].
  pose proof (emits_before_text (fun w => is_SetData w = false) L D
                ltac:(done) ltac:(done) d) as Hwb.
  rewrite data_writes_to_app, (data_writes_to_none _ _ Hwb), app_nil_l.
  pose proof (before_text_matches L D d i) as Hmatch.
  destruct (keeps_lookup _ _ _ _ _ (before_text_same_snapshot L D d) He)
    as (e3 & He3 & Htag3 & Hsnap3).
  unfold matches_at in Hmatch. rewrite He, He3 in Hmatch.
  set (d3 := final (before_text L D d)) in *.
  set (c := dark_text_color v).
  destruct (text_pass_snapshot D c d3 i e3 He3) as (e4 & He4 & Hcases).
  pose proof (emits_last_passes (fun w => is_SetData w = false) v D
                ltac:(done) ltac:(done)) as Hwl.
  assert (Hfinal : exists e',
    elements (final ((text_pass D c >> sequence (last_passes v D)) d3)) !! i = Some e' /\
    originalStyle e' = originalStyle e4 /\
    data_writes_to i (writes ((text_pass D c >> sequence (last_passes v D)) d3)) =
      data_writes_to i (writes (text_pass D c d3)) /\
    (completion (text_pass D c d3) <> Normal ->
     completion ((text_pass D c >> sequence (last_passes v D)) d3) <> Normal)).
  { destruct (completion (text_pass D c d3)) as [|x] eqn:Hc.
    - rewrite andThen_normal by done. cbn [final writes completion].
      destruct (keeps_lookup _ _ _ _ _
                  (last_passes_same_snapshot v D (final (text_pass D c d3))) He4)
        as (e5 & He5 & _ & Hsnap5).
      exists e5. split; [done|]. split; [done|]. split; [|done].
      by rewrite data_writes_to_app, (data_writes_to_none _ _ (Hwl _)), app_nil_r.
    - rewrite (andThen_throw _ _ _ x) by done. exists e4. by rewrite Hc. }
  destruct Hfinal as (e' & He' & Hsnap' & Hw' & Hcompl).
  exists e'. split; [done|]. rewrite Hw', Hsnap', <- Hmatch.
  destruct Hcases as [(Hs & Hw & Hn)|(Hu & Hm & dk & Hk & Hs & Hw)].
  - left. rewrite Hs, <- Hsnap3. split; [done|]. split; [done|].
    intros Hu Hm. apply Hcompl, Hn; [by rewrite <- Hsnap3|done].
  - right. rewrite Hsnap3. split; [done|]. split; [done|]. exists dk.
    split; [|done]. rewrite Hk. f_equal.
    apply matches_sel_text, text_tag_other in Hm as (H1 & H2 & H3).
    rewrite <- Htag3 in H1, H2, H3.
    pose proof (before_text_other L D d i e He H1 H2 H3) as He3'.
    fold d3 in He3'. congruence.
Qed.
End Snapshot.

(** ** C6: the snapshot is taken once *)

Section SnapshotOnce.
Context `{Browser}.

Lemma run_keeps_snapshot v : preserves (keeps keeps_snapshot) (run v).
Proof.
  intros d. eapply keeps_impl; [|apply run_evolves]. by intros e e' (_ & _ & ?).
Qed.

Lemma set_body_classes_keeps_snapshot cl d :
  keeps keeps_snapshot d (set_body_classes cl d).
Proof.
  unfold set_body_classes. destruct (body d); [|reflexivity].
  apply keeps_alter; [apply _|]. by intros e _.
Qed.

Lemma session_keeps_snapshot v themes d :
  keeps keeps_snapshot d (session v themes d).
Proof.
  revert d. induction themes as [|cl themes IH]; intros d; [reflexivity|].
  simpl. etrans; [apply (set_body_classes_keeps_snapshot cl)|].
  etrans; [apply run_keeps_snapshot|]. apply IH.
Qed.

Lemma run_snapshot v d i e :
  elements d !! i = Some e ->
  let r := run v d in
  exists e',
    elements (final r) !! i = Some e' /\
    ((originalStyle e' = originalStyle e /\ data_writes_to i (writes r) = [] /\
      (unset (originalStyle e) = true -> matches d e sel_text = true ->
       isLightMode d || isDarkMode d = true -> completion r <> Normal))
     \/
     (unset (originalStyle e) = true /\ matches d e sel_text = true /\
      exists dk,
        elements dk !! i = Some e /\
        originalStyle e' = Some (JSON.stringify (getComputedStyle dk i)) /\
        data_writes_to i (writes r) = [JSON.stringify (getComputedStyle dk i)])).
Proof.
  intros He r. subst r. destruct (isLightMode d || isDarkMode d) eqn:Hm.
  - rewrite (run_passes v d Hm).
    destruct (passes_snapshot v (isLightMode d) (isDarkMode d) d i e He)
      as (e' & He' & [(H1 & H2 & H3)|Hc]).
    + exists e'. split; [done|]. left. auto.
    + exists e'. split; [done|]. by right.
  - rewrite run_unfold. apply orb_false_iff in Hm as [-> ->]. simpl.
    exists e. destruct (document_body d); (split; [done|]); left; done.
Qed.

End SnapshotOnce.

(** C6.  In either version, for an element of the document: (1) when it
    already has a non-empty snapshot record, a call leaves the record as it
    is and saves none, and so does any series of calls with any theme
    switches between them; (2) when it has none, a call saves at most one:
    either none is saved, or exactly one is, and it is the computed style
    of a document in which the element is still as it was before the call,
    that is before any write of that call to it; (3) when the text
    selector matches it and the call ends normally with a theme class on the
    body, the snapshot is saved. *)
Theorem snapshot_saved_once `{Browser} v d i e :
  elements d !! i = Some e ->
  (unset (originalStyle e) = false ->
   (exists e', elements (final (run v d)) !! i = Some e' /\
               originalStyle e' = originalStyle e) /\
   data_writes_to i (writes (run v d)) = [] /\
   (forall themes,
      exists e', elements (session v themes d) !! i = Some e' /\
                 originalStyle e' = originalStyle e)) /\
  (unset (originalStyle e) = true ->
   exists e',
     elements (final (run v d)) !! i = Some e' /\
     ((originalStyle e' = originalStyle e /\
       data_writes_to i (writes (run v d)) = [])
      \/
      (exists dk,
         elements dk !! i = Some e /\
         originalStyle e' = Some (JSON.stringify (getComputedStyle dk i)) /\
         data_writes_to i (writes (run v d)) =
           [JSON.stringify (getComputedStyle dk i)]))) /\
  (unset (originalStyle e) = true -> matches d e sel_text = true ->
   isLightMode d || isDarkMode d = true -> completion (run v d) = Normal ->
   exists e' dk,
     elements (final (run v d)) !! i = Some e' /\
     elements dk !! i = Some e /\
     originalStyle e' = Some (JSON.stringify (getComputedStyle dk i)) /\
     unset (originalStyle e') = false).
Proof.
  intros He. destruct (run_snapshot v d i e He) as (e' & He' & Hcases).
  split; [|split].
  - intros Hu. split; [|split].
    + destruct (keeps_lookup _ _ _ _ _ (run_keeps_snapshot v d) He) as (e2 & He2 & Hk).
      exists e2. split; [done|]. by apply Hk.
    + destruct Hcases as [(_ & Hw & _)|(Hu' & _)]; [done|congruence].
    + intros themes.
      destruct (keeps_lookup _ _ _ _ _ (session_keeps_snapshot v themes d) He)
        as (e2 & He2 & Hk).
      exists e2. split; [done|]. by apply Hk.
  - intros Hu. exists e'. split; [done|].
    destruct Hcases as [(Hs & Hw & _)|(_ & _ & dk & Hk & Hs & Hw)].
    + by left.
    + right. by exists dk.
  - intros Hu Hm Hmode Hc.
    destruct Hcases as [(_ & _ & Hn)|(_ & _ & dk & Hk & Hs & Hw)].
    + by destruct (Hn Hu Hm Hmode).
    + exists e', dk. split; [done|]. split; [done|]. split; [done|].
      by rewrite Hs.
Qed.

Lemma snapshot_saved_once_witness :
  exists e' dk,
    elements (final (run (H := plain_browser) ExtendedVariant
                       (legend_page ["quarto-dark"]))) !! 2 = Some e' /\
    elements dk !! 2 = Some (node "text" ["legendtext"] (Some 1)) /\
    originalStyle e' =
      Some (JSON.stringify (getComputedStyle (Browser := plain_browser) dk 2)) /\
    unset (originalStyle e') = false.
Proof.
  destruct (snapshot_saved_once (H := plain_browser) ExtendedVariant
              (legend_page ["quarto-dark"]) 2 (node "text" ["legendtext"] (Some 1)))
    as (_ & _ & Hsaved); [reflexivity|].
  apply Hsaved; reflexivity.
Defined.

(** ** C7: decoding the saved snapshot *)

(** A loop ends when each callback ends on an element that satisfies [Q],
    and all elements of the list do. *)
Lemma forEach_total_where (f : nat -> Action) (Q : Element -> Prop) l d :
  (forall j, local_at j (f j)) ->
  (forall i d e, elements d !! i = Some e -> Q e -> completion (f i d) = Normal) ->
  NoDup l ->
  (forall i, i ∈ l -> exists e, elements d !! i = Some e /\ Q e) ->
  completion (forEach l f d) = Normal.
Proof.
  intros Hlocal Hf. revert d. induction l as [|i l IH]; intros d Hnd Hl; [done|].
  apply NoDup_cons in Hnd as [Hil Hnd]. simpl.
  destruct (Hl i) as (e & He & HQ); [left|].
  rewrite andThen_normal by eauto. cbn [completion]. apply IH; [done|].
  intros j Hj. destruct (Hl j) as (ej & Hej & HQj); [by right|].
  exists ej. split; [|done].
  rewrite (local_at_lookup i (f i)); [done|apply Hlocal|]. intros ->. done.
Qed.

(** A loop throws nothing its callbacks do not throw. *)
Lemma forEach_completion (C : Completion -> Prop) (f : nat -> Action) l d :
  C Normal -> (forall i d, C (completion (f i d))) ->
  C (completion (forEach l f d)).
Proof.
  intros HN Hf. revert d. induction l as [|i l IH]; intros d; [done|].
  simpl. unfold andThen. destruct (completion (f i d)) eqn:Hc.
  - apply IH.
  - first [apply Hf | rewrite <- Hc; apply Hf].
Qed.

Section Decoding.
Context `{Browser}.

Lemma text_callback_dark_completion c i d :
  completion (text_callback_with true c i d) = Normal \/
  completion (text_callback_with true c i d) = Throw SyntaxError.
Proof.
  destruct (elements d !! i) as [e|] eqn:He.
  - destruct (text_callback_at true c i d e He) as (_ & _ & ->).
    apply text_outcome_dark.
  - left. unfold text_callback_with, andThen, save_originalStyle, restyle_text,
      withElement.
    rewrite He. simpl. by rewrite He.
Qed.

(** The completion of the passes is the completion of the text pass. *)
Lemma passes_completion v L D d :
  completion (passes_of v L D d) =
  completion (text_pass D (dark_text_color v) (final (before_text L D d))).
Proof.
  rewrite passes_split, andThen_normal by apply total_before_text.
  cbn [completion]. unfold andThen.
  destruct (completion (text_pass D _ _)) eqn:Hc; [|done].
  cbn [completion]. apply total_last_passes.
Qed.

Lemma before_text_lookup L D d i e :
  elements d !! i = Some e ->
  exists e3,
    elements (final (before_text L D d)) !! i = Some e3 /\
    originalStyle e3 = originalStyle e /\
    matches (final (before_text L D d)) e3 sel_text = matches d e sel_text.
Proof.
  intros He.
  destruct (keeps_lookup _ _ _ _ _ (before_text_same_snapshot L D d) He)
    as (e3 & He3 & _ & Hs).
  exists e3. split; [done|]. split; [done|].
  pose proof (before_text_matches L D d i) as Hm. unfold matches_at in Hm.
  by rewrite He, He3 in Hm.
Qed.

Lemma passes_corrupt v L D d i e payload :
  elements d !! i = Some e -> matches d e sel_text = true ->
  originalStyle e = Some payload -> payload <> "" -> JSON.parse payload = None ->
  completion (passes_of v L D d) <> Normal.
Proof.
  intros He Hm Hp Hne Hparse. rewrite passes_completion.
  destruct (before_text_lookup L D d i e He) as (e3 & He3 & Hs3 & Hm3).
  rewrite Hm in Hm3. rewrite Hp in Hs3.
  destruct (text_pass_at D (dark_text_color v) _ i e3 He3 Hm3)
    as [(_ & _ & Hn)|(dk & Hk & _ & _ & Hn)]; [done|].
  intros Hc. specialize (Hn Hc).
  by rewrite (text_outcome_corrupt D _ _ i e3 payload) in Hn.
Qed.

Lemma passes_without_snapshots v L D d :
  (forall i e, elements d !! i = Some e -> matches d e sel_text = true ->
               unset (originalStyle e) = true) ->
  completion (passes_of v L D d) = Normal.
Proof.
  intros Hall. rewrite passes_completion. unfold text_pass, updateElements.
  apply (forEach_total_where _ (fun e => unset (originalStyle e) = true)).
  - apply local_at_text_callback.
  - intros i d' e He Hu.
    destruct (text_callback_at D (dark_text_color v) i d' e He) as (_ & _ & ->).
    by apply text_outcome_unset.
  - apply querySelectorAll_NoDup.
  - intros i Hi. apply elem_of_querySelectorAll, matches_at_lookup in Hi.
    destruct Hi as (e3 & He3 & Hm3). exists e3. split; [done|].
    destruct (keeps_lookup_r _ _ _ _ _ (before_text_same_snapshot L D d) He3)
      as (e & He & _ & Hs).
    destruct (before_text_lookup L D d i e He) as (e3' & He3' & _ & Hm).
    assert (e3' = e3) as -> by congruence.
    rewrite <- Hs. apply (Hall i e He). by rewrite <- Hm.
Qed.

End Decoding.

(** C7, as the code has it.  Decoding is unguarded for a snapshot that is
    there: when the text selector matches an element whose saved snapshot
    is not empty and does not parse, every call of either version with a
    theme class on the body ends by throwing, the exception is the
    completion of the call (nothing catches it), and in dark mode it is a
    [SyntaxError].  An absent or empty snapshot is never decoded: the
    routine saves one first, so a call on a document whose matched elements
    carry none ends normally. *)
Theorem corrupt_snapshot_throws `{Browser} v d :
  isLightMode d || isDarkMode d = true ->
  (forall i e payload,
     elements d !! i = Some e -> matches d e sel_text = true ->
     originalStyle e = Some payload -> payload <> "" ->
     JSON.parse payload = None ->
     (exists x, completion (run v d) = Throw x) /\
     (isDarkMode d = true -> completion (run v d) = Throw SyntaxError)) /\
  ((forall i e, elements d !! i = Some e -> matches d e sel_text = true ->
                unset (originalStyle e) = true) ->
   completion (run v d) = Normal).
Proof.
  intros Hmode. rewrite (run_passes v d Hmode). split.
  - intros i e payload He Hm Hp Hne Hparse.
    pose proof (passes_corrupt v (isLightMode d) (isDarkMode d) d i e payload
                  He Hm Hp Hne Hparse) as Hn.
    split.
    + destruct (completion (passes_of v _ _ d)) as [|x]; [done|]. by exists x.
    + intros HD. rewrite HD in *. rewrite passes_completion in *.
      unfold text_pass, updateElements in *.
      pose proof (forEach_completion
                    (fun c => c = Normal \/ c = Throw SyntaxError)
                    (text_callback_with true (dark_text_color v))
                    (querySelectorAll sel_text (final (before_text (isLightMode d) true d)))
                    (final (before_text (isLightMode d) true d))
                    ltac:(by left)
                    (text_callback_dark_completion (dark_text_color v)))
        as [Hc|Hc]; [done|done].
  - apply passes_without_snapshots.
Qed.

Lemma corrupt_snapshot_throws_witness :
  completion (run (H := plain_browser) ExtendedVariant
                (corrupt_legend_page ["quarto-dark"])) = Throw SyntaxError.
Proof.
  destruct (corrupt_snapshot_throws (H := plain_browser) ExtendedVariant
              (corrupt_legend_page ["quarto-dark"])) as [Hthrows _]; [reflexivity|].
  apply (Hthrows 2 (with_originalStyle "{oops" (node "text" ["legendtext"] (Some 1)))
           "{oops"); try reflexivity.
  discriminate.
Defined.

(** C7, as stated, fails for an absent snapshot: the text of the legend
    has none, the text selector matches it, dark mode is on, and the call
    ends normally. *)
Lemma absent_snapshot_does_not_throw :
  originalStyle (node "text" ["legendtext"] (Some 1)) = None /\
  matches_at (legend_page ["quarto-dark"]) sel_text 2 = true /\
  isDarkMode (legend_page ["quarto-dark"]) = true /\
  completion (run (H := plain_browser) ExtendedVariant (legend_page ["quarto-dark"]))
  = Normal.
Proof. repeat split; reflexivity. Qed.

(** ** The passes after the text pass and the restored style *)

Global Instance keeps_restored_preorder : PreOrder keeps_restored.
Proof.
  split; [by intros e|]. intros e1 e2 e3 [Ht1 H1] [Ht2 H2]. split; [congruence|].
  intros p Hp. rewrite H1 by done. by apply H2.
Qed.

Global Instance keeps_color_preorder : PreOrder keeps_color.
Proof.
  split; [by intros e|]. intros e1 e2 e3 [Hm1 H1] [Hm2 H2].
  split; [by etrans|congruence].
Qed.

Global Instance keeps_color_at_preorder i : PreOrder (keeps_color_at i).
Proof.
  split.
  - intros d. split; [reflexivity|]. intros _ e e' He He'. congruence.
  - intros d1 d2 d3 [Hm1 H1] [Hm2 H2]. split; [by etrans|].
    intros Hun e e3 He He3.
    destruct (keeps_lookup _ _ _ _ _ Hm1 He) as (e2 & He2 & _).
    rewrite (H1 Hun e e2 He He2). apply H2; [|done..].
    by rewrite <- (matches_at_markup sel_color_writers d1 d2 i eq_refl Hm1).
Qed.

Lemma matches_app d e s1 s2 :
  matches d e (s1 ++ s2) = matches d e s1 || matches d e s2.
Proof. apply existsb_app. Qed.

Lemma local_at_search_callback D i : local_at i (Extended.search_callback D i).
Proof.
  unfold Extended.search_callback.
  destruct D; repeat apply local_at_andThen; apply local_at_set_style.
Qed.

Lemma local_at_nav_button_callback D i : local_at i (Extended.nav_button_callback D i).
Proof. unfold Extended.nav_button_callback. destruct D; apply local_at_set_style. Qed.

Lemma local_at_current_button_callback D i :
  local_at i (Extended.current_button_callback D i).
Proof.
  unfold Extended.current_button_callback.
  destruct D; repeat apply local_at_andThen; apply local_at_set_style.
Qed.

Lemma local_at_sort_header_callback D i : local_at i (Extended.sort_header_callback D i).
Proof. unfold Extended.sort_header_callback. destruct D; apply local_at_set_style. Qed.

Lemma local_at_rows_callback D i : local_at i (Extended.rows_callback D i).
Proof. apply local_at_updateStyle. Qed.

(** Every callback keeps the markup. *)
Lemma same_markup_permits :
  (forall e w, same_markup e (with_src w e)) /\
  (forall e st, same_markup e (with_style st e)) /\
  (forall e t h, same_markup e (with_listener t h e)) /\
  (forall e w, same_markup e (with_originalStyle w e)).
Proof. by repeat split. Qed.

(** A pass whose selector is one of the colour writers keeps the colour
    of an element none of them matches. *)
Lemma pass_keeps_color_at i sel f :
  (forall d e, matches d e sel = true -> matches d e sel_color_writers = true) ->
  (forall j, local_at j (f j)) ->
  preserves (keeps same_markup) (updateElements sel f) ->
  preserves (keeps_color_at i) (updateElements sel f).
Proof.
  intros Hsel Hlocal Hm d. split; [apply Hm|].
  intros Hun e e' He He'. unfold updateElements in He'.
  destruct (forEach_notin f Hlocal (querySelectorAll sel d) d i) as [Hf _].
  - rewrite elem_of_querySelectorAll. unfold matches_at in *. rewrite He in *.
    destruct (matches d e sel) eqn:E; [|done]. by rewrite (Hsel d e E) in Hun.
  - rewrite Hf, He in He'. by injection He' as <-.
Qed.

(** A pass that writes no colour keeps it. *)
Lemma pass_keeps_color_at_all i (a : Action) :
  preserves (keeps keeps_color) a -> preserves (keeps_color_at i) a.
Proof.
  intros Ha d. specialize (Ha d). split.
  - eapply keeps_impl; [|done]. by intros e e' [? _].
  - intros _ e e' He He'.
    destruct (keeps_lookup _ _ _ _ _ Ha He) as (e2 & He2 & _ & Hc). congruence.
Qed.

Lemma table_pass_keeps_color_at i D : preserves (keeps_color_at i) (table_pass D).
Proof.
  apply pass_keeps_color_at.
  - intros d e Hm. unfold sel_color_writers. by rewrite matches_app, Hm.
  - intros j. apply local_at_table_callback.
  - destruct same_markup_permits as (_ & Hst & _).
    apply table_pass_preserves; [apply _|]. intros e w. apply Hst.
Qed.

Lemma reactable_pass_keeps_color_at i D :
  preserves (keeps_color_at i) (reactable_pass D).
Proof.
  destruct same_markup_permits as (_ & Hst & Hl & _).
  assert (Hw : forall q e w, same_markup e (with_style (style_write (style e) q w) e))
    by (intros q e w; apply Hst).
  assert (Hk : forall q, css_name q <> "color" ->
            forall e w, keeps_color e (with_style (style_write (style e) q w) e)).
  { intros q Hq e w. split; [done|]. simpl. by rewrite style_read_write_ne. }
  assert (Hkl : forall e t h, keeps_color e (with_listener t h e)) by (by split).
  unfold reactable_pass. apply preserves_updateElements; [apply _|]. intros k.
  unfold Extended.reactable_callback.
  repeat (apply preserves_andThen; [apply _| |]).
  - apply pass_keeps_color_at.
    + intros d e Hm. unfold sel_color_writers. rewrite !matches_app, Hm.
      by rewrite ?orb_true_r.
    + intros j. apply local_at_rows_callback.
    + apply preserves_updateElements; [apply _|]. intros j.
      apply preserves_updateStyle; [apply _|apply Hw].
  - apply pass_keeps_color_at.
    + intros d e Hm. unfold sel_color_writers. rewrite !matches_app, Hm.
      by rewrite ?orb_true_r.
    + intros j. apply local_at_search_callback.
    + apply preserves_updateElements; [apply _|]. intros j.
      unfold Extended.search_callback.
      destruct D; repeat (apply preserves_andThen; [apply _| |]);
        (apply preserves_set_style; [apply _|apply Hw]).
  - apply pass_keeps_color_at_all.
    apply preserves_updateElements; [apply _|]. intros j.
    unfold Extended.button_callback_1. destruct D; [|apply preserves_skip; apply _].
    repeat (apply preserves_andThen; [apply _| |]);
      first [ apply preserves_set_style; [apply _|apply Hk; vm_compute; discriminate]
            | apply preserves_addEventListener; [apply _|apply Hkl] ].
  - apply pass_keeps_color_at_all.
    apply preserves_updateElements; [apply _|]. intros j.
    unfold Extended.button_callback_2.
    destruct D;
      [|apply preserves_set_style; [apply _|apply Hk; vm_compute; discriminate]].
    repeat (apply preserves_andThen; [apply _| |]);
      first [ apply preserves_set_style; [apply _|apply Hk; vm_compute; discriminate]
            | apply preserves_addEventListener; [apply _|apply Hkl] ].
  - apply pass_keeps_color_at.
    + intros d e Hm. unfold sel_color_writers. rewrite !matches_app, Hm.
      by rewrite ?orb_true_r.
    + intros j. apply local_at_nav_button_callback.
    + apply preserves_updateElements; [apply _|]. intros j.
      unfold Extended.nav_button_callback. destruct D; (apply preserves_set_style; [apply _|apply Hw]).
  - apply pass_keeps_color_at.
    + intros d e Hm. unfold sel_color_writers. rewrite !matches_app, Hm.
      by rewrite ?orb_true_r.
    + intros j. apply local_at_current_button_callback.
    + apply preserves_updateElements; [apply _|]. intros j.
      unfold Extended.current_button_callback.
      destruct D; repeat (apply preserves_andThen; [apply _| |]);
        (apply preserves_set_style; [apply _|apply Hw]).
  - apply pass_keeps_color_at.
    + intros d e Hm. unfold sel_color_writers. rewrite !matches_app, Hm.
      by rewrite ?orb_true_r.
    + intros j. apply local_at_sort_header_callback.
    + apply preserves_updateElements; [apply _|]. intros j.
      unfold Extended.sort_header_callback. destruct D; (apply preserves_set_style; [apply _|apply Hw]).
Qed.

Lemma last_passes_keeps_color_at i v D :
  preserves (keeps_color_at i) (sequence (last_passes v D)).
Proof.
  apply sequence_preserves; [apply _|]. unfold last_passes.
  constructor; [apply table_pass_keeps_color_at|].
  destruct v; constructor; [|constructor]. apply reactable_pass_keeps_color_at.
Qed.

Lemma last_passes_keeps_restored v D :
  preserves (keeps keeps_restored) (sequence (last_passes v D)).
Proof.
  assert (Hk : forall q,
            ~ In (css_name q) (map css_name
                ["fill"; "fontSize"; "fontWeight"; "fontFamily"; "textDecoration"]) ->
            forall e w, keeps_restored e (with_style (style_write (style e) q w) e)).
  { intros q Hq e w. split; [done|]. intros p Hp. simpl style.
    rewrite style_read_write_ne; [done|]. intros E. apply Hq. rewrite E.
    by apply in_map. }
  apply sequence_preserves; [apply _|].
  apply later_passes_preserves; [apply _|..|by split];
    apply Hk; vm_compute; intuition discriminate.
Qed.

(** ** Restoring the snapshot in light mode *)

Section Restore.
Context `{Browser}.


Lemma text_pass_evolves D c : preserves (keeps evolves) (text_pass D c).
Proof.
  destruct evolves_permits as (Ht & _ & Hst & _ & Hd).
  unfold text_pass. apply text_pass_preserves; [apply _|auto..].
Qed.


End Restore.

(** ** Theme switches *)

Global Instance same_for_preorder sel : PreOrder (same_for sel).
Proof.
  split.
  - intros e. split; [done|]. by apply Forall_forall.
  - intros e1 e2 e3 [Hp1 H1] [Hp2 H2]. split; [congruence|].
    rewrite Forall_forall in *. intros c Hc. rewrite H1 by done. by apply H2.
Qed.


Lemma has_body_keeps d d' : keeps same_markup d d' -> has_body d -> has_body d'.
Proof.
  intros Hk (b & be & Hb & Hbe & Ht).
  destruct (keeps_lookup _ _ _ _ _ Hk Hbe) as (be' & Hbe' & Htag & _).
  exists b, be'. destruct Hk as [<- _]. rewrite <- Htag. auto.
Qed.


(** ** C2: light, dark, light *)

Section RoundTrip.
Context `{Browser}.


End RoundTrip.




(** ** C9: both theme classes *)

Lemma writes_at_In i w ws : In w (writes_at i ws) -> In w ws.
Proof.
  unfold writes_at. rewrite <- !list_elem_of_In, list_elem_of_filter. tauto.
Qed.


Section BothClasses.
Context `{Browser}.


Lemma text_outcome_dark_normal c snap i e :
  snd (text_outcome true c snap i e) = Normal ->
  style_read (style (fst (fst (text_outcome true c snap i e)))) "fill" = "white" /\
  In (SetStyle i "fill" "white") (snd (fst (text_outcome true c snap i e))) /\
  In (SetStyle i "color" c) (snd (fst (text_outcome true c snap i e))).
Proof.
  unfold text_outcome.
  destruct (originalStyle (fst _)) as [p|]; [|done].
  destruct (JSON.parse p); [|done]. intros _. cbn [fst snd style with_style].
  split; [by rewrite style_read_write_ne, style_read_write_eq|].
  rewrite !in_app_iff. simpl. tauto.
Qed.

(** The fill of a matched text element after the passes in dark mode,
    and the two writes of the dark branch. *)
Lemma passes_text_dark v L d i e :
  elements d !! i = Some e -> matches d e sel_text = true ->
  completion (passes_of v L true d) = Normal ->
  (exists e', elements (final (passes_of v L true d)) !! i = Some e' /\
              style_read (style e') "fill" = "white") /\
  In (SetStyle i "fill" "white") (writes (passes_of v L true d)) /\
  In (SetStyle i "color" (dark_text_color v)) (writes (passes_of v L true d)).
Proof.
  intros He Hm. rewrite passes_split.
  rewrite andThen_normal by apply total_before_text.
  cbn [final completion writes]. intros Hc.
  apply andThen_completes in Hc as [Hct _].
  pose proof (matches_sel_text d e Hm) as Htag.
  destruct (text_tag_other e Htag) as (H1 & H2 & H3).
  pose proof (before_text_other L true d i e He H1 H2 H3) as He3.
  pose proof (before_text_matches L true d i) as Hm3.
  unfold matches_at in Hm3. rewrite He, He3, Hm in Hm3.
  set (d3 := final (before_text L true d)) in *.
  set (c := dark_text_color v) in *.
  destruct (text_pass_at true c d3 i e He3 Hm3)
    as [(_ & _ & Hn)|(dk & Hk & Hf & Hw & Hn)]; [done|].
  destruct (text_outcome_dark_normal c _ i e (Hn Hct)) as (Hfill & Hw1 & Hw2).
  rewrite andThen_normal by done. cbn [final writes].
  destruct (keeps_lookup _ _ _ _ _
              (last_passes_keeps_restored v true (final (text_pass true c d3))) Hf)
    as (e' & He' & _ & Hfive).
  split.
  - exists e'. split; [done|]. rewrite <- Hfive by (simpl; tauto). done.
  - rewrite <- Hw in Hw1, Hw2. apply writes_at_In in Hw1, Hw2.
    rewrite !in_app_iff. tauto.
Qed.



End BothClasses.



(** ** The reactable pass and the listeners *)

Global Instance same_listeners_preorder : PreOrder same_listeners.
Proof.
  split; [by intros e|]. intros e1 e2 e3 [Hm1 H1] [Hm2 H2].
  split; [by etrans|congruence].
Qed.

Global Instance same_transition_preorder : PreOrder same_transition.
Proof.
  split; [by intros e|]. intros e1 e2 e3 (Hm1 & H1 & T1) (Hm2 & H2 & T2).
  split; [by etrans|]. split; congruence.
Qed.

Lemma reactable_callback_split D k d :
  Extended.reactable_callback D k d =
  (reactable_head D >> (button_pass_1 D >> (button_pass_2 D >> reactable_tail D))) d.
Proof.
  unfold Extended.reactable_callback, reactable_head, reactable_tail,
    button_pass_1, button_pass_2.
  by rewrite !andThen_assoc.
Qed.

Lemma total_reactable_head D : total (reactable_head D).
Proof.
  unfold reactable_head. apply total_andThen; apply total_updateElements; intros i.
  - apply total_updateStyle.
  - unfold Extended.search_callback.
    destruct D; repeat apply total_andThen; apply total_update.
Qed.

Lemma total_button_pass_1 D : total (button_pass_1 D).
Proof.
  apply total_updateElements. intros i. unfold Extended.button_callback_1.
  destruct D; [|apply total_skip]. repeat apply total_andThen; apply total_update.
Qed.

Lemma total_button_pass_2 D : total (button_pass_2 D).
Proof.
  apply total_updateElements. intros i. unfold Extended.button_callback_2.
  destruct D; [|apply total_update]. repeat apply total_andThen; apply total_update.
Qed.

Section Recolouring.
Context (P : Element -> Element -> Prop) `{!PreOrder P}.
Context (Hcolor : forall e w, P e (with_style (style_write (style e) "color" w) e)).
Context (Hbg : forall e w,
           P e (with_style (style_write (style e) "backgroundColor" w) e)).
Context (Hborder : forall e w,
           P e (with_style (style_write (style e) "borderColor" w) e)).

(** The inner passes around the registration blocks write colours only. *)
Lemma reactable_head_preserves D : preserves (keeps P) (reactable_head D).
Proof.
  unfold reactable_head. apply preserves_andThen; [apply _| |];
    (apply preserves_updateElements; [apply _|]; intros i).
  - by apply preserves_updateStyle.
  - unfold Extended.search_callback.
    destruct D; repeat (apply preserves_andThen; [apply _| |]);
      by apply preserves_set_style.
Qed.

Lemma reactable_tail_preserves D : preserves (keeps P) (reactable_tail D).
Proof.
  unfold reactable_tail. repeat (apply preserves_andThen; [apply _| |]);
    (apply preserves_updateElements; [apply _|]; intros i).
  - unfold Extended.nav_button_callback. destruct D; by apply preserves_set_style.
  - unfold Extended.current_button_callback.
    destruct D; repeat (apply preserves_andThen; [apply _| |]);
      by apply preserves_set_style.
  - unfold Extended.sort_header_callback. destruct D; by apply preserves_set_style.
Qed.

End Recolouring.

Lemma same_listeners_style e st : same_listeners e (with_style st e).
Proof. by split. Qed.

Lemma same_transition_style e q w :
  css_name q <> "transition" ->
  same_transition e (with_style (style_write (style e) q w) e).
Proof.
  intros Hq. split; [done|]. split; [done|]. simpl.
  by rewrite style_read_write_ne.
Qed.

(** The first registration block on a pagination button, in dark mode. *)
Lemma button_pass_1_at d i e :
  elements d !! i = Some e -> matches d e sel_rt_pagination_button = true ->
  exists e',
    elements (final (button_pass_1 true d)) !! i = Some e' /\
    same_markup e e' /\
    listeners e' =
      listeners e ++ [("click", ResetAllLater); ("mouseenter", HoverOn);
                      ("mouseleave", HoverOff)].
Proof.
  intros He Hm. unfold button_pass_1, updateElements.
  destruct (forEach_at_normal (Extended.button_callback_1 true)
              (local_at_button_callback_1 true) (fun _ _ => True)
              (querySelectorAll sel_rt_pagination_button d) d i)
    as (dk & _ & Hk & Hf & _ & _).
  - done.
  - apply querySelectorAll_NoDup.
  - apply elem_of_querySelectorAll. unfold matches_at. by rewrite He.
  - apply total_button_pass_1.
  - rewrite Hf. rewrite He in Hk. unfold Extended.button_callback_1.
    unfold andThen. simpl. rewrite !list_lookup_alter_eq, Hk. simpl.
    eexists. split; [done|]. split; [done|]. simpl.
    by rewrite <- !app_assoc.
Qed.

(** The second registration block on a pagination button, in dark mode. *)
Lemma button_pass_2_at d i e :
  elements d !! i = Some e -> matches d e sel_rt_pagination_button = true ->
  exists e',
    elements (final (button_pass_2 true d)) !! i = Some e' /\
    same_markup e e' /\
    listeners e' =
      listeners e ++ [("mouseenter", HoverOn); ("mouseleave", HoverOff);
                      ("mousedown", PressOn); ("mouseup", PressOff)].
Proof.
  intros He Hm. unfold button_pass_2, updateElements.
  destruct (forEach_at_normal (Extended.button_callback_2 true)
              (local_at_button_callback_2 true) (fun _ _ => True)
              (querySelectorAll sel_rt_pagination_button d) d i)
    as (dk & _ & Hk & Hf & _ & _).
  - done.
  - apply querySelectorAll_NoDup.
  - apply elem_of_querySelectorAll. unfold matches_at. by rewrite He.
  - apply total_button_pass_2.
  - rewrite Hf. rewrite He in Hk. unfold Extended.button_callback_2.
    unfold andThen. simpl. rewrite !list_lookup_alter_eq, Hk. simpl.
    eexists. split; [done|]. split; [done|]. simpl.
    by rewrite <- !app_assoc.
Qed.

(** A pass of the routine keeps what the selector of the pagination
    buttons reads. *)
Lemma matches_button_markup d d' i e e' :
  keeps same_markup d d' ->
  elements d !! i = Some e -> elements d' !! i = Some e' ->
  matches d' e' sel_rt_pagination_button = matches d e sel_rt_pagination_button.
Proof.
  intros Hk He He'.
  pose proof (matches_at_markup sel_rt_pagination_button d d' i eq_refl Hk) as Hm.
  unfold matches_at in Hm. by rewrite He, He' in Hm.
Qed.

Lemma button_passes_preserves P `{!PreOrder P} D :
  (forall e w, P e (with_style (style_write (style e) "transition" w) e)) ->
  (forall e t h, P e (with_listener t h e)) ->
  preserves (keeps P) (button_pass_1 D) /\ preserves (keeps P) (button_pass_2 D).
Proof.
  intros Ht Hl. split; (apply preserves_updateElements; [apply _|]; intros i).
  - unfold Extended.button_callback_1. destruct D; [|apply preserves_skip; apply _].
    repeat (apply preserves_andThen; [apply _| |]);
      first [by apply preserves_set_style | by apply preserves_addEventListener].
  - unfold Extended.button_callback_2. destruct D; [|by apply preserves_set_style].
    repeat (apply preserves_andThen; [apply _| |]);
      first [by apply preserves_set_style | by apply preserves_addEventListener].
Qed.

Lemma reactable_callback_same_markup D k :
  preserves (keeps same_markup) (Extended.reactable_callback D k).
Proof.
  destruct same_markup_permits as (_ & Hst & Hl & _).
  assert (Hw : forall q e w, same_markup e (with_style (style_write (style e) q w) e))
    by (intros q e w; apply Hst).
  intros d. rewrite reactable_callback_split.
  destruct (button_passes_preserves same_markup D (Hw _) Hl) as [Hb1 Hb2].
  assert (Hall : preserves (keeps same_markup)
            (reactable_head D
             >> (button_pass_1 D >> (button_pass_2 D >> reactable_tail D)))).
  { apply preserves_andThen; [apply _| |].
    { apply reactable_head_preserves; [apply _|apply Hw..]. }
    apply preserves_andThen; [apply _|done|].
    apply preserves_andThen; [apply _|done|].
    apply reactable_tail_preserves; [apply _|apply Hw..]. }
  apply Hall.
Qed.

(** One run of the reactable callback in dark mode adds the seven
    listeners to a pagination button. *)
Lemma reactable_callback_dark_at k d i e :
  elements d !! i = Some e -> matches d e sel_rt_pagination_button = true ->
  exists e',
    elements (final (Extended.reactable_callback true k d)) !! i = Some e' /\
    listeners e' = listeners e ++ seven_listeners.
Proof.
  intros He Hm. rewrite reactable_callback_split.
  assert (Hhead : preserves (keeps same_listeners) (reactable_head true)).
  { apply reactable_head_preserves; [apply _|intros; apply same_listeners_style..]. }
  assert (Htail : preserves (keeps same_listeners) (reactable_tail true)).
  { apply reactable_tail_preserves; [apply _|intros; apply same_listeners_style..]. }
  rewrite andThen_normal by apply total_reactable_head. cbn [final].
  destruct (keeps_lookup _ _ _ _ _ (Hhead d) He) as (e1 & He1 & Hmk1 & Hl1).
  assert (Hm1 : matches (final (reactable_head true d)) e1
                  sel_rt_pagination_button = true).
  { rewrite (matches_button_markup d _ i e e1); [done| |done..].
    apply (keeps_impl same_listeners); [by intros ?? [? _]|apply Hhead]. }
  set (d1 := final (reactable_head true d)) in *. clearbody d1.
  rewrite andThen_normal by apply total_button_pass_1. cbn [final].
  destruct (button_pass_1_at d1 i e1 He1 Hm1) as (e2 & He2 & Hmk2 & Hl2).
  assert (Hm2 : matches (final (button_pass_1 true d1)) e2
                  sel_rt_pagination_button = true).
  { rewrite (matches_button_markup d1 _ i e1 e2); [done| |done..].
    destruct same_markup_permits as (_ & Hst & Hl & _).
    apply (button_passes_preserves same_markup true); [intros; apply Hst|done]. }
  set (d2 := final (button_pass_1 true d1)) in *. clearbody d2.
  rewrite andThen_normal by apply total_button_pass_2. cbn [final].
  destruct (button_pass_2_at d2 i e2 He2 Hm2) as (e3 & He3 & Hmk3 & Hl3).
  destruct (keeps_lookup _ _ _ _ _ (Htail (final (button_pass_2 true d2))) He3)
    as (e4 & He4 & _ & Hl4).
  exists e4. split; [done|].
  rewrite <- Hl4, Hl3, Hl2, <- Hl1, <- app_assoc. done.
Qed.

(** ** Listeners over a whole call *)

Lemma reactable_loop_dark_at l d i e :
  elements d !! i = Some e -> matches d e sel_rt_pagination_button = true ->
  exists e',
    elements (final (forEach l (Extended.reactable_callback true) d)) !! i = Some e' /\
    listeners e' = listeners e ++ concat (replicate (length l) seven_listeners).
Proof.
  revert d e. induction l as [|k l IH]; intros d e He Hm.
  - exists e. split; [done|]. simpl. by rewrite app_nil_r.
  - simpl forEach. rewrite andThen_normal by apply total_reactable_callback.
    cbn [final].
    destruct (reactable_callback_dark_at k d i e He Hm) as (e1 & He1 & Hl1).
    assert (Hm1 : matches (final (Extended.reactable_callback true k d)) e1
                    sel_rt_pagination_button = true).
    { rewrite (matches_button_markup d _ i e e1); [done| |done..].
      apply reactable_callback_same_markup. }
    destruct (IH _ e1 He1 Hm1) as (e' & He' & Hl').
    exists e'. split; [done|]. rewrite Hl', Hl1. simpl.
    by rewrite <- !app_assoc.
Qed.

Section Listeners.
Context `{Browser}.

Lemma common_passes_same_listeners L D c :
  preserves (keeps same_listeners) (common_passes L D c).
Proof.
  unfold common_passes, before_text.
  repeat (apply preserves_andThen; [apply _| |]).
  - apply img_pass_preserves; [apply _|by split].
  - apply svg_pass_preserves; [apply _|by split].
  - apply rect_pass_preserves; [apply _|by split].
  - apply text_pass_preserves; [apply _|by intros ?? [[? _] _]|by split..].
  - apply table_pass_preserves; [apply _|by split].
Qed.

(** A dark call of the extended version that ends adds the seven listeners
    once per reactable element. *)
Lemma extended_passes_dark_listeners L d i e :
  elements d !! i = Some e -> matches d e sel_rt_pagination_button = true ->
  completion (Extended.passes L true d) = Normal ->
  exists e',
    elements (final (Extended.passes L true d)) !! i = Some e' /\
    listeners e' =
      listeners e ++
      concat (replicate (length (querySelectorAll sel_reactable d)) seven_listeners).
Proof.
  intros He Hm. rewrite extended_passes_common. intros Hc.
  apply andThen_completes in Hc as [Hc _].
  rewrite andThen_normal by done. cbn [final].
  pose proof (common_passes_same_listeners L true "rgb(204,193,183)" d) as Hk.
  destruct (keeps_lookup _ _ _ _ _ Hk He) as (e1 & He1 & Hmk & Hl).
  assert (Hk' : keeps same_markup d (final (common_passes L true "rgb(204,193,183)" d))).
  { apply (keeps_impl same_listeners); [by intros ?? [? _]|done]. }
  rewrite (querySelectorAll_markup sel_reactable _ _ eq_refl Hk').
  unfold updateElements.
  destruct (reactable_loop_dark_at
              (querySelectorAll sel_reactable
                 (final (common_passes L true "rgb(204,193,183)" d)))
              _ i e1 He1) as (e' & He' & Hl').
  - by rewrite (matches_button_markup d _ i e e1).
  - exists e'. split; [done|]. by rewrite Hl', Hl.
Qed.

End Listeners.

(** ** The reactable pass in light mode *)

Lemma button_passes_light_preserves P `{!PreOrder P} :
  (forall e w, P e (with_style (style_write (style e) "transition" w) e)) ->
  preserves (keeps P) (button_pass_1 false) /\
  preserves (keeps P) (button_pass_2 false).
Proof.
  intros Ht. split; (apply preserves_updateElements; [apply _|]; intros i).
  - apply preserves_skip. apply _.
  - by apply preserves_set_style.
Qed.

(** In light mode no pass registers a listener. *)
Lemma reactable_callback_light_listeners k :
  preserves (keeps same_listeners) (Extended.reactable_callback false k).
Proof.
  intros d. rewrite reactable_callback_split.
  destruct (button_passes_light_preserves same_listeners
              ltac:(intros; apply same_listeners_style)) as [Hb1 Hb2].
  assert (Hall : preserves (keeps same_listeners)
            (reactable_head false
             >> (button_pass_1 false >> (button_pass_2 false >> reactable_tail false)))).
  { apply preserves_andThen; [apply _| |].
    { apply reactable_head_preserves; [apply _|intros; apply same_listeners_style..]. }
    apply preserves_andThen; [apply _|done|].
    apply preserves_andThen; [apply _|done|].
    apply reactable_tail_preserves; [apply _|intros; apply same_listeners_style..]. }
  apply Hall.
Qed.

(** The second block in light mode clears the transition of a pagination
    button. *)
Lemma button_pass_2_light_at d i e :
  elements d !! i = Some e -> matches d e sel_rt_pagination_button = true ->
  exists e',
    elements (final (button_pass_2 false d)) !! i = Some e' /\
    style_read (style e') "transition" = "".
Proof.
  intros He Hm. unfold button_pass_2, updateElements.
  destruct (forEach_at_normal (Extended.button_callback_2 false)
              (local_at_button_callback_2 false) (fun _ _ => True)
              (querySelectorAll sel_rt_pagination_button d) d i)
    as (dk & _ & Hk & Hf & _ & _).
  - done.
  - apply querySelectorAll_NoDup.
  - apply elem_of_querySelectorAll. unfold matches_at. by rewrite He.
  - apply total_button_pass_2.
  - rewrite Hf. rewrite He in Hk. unfold Extended.button_callback_2. simpl.
    rewrite list_lookup_alter_eq, Hk. simpl. eexists. split; [done|].
    simpl. apply style_read_write_eq.
Qed.

Lemma reactable_callback_light_at k d i e :
  elements d !! i = Some e -> matches d e sel_rt_pagination_button = true ->
  exists e',
    elements (final (Extended.reactable_callback false k d)) !! i = Some e' /\
    style_read (style e') "transition" = "".
Proof.
  intros He Hm. rewrite reactable_callback_split.
  destruct same_markup_permits as (_ & Hst & _).
  assert (Hhead : preserves (keeps same_markup) (reactable_head false)).
  { apply reactable_head_preserves; [apply _|intros; apply Hst..]. }
  assert (Htail : preserves (keeps same_transition) (reactable_tail false)).
  { apply reactable_tail_preserves; [apply _|..];
      intros; apply same_transition_style; vm_compute; discriminate. }
  rewrite andThen_normal by apply total_reactable_head. cbn [final].
  destruct (keeps_lookup _ _ _ _ _ (Hhead d) He) as (e1 & He1 & _).
  pose proof (matches_button_markup d _ i e e1 (Hhead d) He He1) as Hm1.
  rewrite Hm in Hm1.
  set (d1 := final (reactable_head false d)) in *. clearbody d1.
  rewrite andThen_normal by apply total_button_pass_1. cbn [final].
  destruct (button_passes_light_preserves same_markup
              ltac:(intros; apply Hst)) as [Hb1 _].
  destruct (keeps_lookup _ _ _ _ _ (Hb1 d1) He1) as (e2 & He2 & _).
  pose proof (matches_button_markup d1 _ i e1 e2 (Hb1 d1) He1 He2) as Hm2.
  rewrite Hm1 in Hm2.
  set (d2 := final (button_pass_1 false d1)) in *. clearbody d2.
  rewrite andThen_normal by apply total_button_pass_2. cbn [final].
  destruct (button_pass_2_light_at d2 i e2 He2 Hm2) as (e3 & He3 & Ht3).
  destruct (keeps_lookup _ _ _ _ _ (Htail (final (button_pass_2 false d2))) He3)
    as (e4 & He4 & _ & _ & Ht4).
  exists e4. split; [done|]. by rewrite <- Ht4.
Qed.

Lemma reactable_loop_light_at l d i e :
  l <> [] ->
  elements d !! i = Some e -> matches d e sel_rt_pagination_button = true ->
  exists e',
    elements (final (forEach l (Extended.reactable_callback false) d)) !! i = Some e' /\
    style_read (style e') "transition" = "".
Proof.
  revert d e. induction l as [|k l IH]; intros d e Hne He Hm; [done|].
  simpl forEach. rewrite andThen_normal by apply total_reactable_callback.
  cbn [final].
  destruct (reactable_callback_light_at k d i e He Hm) as (e1 & He1 & Ht1).
  destruct l as [|k' l]; [by exists e1|].
  apply (IH _ e1); [done|done|].
  rewrite (matches_button_markup d _ i e e1); [done| |done..].
  apply reactable_callback_same_markup.
Qed.

Section LightListeners.
Context `{Browser}.

(** A call in light mode registers no listener. *)
Lemma passes_light_listeners v L :
  preserves (keeps same_listeners) (passes_of v L false).
Proof.
  intros d. destruct v; simpl.
  - rewrite basic_passes_common. apply common_passes_same_listeners.
  - rewrite extended_passes_common.
    apply preserves_andThen; [apply _|apply common_passes_same_listeners|].
    apply preserves_updateElements; [apply _|]. intros k.
    apply reactable_callback_light_listeners.
Qed.

(** A call of the extended version in light mode that ends clears the
    transition of a pagination button of a document with a reactable. *)
Lemma extended_passes_light_transition L d i e :
  elements d !! i = Some e -> matches d e sel_rt_pagination_button = true ->
  querySelectorAll sel_reactable d <> [] ->
  completion (Extended.passes L false d) = Normal ->
  exists e',
    elements (final (Extended.passes L false d)) !! i = Some e' /\
    style_read (style e') "transition" = "".
Proof.
  intros He Hm HR. rewrite extended_passes_common. intros Hc.
  apply andThen_completes in Hc as [Hc _].
  rewrite andThen_normal by done. cbn [final].
  pose proof (common_passes_same_listeners L false "rgb(204,193,183)" d) as Hk.
  destruct (keeps_lookup _ _ _ _ _ Hk He) as (e1 & He1 & _).
  assert (Hk' : keeps same_markup d (final (common_passes L false "rgb(204,193,183)" d))).
  { apply (keeps_impl same_listeners); [by intros ?? [? _]|done]. }
  rewrite (querySelectorAll_markup sel_reactable _ _ eq_refl Hk') in HR.
  unfold updateElements.
  apply (reactable_loop_light_at _ _ i e1); [done|done|].
  by rewrite (matches_button_markup d _ i e e1).
Qed.

End LightListeners.

(** ** Call after call in dark mode *)

Lemma document_body_keeps d d' :
  keeps same_markup d d' ->
  classList <$> document_body d' = classList <$> document_body d.
Proof.
  intros Hk. unfold document_body. destruct Hk as [Hb Hk]. rewrite <- Hb.
  destruct (body d) as [b|]; [|done].
  destruct (elements d !! b) as [be|] eqn:Hbe.
  - destruct (Forall2_lookup_l _ _ _ _ _ Hk Hbe) as (be' & -> & Ht & Hc & _).
    rewrite <- Ht. destruct (_ || _); [|done]. simpl. by rewrite Hc.
  - destruct (elements d' !! b) as [be'|] eqn:Hbe'; [|done].
    destruct (Forall2_lookup_r _ _ _ _ _ Hk Hbe') as (be & Hbe2 & _). congruence.
Qed.

Lemma modes_keep d d' :
  keeps same_markup d d' ->
  isLightMode d' = isLightMode d /\ isDarkMode d' = isDarkMode d.
Proof.
  intros Hk. pose proof (document_body_keeps d d' Hk) as Hb.
  unfold isLightMode, isDarkMode.
  destruct (document_body d), (document_body d'); simpl in Hb; try done.
  injection Hb as ->. done.
Qed.

Section Again.
Context `{Browser}.

Lemma run_same_markup v d : keeps same_markup d (final (run v d)).
Proof. apply (keeps_impl evolves); [by intros ?? [? _]|apply run_evolves]. Qed.

Lemma text_outcome_dark_decodable c snap i e :
  snd (text_outcome true c snap i e) = Normal ->
  decodable (fst (fst (text_outcome true c snap i e))).
Proof.
  unfold text_outcome, decodable.
  destruct (unset (originalStyle e)) eqn:Hu;
    cbn -[JSON.parse JSON.stringify JSON.as_snapshot JSON.snapshot_value].
  - rewrite parse_stringify. intros _. eexists _, _.
    split; [reflexivity|]. split; [exact (stringify_set snap)|apply parse_stringify].
  - destruct (originalStyle e) as [p|] eqn:Hp; [|done].
    destruct (JSON.parse p) as [v|] eqn:Hparse; [|done].
    intros _. exists p, v. cbn [fst snd]. rewrite ?Hp. done.
Qed.

Lemma text_outcome_decodable_dark c snap i e :
  decodable e -> snd (text_outcome true c snap i e) = Normal.
Proof.
  intros (p & v & Hp & Hu & Hparse). unfold text_outcome.
  rewrite Hp, Hu. simpl. by rewrite Hp, Hparse.
Qed.

(** After a dark call that ended, every matched text element has a
    snapshot that parses. *)
Lemma passes_dark_decodable v L d i e :
  elements d !! i = Some e -> matches d e sel_text = true ->
  completion (passes_of v L true d) = Normal ->
  exists e', elements (final (passes_of v L true d)) !! i = Some e' /\ decodable e'.
Proof.
  intros He Hm. rewrite passes_split.
  rewrite andThen_normal by apply total_before_text.
  cbn [final completion]. intros Hc.
  apply andThen_completes in Hc as [Hct _].
  destruct (before_text_lookup L true d i e He) as (e3 & He3 & _ & Hm3).
  rewrite Hm in Hm3.
  set (d3 := final (before_text L true d)) in *.
  destruct (text_pass_at true (dark_text_color v) d3 i e3 He3 Hm3)
    as [(_ & _ & Hn)|(dk & Hk & Hf & _ & Hn)]; [done|].
  pose proof (text_outcome_dark_decodable _ _ i e3 (Hn Hct)) as Hdec.
  rewrite andThen_normal by done. cbn [final].
  destruct (keeps_lookup _ _ _ _ _ (last_passes_same_snapshot v true _) Hf)
    as (e' & He' & _ & Hs).
  exists e'. split; [done|]. destruct Hdec as (p & w & Hp & Hu & Hparse).
  exists p, w. by rewrite <- Hs.
Qed.

(** A dark call on a document whose matched text elements all have a
    snapshot that parses ends normally. *)
Lemma passes_decodable_normal v L d :
  (forall i e, elements d !! i = Some e -> matches d e sel_text = true ->
               decodable e) ->
  completion (passes_of v L true d) = Normal.
Proof.
  intros Hall. rewrite passes_completion. unfold text_pass, updateElements.
  apply (forEach_total_where _ decodable).
  - apply local_at_text_callback.
  - intros i d' e He Hd.
    destruct (text_callback_at true (dark_text_color v) i d' e He) as (_ & _ & ->).
    by apply text_outcome_decodable_dark.
  - apply querySelectorAll_NoDup.
  - intros i Hi. apply elem_of_querySelectorAll, matches_at_lookup in Hi.
    destruct Hi as (e3 & He3 & Hm3). exists e3. split; [done|].
    destruct (keeps_lookup_r _ _ _ _ _ (before_text_same_snapshot L true d) He3)
      as (e & He & _ & Hs).
    destruct (before_text_lookup L true d i e He) as (e3' & He3' & _ & Hm).
    assert (e3' = e3) as -> by congruence.
    destruct (Hall i e He) as (p & w & Hp & Hu & Hparse); [by rewrite <- Hm|].
    exists p, w. by rewrite <- Hs.
Qed.

(** A dark call that ended is followed by one that ends. *)
Lemma dark_call_again v d :
  isDarkMode d = true -> completion (run v d) = Normal ->
  isDarkMode (final (run v d)) = true /\
  completion (run v (final (run v d))) = Normal.
Proof.
  intros HD Hc.
  destruct (modes_keep _ _ (run_same_markup v d)) as [HL' HD'].
  rewrite HD in HD'. split; [done|].
  rewrite (run_passes v (final (run v d))) by (rewrite HD'; apply orb_true_r).
  rewrite HD'. apply passes_decodable_normal. intros i e' He' Hm'.
  destruct (keeps_lookup_r _ _ _ _ _ (run_same_markup v d) He') as (e & He & _).
  pose proof (matches_at_markup sel_text _ _ i eq_refl (run_same_markup v d)) as Hmm.
  unfold matches_at in Hmm. rewrite He, He', Hm' in Hmm.
  rewrite run_passes in * by (rewrite HD; apply orb_true_r). rewrite HD in *.
  destruct (passes_dark_decodable v (isLightMode d) d i e He Hmm Hc)
    as (e2 & He2 & Hdec).
  congruence.
Qed.

End Again.

(** ** C10: listeners pile up *)

Lemma length_concat_seven k :
  length (concat (replicate k seven_listeners)) = 7 * k.
Proof. induction k as [|k IH]; [done|]. simpl. rewrite IH. lia. Qed.

Section Accumulate.
Context `{Browser}.

Lemma run_extended_dark_listeners d i e :
  elements d !! i = Some e -> matches d e sel_rt_pagination_button = true ->
  isDarkMode d = true -> completion (run ExtendedVariant d) = Normal ->
  exists e',
    elements (final (run ExtendedVariant d)) !! i = Some e' /\
    matches (final (run ExtendedVariant d)) e' sel_rt_pagination_button = true /\
    listeners e' =
      listeners e ++
      concat (replicate (length (querySelectorAll sel_reactable d)) seven_listeners).
Proof.
  intros He Hm HD Hc.
  pose proof (run_same_markup ExtendedVariant d) as Hk.
  rewrite run_passes in * by (rewrite HD; apply orb_true_r). rewrite HD in *.
  destruct (extended_passes_dark_listeners (isLightMode d) d i e He Hm Hc)
    as (e' & He' & Hl).
  exists e'. split; [done|]. split; [|done].
  by rewrite (matches_button_markup d _ i e e' Hk He He').
Qed.

Lemma calls_dark_listeners n d i e :
  elements d !! i = Some e -> matches d e sel_rt_pagination_button = true ->
  isDarkMode d = true -> completion (run ExtendedVariant d) = Normal ->
  exists e',
    elements (calls ExtendedVariant n d) !! i = Some e' /\
    listeners e' =
      listeners e ++
      concat (replicate (n * length (querySelectorAll sel_reactable d))
                seven_listeners).
Proof.
  revert d e. induction n as [|n IH]; intros d e He Hm HD Hc.
  - exists e. split; [done|]. simpl. by rewrite app_nil_r.
  - simpl calls.
    destruct (run_extended_dark_listeners d i e He Hm HD Hc) as (e1 & He1 & Hm1 & Hl1).
    destruct (dark_call_again ExtendedVariant d HD Hc) as [HD1 Hc1].
    destruct (IH _ e1 He1 Hm1 HD1 Hc1) as (e' & He' & Hl').
    exists e'. split; [done|].
    rewrite Hl', Hl1.
    rewrite <- (querySelectorAll_markup sel_reactable d _ eq_refl
                  (run_same_markup ExtendedVariant d)).
    rewrite <- app_assoc, <- concat_app, <- replicate_add. done.
Qed.

End Accumulate.

(** C10.  In the extended version, for a pagination button (an element
    [.rt-pagination button] matches) of a document with [R] reactable
    elements: a dark-mode call that ends adds, once per reactable element,
    the seven listeners of the two registration blocks (click, mouseenter,
    mouseleave; then mouseenter, mouseleave, mousedown, mouseup), all of
    them new registrations; after [n] such calls in a row the button has
    [7 * R * n] listeners more than before, so their number has no bound;
    no call of either version, in any theme, removes a listener; and a call
    in light mode leaves the listeners as they are and only clears the
    [transition] style. *)
Theorem listeners_accumulate `{Browser} d i e :
  elements d !! i = Some e -> matches d e sel_rt_pagination_button = true ->
  let R := length (querySelectorAll sel_reactable d) in
  (isDarkMode d = true -> completion (run ExtendedVariant d) = Normal ->
   (exists e',
      elements (final (run ExtendedVariant d)) !! i = Some e' /\
      listeners e' = listeners e ++ concat (replicate R seven_listeners)) /\
   (forall n,
      exists e',
        elements (calls ExtendedVariant n d) !! i = Some e' /\
        listeners e' = listeners e ++ concat (replicate (n * R) seven_listeners) /\
        length (listeners e') = length (listeners e) + 7 * R * n)) /\
  (forall v,
     exists e' more,
       elements (final (run v d)) !! i = Some e' /\
       listeners e' = listeners e ++ more) /\
  (isLightMode d = true -> isDarkMode d = false ->
   (exists e',
      elements (final (run ExtendedVariant d)) !! i = Some e' /\
      listeners e' = listeners e) /\
   (0 < R -> completion (run ExtendedVariant d) = Normal ->
    exists e',
      elements (final (run ExtendedVariant d)) !! i = Some e' /\
      style_read (style e') "transition" = "")).
Proof.
  intros He Hm R. split; [|split].
  - intros HD Hc. split.
    + destruct (run_extended_dark_listeners d i e He Hm HD Hc) as (e' & He' & _ & Hl).
      by exists e'.
    + intros n. destruct (calls_dark_listeners n d i e He Hm HD Hc) as (e' & He' & Hl).
      exists e'. split; [done|]. split; [done|].
      rewrite Hl, length_app, length_concat_seven. subst R. lia.
  - intros v.
    destruct (keeps_lookup _ _ _ _ _ (run_evolves v d) He) as (e' & He' & _ & [more Hl] & _).
    by exists e', more.
  - intros HL HD.
    assert (Hrun : run ExtendedVariant d = Extended.passes (isLightMode d) false d).
    { rewrite run_passes by (by rewrite HL). by rewrite HD. }
    split.
    + rewrite Hrun.
      destruct (keeps_lookup _ _ _ _ _
                  (passes_light_listeners ExtendedVariant (isLightMode d) d) He)
        as (e' & He' & _ & Hl).
      by exists e'.
    + intros HR Hc. rewrite Hrun in *.
      apply (extended_passes_light_transition (isLightMode d) d i e He Hm);
        [|done].
      subst R. intros Hnil. rewrite Hnil in HR. simpl in HR. lia.
Qed.

Lemma listeners_accumulate_witness :
  (exists e',
     elements (final (run (H := plain_browser) ExtendedVariant
                        (reactable_page ["quarto-dark"]))) !! 3 = Some e' /\
     listeners e' = seven_listeners) /\
  (exists e',
     elements (calls (H := plain_browser) ExtendedVariant 3
                 (reactable_page ["quarto-dark"])) !! 3 = Some e' /\
     length (listeners e') = 21).
Proof.
  destruct (listeners_accumulate (H := plain_browser)
              (reactable_page ["quarto-dark"]) 3
              (node "button" ["rt-page-button"] (Some 2)))
    as (Hdark & _ & _); [reflexivity..|].
  destruct Hdark as [Hone Hmany]; [reflexivity..|].
  split.
  - destruct Hone as (e' & He' & Hl). exists e'. split; [exact He'|].
    rewrite Hl. reflexivity.
  - destruct (Hmany 3) as (e' & He' & _ & Hlen). exists e'. split; [exact He'|].
    rewrite Hlen. reflexivity.
Defined.

(** ** C8: the two versions side by side *)

Lemma forEach_ext (f g : nat -> Action) l d :
  (forall i d', f i d' = g i d') -> forEach l f d = forEach l g d.
Proof.
  intros Hfg. revert d. induction l as [|i l IH]; intros d; [done|].
  simpl. apply andThen_ext; [apply Hfg|]. intros d'. apply IH.
Qed.

Lemma Forall2_common {A} (P Q : A -> A -> Prop) l1 l2 l3 :
  (forall x y z, P x y -> P x z -> Q y z) ->
  Forall2 P l1 l2 -> Forall2 P l1 l3 -> Forall2 Q l2 l3.
Proof.
  intros HPQ H12. revert l3.
  induction H12 as [|x y l1 l2 Hxy _ IH]; intros l3 H13;
    inversion H13; subst; constructor; eauto.
Qed.

Section SideBySide.
Context `{Browser}.

Lemma common_passes_light L c c' d :
  common_passes L false c d = common_passes L false c' d.
Proof.
  unfold common_passes.
  apply andThen_ext; [|done].
  apply andThen_ext; [done|]. intros d'.
  unfold updateElements. apply forEach_ext. intros i d2. done.
Qed.

Lemma common_passes_no_text L D c c' d :
  querySelectorAll sel_text d = [] ->
  common_passes L D c d = common_passes L D c' d.
Proof.
  intros Hq. unfold common_passes.
  apply andThen_ext; [|done].
  assert (Hk : keeps same_markup d (final (before_text L D d))).
  { apply (keeps_impl evolves); [by intros ?? [? _]|apply before_text_evolves]. }
  rewrite !andThen_normal by apply total_before_text.
  unfold updateElements.
  rewrite <- (querySelectorAll_markup sel_text d _ eq_refl Hk), Hq. done.
Qed.

Lemma extended_passes_no_reactable L D d :
  querySelectorAll sel_reactable d = [] ->
  Extended.passes L D d = common_passes L D "rgb(204,193,183)" d.
Proof.
  intros Hq. rewrite extended_passes_common.
  set (a := common_passes L D "rgb(204,193,183)").
  assert (Hk : keeps same_markup d (final (a d))).
  { apply (keeps_impl same_listeners); [by intros ?? [? _]|].
    apply common_passes_same_listeners. }
  transitivity ((a >> skip) d); [|apply andThen_skip_r].
  unfold andThen. destruct (completion (a d)); [|done].
  unfold updateElements.
  rewrite <- (querySelectorAll_markup sel_reactable d _ eq_refl Hk), Hq. done.
Qed.

Lemma passes_src v L D d :
  keeps same_src (final (img_pass L D d)) (final (passes_of v L D d)).
Proof.
  rewrite passes_sequence. unfold pass_list. rewrite sequence_cons.
  rewrite andThen_normal
    by (apply total_updateElements; intros j; apply total_img_callback).
  cbn [final].
  apply (sequence_preserves (keeps same_src)).
  apply (after_img_same_src v L D).
Qed.

Lemma run_same_sources v v' d :
  same_sources (final (run v d)) (final (run v' d)).
Proof.
  unfold same_sources. rewrite !run_unfold.
  assert (Hrefl : Forall2 (fun e e' => src e = src e') (elements d) (elements d)).
  { apply Forall2_lookup. intros i. destruct (elements d !! i); by constructor. }
  destruct (document_body d); [|done].
  destruct (negb (isLightMode d) && negb (isDarkMode d)); [done|].
  destruct (passes_src v (isLightMode d) (isDarkMode d) d) as [_ H1].
  destruct (passes_src v' (isLightMode d) (isDarkMode d) d) as [_ H2].
  refine (Forall2_common same_src _ _ _ _ _ H1 H2).
  intros x y z [_ Hy] [_ Hz]. congruence.
Qed.

End SideBySide.

(** C8.  On a document without a reactable element the two versions do the
    same, write for write, whenever the call is not in dark mode or no
    element matches the text selector: same final document (sources, inline
    styles, snapshot records, listeners), same writes, same completion.  In
    every case they leave the same image sources.  In dark mode they differ
    on the elements the text selector matches: the extended version writes
    the colour [rgb(204,193,183)] where the basic one writes [white]. *)
Theorem variants_agree_outside_dark_text `{Browser} d :
  querySelectorAll sel_reactable d = [] ->
  (isDarkMode d = false \/ querySelectorAll sel_text d = [] ->
   Extended.updateImageSrc d = Basic.updateImageSrc d) /\
  same_sources (final (Extended.updateImageSrc d)) (final (Basic.updateImageSrc d)) /\
  (forall i e,
     isDarkMode d = true ->
     elements d !! i = Some e -> matches d e sel_text = true ->
     completion (Extended.updateImageSrc d) = Normal ->
     completion (Basic.updateImageSrc d) = Normal ->
     In (SetStyle i "color" "rgb(204,193,183)") (writes (Extended.updateImageSrc d)) /\
     In (SetStyle i "color" "white") (writes (Basic.updateImageSrc d))).
Proof.
  intros Hq. split; [|split].
  - intros Hcase.
    change (run ExtendedVariant d = run BasicVariant d).
    rewrite !run_unfold. destruct (document_body d); [|done].
    destruct (negb (isLightMode d) && negb (isDarkMode d)); [done|].
    simpl passes_of. rewrite extended_passes_no_reactable by done.
    rewrite basic_passes_common.
    destruct Hcase as [HD|Ht].
    + rewrite HD. apply common_passes_light.
    + by apply common_passes_no_text.
  - apply (run_same_sources ExtendedVariant BasicVariant d).
  - intros i e HD He Hm.
    change (completion (run ExtendedVariant d) = Normal ->
            completion (run BasicVariant d) = Normal ->
            In (SetStyle i "color" (dark_text_color ExtendedVariant))
               (writes (run ExtendedVariant d)) /\
            In (SetStyle i "color" (dark_text_color BasicVariant))
               (writes (run BasicVariant d))).
    rewrite !run_passes by (rewrite HD; apply orb_true_r). rewrite HD.
    intros Hce Hcb. split.
    + by destruct (passes_text_dark ExtendedVariant (isLightMode d) d i e He Hm Hce)
        as (_ & _ & Hin).
    + by destruct (passes_text_dark BasicVariant (isLightMode d) d i e He Hm Hcb)
        as (_ & _ & Hin).
Qed.

Lemma variants_agree_outside_dark_text_witness :
  Extended.updateImageSrc (H := plain_browser) (legend_page ["quarto-light"]) =
  Basic.updateImageSrc (H := plain_browser) (legend_page ["quarto-light"]).
Proof.
  destruct (variants_agree_outside_dark_text (H := plain_browser)
              (legend_page ["quarto-light"])) as [Heq _]; [reflexivity|].
  apply Heq. left. reflexivity.
Defined.

(** In dark mode, on a page without a reactable element, the two versions
    leave different inline colours on a legend text. *)
Lemma variants_differ_on_dark_text :
  querySelectorAll sel_reactable (legend_page ["quarto-dark"]) = [] /\
  (fun e => style_read (style e) "color") <$>
    elements (final (Extended.updateImageSrc (H := plain_browser)
                       (legend_page ["quarto-dark"]))) !! 2
  = Some "rgb(204,193,183)" /\
  (fun e => style_read (style e) "color") <$>
    elements (final (Basic.updateImageSrc (H := plain_browser)
                       (legend_page ["quarto-dark"]))) !! 2
  = Some "white" /\
  final (Extended.updateImageSrc (H := plain_browser) (legend_page ["quarto-dark"]))
  <> final (Basic.updateImageSrc (H := plain_browser) (legend_page ["quarto-dark"])).
Proof.
  split; [reflexivity|]. split; [reflexivity|]. split; [reflexivity|].
  vm_compute. discriminate.
Qed.

(** ** Words in the text of a style attribute *)

Lemma startsWith_sep p a c b :
  has_char c p = false ->
  Str.startsWith p (a +:+ String c b) = Str.startsWith p a.
Proof.
  revert a. induction p as [|x p IH]; intros a Hc; [done|].
  simpl in Hc. apply orb_false_iff in Hc as [Hx Hp].
  destruct a as [|y a].
  - rewrite append_empty. simpl. by rewrite Hx.
  - rewrite append_cons. simpl. by rewrite IH.
Qed.

Lemma includes_empty p : p <> "" -> Str.includes p "" = false.
Proof. by destruct p. Qed.

Lemma includes_sep p a c b :
  p <> "" -> has_char c p = false ->
  Str.includes p (a +:+ String c b) = Str.includes p a || Str.includes p b.
Proof.
  intros Hp Hc. induction a as [|y a IH].
  - rewrite append_empty, includes_empty by done.
    change (Str.includes p (String c b))
      with (Str.startsWith p ("" +:+ String c b) || Str.includes p b).
    rewrite startsWith_sep by done. by destruct p.
  - rewrite append_cons.
    change (Str.includes p (String y (a +:+ String c b)))
      with (Str.startsWith p (String y a +:+ String c b)
            || Str.includes p (a +:+ String c b)).
    rewrite startsWith_sep, IH by done. simpl. by rewrite orb_assoc.
Qed.

Lemma plain_word_spec p :
  plain_word p = true ->
  p <> "" /\ has_char ":" p = false /\ has_char " " p = false /\
  has_char ";" p = false.
Proof.
  unfold plain_word. rewrite !andb_true_iff, !negb_true_iff.
  intros [[[Hp ?] ?] ?]. split; [|done].
  intros ->. done.
Qed.

Lemma includes_declaration p k v :
  plain_word p = true ->
  Str.includes p (k +:+ ": " +:+ v +:+ ";") = Str.includes p k || Str.includes p v.
Proof.
  intros (Hp & H1 & H2 & H3)%plain_word_spec.
  rewrite !append_cons, append_empty.
  rewrite includes_sep by done.
  change (String " " (v +:+ ";")) with ("" +:+ String " " (v +:+ ";")).
  rewrite includes_sep by done.
  rewrite includes_sep by done.
  rewrite includes_empty by done. simpl. by rewrite orb_false_r.
Qed.

Lemma includes_join p l :
  p <> "" -> has_char " " p = false ->
  Str.includes p (Str.join " " l) = existsb (Str.includes p) l.
Proof.
  intros Hp Hc. induction l as [|x l IH]; [by apply includes_empty|].
  destruct l as [|y l].
  - simpl. by rewrite orb_false_r.
  - change (Str.join " " (x :: y :: l)) with (x +:+ " " +:+ Str.join " " (y :: l)).
    rewrite append_cons, append_empty, includes_sep, IH by done. done.
Qed.

Lemma includes_cssText p st :
  plain_word p = true ->
  Str.includes p (StyleDecl.cssText st) =
  existsb (fun kv => Str.includes p (fst kv) || Str.includes p (snd kv)) st.
Proof.
  intros Hw. destruct (plain_word_spec p Hw) as (Hp & _ & Hs & _).
  unfold StyleDecl.cssText. rewrite includes_join by done.
  induction st as [|[k v] st IH]; [done|].
  simpl. by rewrite includes_declaration, IH.
Qed.

Lemma existsb_remove (f : string * string -> bool) st name :
  existsb f (StyleDecl.remove st name) = true -> existsb f st = true.
Proof.
  induction st as [|[k v] st IH]; [done|]. simpl.
  destruct (String.eqb k name); simpl.
  - intros Hr. rewrite IH by done. apply orb_true_r.
  - intros [Hf|Hr]%orb_true_iff; [by rewrite Hf|].
    rewrite IH by done. apply orb_true_r.
Qed.

Lemma existsb_put (f : string * string -> bool) st name v :
  existsb f (StyleDecl.put st name v) = true ->
  existsb f st = true \/ f (name, v) = true.
Proof.
  induction st as [|[k w] st IH]; simpl.
  - rewrite orb_false_r. by right.
  - destruct (String.eqb_spec k name) as [->|Hne]; simpl.
    + intros [Hf|Hr]%orb_true_iff; [by right|].
      left. rewrite (existsb_remove f st name Hr). apply orb_true_r.
    + intros [Hf|Hr]%orb_true_iff; [left; by rewrite Hf|].
      destruct (IH Hr) as [Hst|Hn]; [|by right].
      left. rewrite Hst. apply orb_true_r.
Qed.

(** Writing a property puts a plain word into the text of the attribute
    only if the name or the value written holds it. *)
Lemma includes_style_write p st prop v :
  plain_word p = true ->
  Str.includes p (css_name prop) = false -> Str.includes p v = false ->
  Str.includes p (StyleDecl.cssText (style_write st prop v)) = true ->
  Str.includes p (StyleDecl.cssText st) = true.
Proof.
  intros Hw Hk Hv. rewrite !includes_cssText by done.
  unfold style_write, StyleDecl.set. destruct (String.eqb v "").
  - apply existsb_remove.
  - intros [Hst|Hn]%existsb_put; [done|]. simpl in Hn.
    rewrite Hk, Hv in Hn. discriminate.
Qed.

(** ** A source with at most one marker *)

Lemma includes_occurrences pat s :
  Str.includes pat s = negb (Nat.eqb (occurrences pat s) 0).
Proof.
  induction s as [|c s IH]; simpl.
  - destruct (Str.startsWith pat ""); done.
  - rewrite IH. destruct (Str.startsWith pat (String c s)); [done|]. done.
Qed.

Lemma occurrences_app_r pat a b : occurrences pat b <= occurrences pat (a +:+ b).
Proof.
  induction a as [|y a IH]; [done|]. rewrite append_cons. simpl. lia.
Qed.

Lemma occurrences_after pat pre post :
  pat <> "" ->
  S (occurrences pat post) <= occurrences pat (pre +:+ pat +:+ post).
Proof.
  intros Hp.
  etrans; [|apply occurrences_app_r].
  destruct pat as [|c p]; [done|].
  pose proof (startsWith_app (String c p) post) as Hst.
  rewrite append_cons in *. simpl occurrences. simpl in Hst. rewrite Hst.
  pose proof (occurrences_app_r (String c p) p post). lia.
Qed.

Lemma includes_marker c p a b :
  has_char c p = false ->
  Str.includes (String c p) (a +:+ String c b) =
  Str.includes (String c p) a || Str.includes (String c p) (String c b).
Proof.
  intros Hc. induction a as [|y a IH]; [done|].
  rewrite append_cons.
  change (Str.includes (String c p) (String y (a +:+ String c b)))
    with (Ascii.eqb c y && Str.startsWith p (a +:+ String c b)
          || Str.includes (String c p) (a +:+ String c b)).
  rewrite startsWith_sep, IH by done. simpl. by rewrite orb_assoc.
Qed.

(** With at most one stale marker in it, a source is settled by one
    replacement. *)
Lemma replace_settles L D s :
  occurrences (stale_marker L) s <= 1 ->
  let s' := Str.replace (stale_marker L) (theme_marker D) s in
  Str.replace (stale_marker L) (theme_marker D) s' = s'.
Proof.
  intros Hocc s'. subst s'.
  destruct (Str.includes (stale_marker L) s) eqn:Hin;
    [|by rewrite !(replace_absent _ _ s Hin)].
  assert (Hne : stale_marker L <> "") by (by destruct L).
  destruct (replace_first (stale_marker L) (theme_marker D) s Hne Hin)
    as (pre & post & -> & Hpre & ->).
  pose proof (occurrences_after (stale_marker L) pre post Hne) as Hpost.
  assert (Hpost' : Str.includes (stale_marker L) post = false).
  { rewrite includes_occurrences.
    destruct (occurrences (stale_marker L) post); [done|lia]. }
  destruct L, D; simpl stale_marker in *; simpl theme_marker in *.
  - apply replace_same.
  - apply replace_absent. rewrite !append_cons, append_empty.
    rewrite includes_marker, Hpre by done. simpl. exact Hpost'.
  - apply replace_absent. rewrite !append_cons, append_empty.
    rewrite includes_marker, Hpre by done. simpl. exact Hpost'.
  - apply replace_same.
Qed.

(** ** One element through a call, and through the next *)

Lemma get_style_write st prop v name :
  StyleDecl.get (style_write st prop v) name =
  if String.eqb (css_name prop) name then v else StyleDecl.get st name.
Proof.
  unfold style_write. destruct (String.eqb_spec (css_name prop) name) as [<-|Hne].
  - apply get_set_eq.
  - by apply get_set_ne.
Qed.

Lemma get_restyled D c o st name :
  StyleDecl.get (restyled D c o st) name =
  match restyled_value D c o name with
  | Some v => v
  | None => StyleDecl.get st name
  end.
Proof.
  unfold restyled, restyled_value. destruct D.
  - rewrite !get_style_write.
    change (css_name "color") with "color". change (css_name "fill") with "fill".
    rewrite !(String.eqb_sym _ name).
    by destruct (String.eqb name "color"), (String.eqb name "fill").
  - unfold assign_members, JSON.snapshot_members. simpl fold_left.
    rewrite !get_style_write.
    change (css_name "textDecoration") with "text-decoration".
    change (css_name "fontFamily") with "font-family".
    change (css_name "fontWeight") with "font-weight".
    change (css_name "fontSize") with "font-size".
    change (css_name "color") with "color". change (css_name "fill") with "fill".
    rewrite !(String.eqb_sym _ name).
    repeat (destruct (String.eqb name _); [done|]). done.
Qed.

Lemma get_guarded D on prop st name :
  StyleDecl.get (guarded D on prop st) name =
  if on && Str.includes prop (StyleDecl.cssText st) && String.eqb (css_name prop) name
  then (if D then dark_colour else light_colour)
  else StyleDecl.get st name.
Proof.
  unfold guarded. destruct (on && _); [|done]. simpl.
  destruct (String.eqb_spec (style_read st prop) (if D then dark_colour else light_colour))
    as [Heq|Hne].
  - destruct (String.eqb_spec (css_name prop) name) as [<-|]; [|done].
    by rewrite <- Heq.
  - by rewrite get_style_write.
Qed.

Lemma guarded_off D prop st : guarded D false prop st = st.
Proof. reflexivity. Qed.

(** A matched element stays matched, and an element that was not matched
    is not matched after the later writes of the call. *)
Lemma guarded_again D on prop st v name :
  plain_word prop = true -> css_name prop = prop ->
  Str.includes prop "color" = false -> Str.includes prop v = false ->
  prop <> "color" ->
  let s1 := guarded D on prop st in
  forall s2,
    (s2 = s1 \/ s2 = style_write s1 "color" v) ->
    StyleDecl.get (guarded D on prop s2) name = StyleDecl.get s2 name.
Proof.
  intros Hw Hcss Hc Hv Hpc s1 s2 Hs2.
  rewrite get_guarded.
  destruct (on && Str.includes prop (StyleDecl.cssText s2)
            && String.eqb (css_name prop) name) eqn:Hm; [|done].
  apply andb_true_iff in Hm as [[Hon Hin]%andb_true_iff Hn].
  apply String.eqb_eq in Hn. subst name. rewrite Hcss in *.
  assert (Hs1 : Str.includes prop (StyleDecl.cssText s1) = true).
  { destruct Hs2 as [->| ->]; [done|].
    by apply (includes_style_write prop s1 "color" v). }
  assert (Hget : StyleDecl.get s1 prop = if D then dark_colour else light_colour).
  { subst s1. rewrite get_guarded, Hon, Hcss, String.eqb_refl. simpl.
    destruct (Str.includes prop (StyleDecl.cssText st)) eqn:Hst; [done|].
    unfold guarded in Hs1. rewrite Hon, Hst in Hs1. simpl in Hs1. congruence. }
  destruct Hs2 as [->| ->]; [done|].
  rewrite get_style_write. change (css_name "color") with "color".
  destruct (String.eqb_spec "color" prop); [by subst|done].
Qed.

Lemma style_after_again D c mt mg o tag st name :
  (mt = true -> tag = "text" \/ tag = "tspan") ->
  StyleDecl.get (style_after D c mt mg o tag (style_after D c mt mg o tag st)) name =
  StyleDecl.get (style_after D c mt mg o tag st) name.
Proof.
  intros Htag.
  set (v := if D then "white" else "").
  assert (Hv1 : Str.includes "background" v = false) by (by destruct D).
  assert (Hv2 : Str.includes "fill" v = false) by (by destruct D).
  destruct (String.eqb_spec tag "svg") as [->|Hsvg].
  { assert (mt = false) as -> by (destruct mt; [by destruct Htag|done]).
    unfold style_after. cbv zeta. change (String.eqb "svg" "svg") with true.
    change (String.eqb "svg" "rect") with false.
    rewrite !guarded_off.
    fold v. set (s1 := guarded D true "background" st).
    destruct mg.
    - rewrite !get_style_write.
      destruct (String.eqb (css_name "color") name) eqn:Hn; [done|].
      etrans; [apply (guarded_again D true "background" st v name); try done; by right|].
      by rewrite get_style_write, Hn.
    - apply (guarded_again D true "background" st v name); try done. by left. }
  destruct (String.eqb_spec tag "rect") as [->|Hrect].
  { assert (mt = false) as -> by (destruct mt; [by destruct Htag|done]).
    unfold style_after. cbv zeta. change (String.eqb "rect" "svg") with false.
    change (String.eqb "rect" "rect") with true.
    rewrite !guarded_off.
    fold v. set (s1 := guarded D true "fill" st).
    destruct mg.
    - rewrite !get_style_write.
      destruct (String.eqb (css_name "color") name) eqn:Hn; [done|].
      etrans; [apply (guarded_again D true "fill" st v name); try done; by right|].
      by rewrite get_style_write, Hn.
    - apply (guarded_again D true "fill" st v name); try done. by left. }
  unfold style_after. cbv zeta.
  destruct (String.eqb_spec tag "svg"); [done|].
  destruct (String.eqb_spec tag "rect"); [done|].
  rewrite !guarded_off. fold v.
  destruct mg, mt; rewrite ?get_style_write, ?get_restyled, ?get_style_write;
    try done.
  - destruct (String.eqb (css_name "color") name); [done|].
    destruct (restyled_value D c o name) eqn:Hr; [done|].
    by rewrite get_restyled, Hr.
  - by destruct (String.eqb (css_name "color") name).
  - destruct (restyled_value D c o name) eqn:Hr; [done|].
    by rewrite ?get_restyled, ?Hr.
Qed.

Lemma element_after_again L D c mt mg o e :
  (mt = true -> text_tag e) ->
  (tagName e = "img" -> occurrences (stale_marker L) (src e) <= 1) ->
  same_reads (element_after L D c mt mg o e)
             (element_after L D c mt mg o (element_after L D c mt mg o e)).
Proof.
  intros Htag Hocc. unfold same_reads, element_after, same_markup. simpl.
  split; [done|]. split; [|split; [|split; [done|]]].
  - unfold src_after. destruct (String.eqb_spec (tagName e) "img"); [|done].
    symmetry. by apply replace_settles, Hocc.
  - by destruct mt.
  - intros name. symmetry. by apply style_after_again.
Qed.

(** ** The shared passes, element by element *)

(** A pass whose callback always ends and makes [g e] of its element
    [e]. *)
Lemma updateElements_exact sel (f : nat -> Action) (g : Element -> Element) d i e :
  (forall j, local_at j (f j)) -> (forall j, total (f j)) ->
  (forall j d' e', elements d' !! j = Some e' ->
                   elements (final (f j d')) !! j = Some (g e')) ->
  elements d !! i = Some e ->
  elements (final (updateElements sel f d)) !! i =
  Some (if matches d e sel then g e else e).
Proof.
  intros Hlocal Htotal Hg He. unfold updateElements.
  destruct (matches d e sel) eqn:Hm.
  - destruct (forEach_at_normal f Hlocal (fun _ _ => True)
                (querySelectorAll sel d) d i) as (dk & _ & Hk & Hf & _ & _).
    + done.
    + apply querySelectorAll_NoDup.
    + apply elem_of_querySelectorAll. unfold matches_at. by rewrite He.
    + by apply total_forEach.
    + rewrite Hf. rewrite He in Hk. by apply Hg.
  - destruct (forEach_notin f Hlocal (querySelectorAll sel d) d i) as [Hf _].
    + rewrite elem_of_querySelectorAll. unfold matches_at. by rewrite He, Hm.
    + by rewrite Hf.
Qed.

Lemma img_pass_exact L D d i e :
  elements d !! i = Some e ->
  elements (final (img_pass L D d)) !! i =
  Some (if String.eqb (tagName e) "img" then
          if String.eqb (Str.replace (stale_marker L) (theme_marker D) (src e)) (src e)
          then e
          else with_src (Str.replace (stale_marker L) (theme_marker D) (src e)) e
        else e).
Proof.
  intros He. unfold img_pass.
  rewrite (updateElements_exact sel_img (img_callback L D)
             (fun e => if String.eqb (Str.replace (stale_marker L) (theme_marker D) (src e))
                                     (src e)
                       then e
                       else with_src (Str.replace (stale_marker L) (theme_marker D) (src e)) e)
             d i e); [by rewrite matches_sel_img|..|done].
  - apply local_at_img_callback.
  - apply total_img_callback.
  - intros j d' e' He'. unfold img_callback, withElement. rewrite He'.
    fold (stale_marker L) (theme_marker D). cbv zeta.
    destruct (String.eqb _ (src e')); simpl; [done|].
    by rewrite list_lookup_alter_eq, He'.
Qed.

Lemma style_pass_exact tag prop lv dv D d i e :
  prop <> "" -> elements d !! i = Some e ->
  elements (final (updateElements [[[Tag tag; AttrContains "style" prop]]]
                     (fun elem => updateStyle D elem prop lv dv) d)) !! i =
  Some (if String.eqb (tagName e) tag
           && Str.includes prop (StyleDecl.cssText (style e)) then
          if String.eqb (style_read (style e) prop) (if D then dv else lv) then e
          else with_style (style_write (style e) prop (if D then dv else lv)) e
        else e).
Proof.
  intros Hprop He.
  rewrite (updateElements_exact _ (fun elem => updateStyle D elem prop lv dv)
             (fun e => if String.eqb (style_read (style e) prop) (if D then dv else lv)
                       then e
                       else with_style (style_write (style e) prop (if D then dv else lv)) e)
             d i e); [|..|done].
  - rewrite matches_style_selector. by destruct (String.eqb_spec prop "").
  - intros j. apply local_at_updateStyle.
  - intros j. apply total_updateStyle.
  - intros j d' e' He'. unfold updateStyle, withElement. rewrite He'. cbv zeta.
    destruct (String.eqb _ _); simpl; [done|].
    by rewrite list_lookup_alter_eq, He'.
Qed.

Lemma table_pass_exact D d i e :
  elements d !! i = Some e ->
  elements (final (table_pass D d)) !! i =
  Some (if matches d e sel_gt
        then with_style (style_write (style e) "color" (if D then "white" else "")) e
        else e).
Proof.
  intros He. unfold table_pass.
  rewrite (updateElements_exact sel_gt (table_callback D)
             (fun e => with_style (style_write (style e) "color"
                                     (if D then "white" else "")) e)
             d i e); [done|..|done].
  - apply local_at_table_callback.
  - intros j. unfold table_callback. destruct D; apply total_set_style.
  - intros j d' e' He'. unfold table_callback.
    destruct D; simpl; by rewrite list_lookup_alter_eq, He'.
Qed.

Section Exact.
Context `{Browser}.

(** The text callback on an element whose snapshot, if it has one, was
    written by the routine. *)
Lemma text_outcome_written D c snap i e :
  written e ->
  exists o,
    (unset (originalStyle e) = false -> originalStyle e = Some (JSON.stringify o)) /\
    fst (fst (text_outcome D c snap i e)) =
      with_style (restyled D c o (style e)) (with_originalStyle (JSON.stringify o) e) /\
    snd (text_outcome D c snap i e) = Normal.
Proof.
  intros [Hu|[o Ho]].
  - exists snap. split; [by rewrite Hu|]. unfold text_outcome. rewrite Hu.
    cbn -[JSON.parse JSON.stringify JSON.as_snapshot JSON.snapshot_value
          JSON.snapshot_members].
    rewrite parse_stringify. destruct D; [done|]. by rewrite as_snapshot_value.
  - exists o. split; [done|]. unfold text_outcome. rewrite Ho, stringify_set.
    cbn -[JSON.parse JSON.stringify JSON.as_snapshot JSON.snapshot_value
          JSON.snapshot_members].
    rewrite Ho, parse_stringify. destruct D.
    + split; [|done]. cbn [fst]. destruct e; simpl in *. by rewrite Ho.
    + rewrite as_snapshot_value. split; [|done]. cbn [fst].
      destruct e; simpl in *. by rewrite Ho.
Qed.

Lemma text_pass_exact D c d i e :
  elements d !! i = Some e ->
  completion (text_pass D c d) = Normal ->
  (matches d e sel_text = true -> written e) ->
  exists o,
    (matches d e sel_text = true -> unset (originalStyle e) = false ->
     originalStyle e = Some (JSON.stringify o)) /\
    elements (final (text_pass D c d)) !! i =
    Some (if matches d e sel_text
          then with_style (restyled D c o (style e))
                 (with_originalStyle (JSON.stringify o) e)
          else e).
Proof.
  intros He Hc Hw. destruct (matches d e sel_text) eqn:Hm.
  - destruct (text_pass_at D c d i e He Hm) as [(_ & _ & Hn)|(dk & Hk & Hf & _ & _)];
      [done|].
    destruct (text_outcome_written D c (getComputedStyle dk i) i e (Hw eq_refl))
      as (o & Ho & Hout & _).
    exists o. split; [by intros _|]. by rewrite Hf, Hout.
  - exists (getComputedStyle d i). split; [done|].
    by destruct (text_pass_other D c d i e He Hm).
Qed.

End Exact.

Lemma element_eq (e e' : Element) :
  tagName e = tagName e' -> classList e = classList e' -> parent e = parent e' ->
  src e = src e' -> style e = style e' -> originalStyle e = originalStyle e' ->
  listeners e = listeners e' -> e = e'.
Proof. destruct e, e'; simpl; congruence. Qed.

Lemma img_step_eq L D e :
  (if String.eqb (tagName e) "img" then
     if String.eqb (Str.replace (stale_marker L) (theme_marker D) (src e)) (src e)
     then e
     else with_src (Str.replace (stale_marker L) (theme_marker D) (src e)) e
   else e)
  = with_src (src_after L D (tagName e) (src e)) e.
Proof.
  unfold src_after. destruct (String.eqb (tagName e) "img").
  - destruct (String.eqb_spec (Str.replace (stale_marker L) (theme_marker D) (src e))
                (src e)) as [Heq|_]; [|done].
    rewrite Heq. by apply element_eq.
  - by apply element_eq.
Qed.

Lemma guarded_step_eq (D : bool) tag prop e :
  (if String.eqb (tagName e) tag
      && Str.includes prop (StyleDecl.cssText (style e)) then
     if String.eqb (style_read (style e) prop)
          (if D then dark_colour else light_colour)
     then e
     else with_style (style_write (style e) prop
                        (if D then dark_colour else light_colour)) e
   else e)
  = with_style (guarded D (String.eqb (tagName e) tag) prop (style e)) e.
Proof.
  unfold guarded.
  destruct (String.eqb (tagName e) tag
            && Str.includes prop (StyleDecl.cssText (style e)));
    [|by apply element_eq].
  destruct (String.eqb (style_read (style e) prop) _); [by apply element_eq|done].
Qed.

Section Shared.
Context `{Browser}.

(** The shared passes make [element_after] of every element. *)
Lemma common_passes_at L D c d i e :
  elements d !! i = Some e ->
  completion (common_passes L D c d) = Normal ->
  (matches d e sel_text = true -> written e) ->
  exists o,
    (matches d e sel_text = true -> unset (originalStyle e) = false ->
     originalStyle e = Some (JSON.stringify o)) /\
    elements (final (common_passes L D c d)) !! i =
    Some (element_after L D c (matches d e sel_text) (matches d e sel_gt) o e).
Proof.
  intros He Hc Hw. unfold common_passes in *.
  apply andThen_completes in Hc as [Hc12 _].
  rewrite andThen_normal by done. cbn [final].
  apply andThen_completes in Hc12 as [_ Hc2].
  rewrite andThen_normal by apply total_before_text. cbn [final].
  fold (text_pass D c) in *. fold (table_pass D).
  set (d3 := final (before_text L D d)) in *.
  set (d4 := final (text_pass D c d3)).
  assert (Hk3 : keeps evolves d d3) by apply before_text_evolves.
  assert (Hk4 : keeps evolves d d4).
  { etrans; [exact Hk3|apply text_pass_evolves]. }
  (* the three passes before the text pass *)
  assert (He3 : exists e3,
            elements d3 !! i = Some e3 /\
            e3 = with_style (guarded D (String.eqb (tagName e) "rect") "fill"
                               (guarded D (String.eqb (tagName e) "svg") "background"
                                  (style e)))
                   (with_src (src_after L D (tagName e) (src e)) e)).
  { subst d3. unfold before_text.
    rewrite andThen_normal.
    2:{ apply total_andThen; [|apply style_pass_total].
        apply total_updateElements. intros j. apply total_img_callback. }
    cbn [final]. rewrite andThen_normal
      by (apply total_updateElements; intros j; apply total_img_callback).
    cbn [final]. fold (img_pass L D).
    pose proof (img_pass_exact L D d i e He) as He1.
    set (d1 := final (img_pass L D d)) in *.
    rewrite img_step_eq in He1.
    pose proof (style_pass_exact "svg" "background" light_colour dark_colour
                  D d1 i _ ltac:(done) He1) as He2.
    rewrite guarded_step_eq in He2.
    pose proof (style_pass_exact "rect" "fill" light_colour dark_colour
                  D _ i _ ltac:(done) He2) as He3.
    rewrite guarded_step_eq in He3.
    eexists. split; [exact He3|]. by apply element_eq. }
  destruct He3 as (e3 & He3 & He3eq).
  assert (Hm3 : matches d3 e3 sel_text = matches d e sel_text).
  { pose proof (before_text_matches L D d i) as Hm. fold d3 in Hm.
    unfold matches_at in Hm. by rewrite He, He3 in Hm. }
  assert (Ho3 : originalStyle e3 = originalStyle e) by (by rewrite He3eq).
  destruct (text_pass_exact D c d3 i e3 He3 Hc2) as (o & Ho & He4).
  { rewrite Hm3. intros Hm. unfold written. rewrite Ho3. by apply Hw. }
  rewrite Hm3, Ho3 in *.
  exists o. split; [done|].
  rewrite (table_pass_exact D d4 i _ He4).
  assert (Hm4 : matches_at d sel_gt i = matches_at d4 sel_gt i).
  { apply matches_at_markup; [done|].
    apply (keeps_impl evolves); [by intros ?? [? _]|done]. }
  unfold matches_at in Hm4. fold d4 in He4. rewrite He, He4 in Hm4.
  rewrite <- Hm4. f_equal. rewrite He3eq.
  unfold element_after, style_after.
  destruct (matches d e sel_text), (matches d e sel_gt); by apply element_eq.
Qed.

End Shared.

(** ** A call on a document the last call has left *)

Lemma andThen_skip_at (a b : Action) d : a d = skip d -> (a >> b) d = b d.
Proof. intros Ha. unfold andThen. rewrite Ha. simpl. by destruct (b d). Qed.



(** What a call leaves is settled. *)
Lemma style_after_settled D c mt mg o tag prop st :
  (tag = "svg" /\ prop = "background") \/ (tag = "rect" /\ prop = "fill") ->
  (mt = true -> tag = "text" \/ tag = "tspan") ->
  Str.includes prop (StyleDecl.cssText (style_after D c mt mg o tag st)) = true ->
  style_read (style_after D c mt mg o tag st) prop =
  if D then dark_colour else light_colour.
Proof.
  intros Hcase Htag Hin.
  assert (mt = false) as ->.
  { destruct mt; [|done]. destruct (Htag eq_refl), Hcase as [[? _]|[? _]]; congruence. }
  set (v := if D then "white" else "").
  assert (Hv1 : Str.includes "background" v = false) by (by destruct D).
  assert (Hv2 : Str.includes "fill" v = false) by (by destruct D).
  assert (Hshape : exists s1,
            s1 = guarded D true prop st /\
            (style_after D c false mg o tag st = s1 \/
             style_after D c false mg o tag st = style_write s1 "color" v)).
  { exists (guarded D true prop st). split; [done|].
    unfold style_after. cbv zeta. fold v.
    destruct Hcase as [[-> ->]|[-> ->]].
    - change (String.eqb "svg" "svg") with true.
      change (String.eqb "svg" "rect") with false. rewrite guarded_off.
      destruct mg; [by right|by left].
    - change (String.eqb "rect" "svg") with false.
      change (String.eqb "rect" "rect") with true. rewrite guarded_off.
      destruct mg; [by right|by left]. }
  destruct Hshape as (s1 & Hs1 & Hs2).
  set (s2 := style_after D c false mg o tag st) in *.
  assert (Hagain : StyleDecl.get (guarded D true prop s2) prop = StyleDecl.get s2 prop).
  { subst s1. destruct Hcase as [[_ ->]|[_ ->]].
    - by apply (guarded_again D true "background" st v).
    - by apply (guarded_again D true "fill" st v). }
  rewrite get_guarded, Hin in Hagain.
  assert (Hcss : css_name prop = prop) by (by destruct Hcase as [[_ ->]|[_ ->]]).
  rewrite Hcss, String.eqb_refl in Hagain. simpl in Hagain.
  unfold style_read. by rewrite Hcss.
Qed.




Lemma stringify_inj o o' : JSON.stringify o = JSON.stringify o' -> o = o'.
Proof.
  intros Heq.
  assert (Hv : Some (JSON.snapshot_value o) = Some (JSON.snapshot_value o')).
  { by rewrite <- !parse_stringify, Heq. }
  assert (Ho : JSON.as_snapshot (JSON.snapshot_value o)
               = JSON.as_snapshot (JSON.snapshot_value o')).
  { f_equal. congruence. }
  rewrite !as_snapshot_value in Ho. by injection Ho.
Qed.


Section Again2.
Context `{Browser}.




End Again2.

(** ** C1: a call after a call *)



Section CallAfterCall.
Context `{Browser}.


Lemma run_inactive v d :
  isLightMode d || isDarkMode d = false ->
  final (run v d) = d /\ writes (run v d) = [].
Proof.
  intros Hm. rewrite run_unfold. destruct (document_body d); [|done].
  apply orb_false_iff in Hm as [-> ->]. done.
Qed.

End CallAfterCall.




(** * More of the code

    ** Callbacks as functions on their element *)

Lemma acts_as_skip j : acts_as j skip (fun e => e).
Proof. split; [apply total_skip|]. split; [apply local_at_skip|]. by intros d e. Qed.

Lemma acts_as_update j f w :
  write_target w = j -> acts_as j (update j f w) f.
Proof.
  intros Hw. split; [apply total_update|]. split; [by apply local_at_update|].
  intros d e He. simpl. by rewrite list_lookup_alter_eq, He.
Qed.

Lemma acts_as_set_style j prop v : acts_as j (set_style j prop v) (restyle prop v).
Proof. by apply acts_as_update. Qed.

Lemma acts_as_addEventListener j t h :
  acts_as j (addEventListener j t h) (with_listener t h).
Proof. by apply acts_as_update. Qed.

Lemma acts_as_andThen j a b g g' :
  acts_as j a g -> acts_as j b g' -> acts_as j (a >> b) (fun e => g' (g e)).
Proof.
  intros (Ta & La & Ga) (Tb & Lb & Gb).
  split; [by apply total_andThen|]. split; [by apply local_at_andThen|].
  intros d e He. rewrite andThen_normal by apply Ta. cbn [final].
  apply Gb, Ga, He.
Qed.

Lemma acts_as_withElement j (k : Element -> Action) (gk : Element -> Element -> Element) :
  (forall e, acts_as j (k e) (gk e)) ->
  acts_as j (withElement j k) (fun e => gk e e).
Proof.
  intros Hk.
  split; [apply total_withElement; intros e; apply Hk|].
  split; [apply local_at_withElement; intros e; apply Hk|].
  intros d e He. unfold withElement. rewrite He. by apply Hk.
Qed.

Lemma acts_as_ext j a g g' : (forall e, g e = g' e) -> acts_as j a g -> acts_as j a g'.
Proof.
  intros Hg (Ta & La & Ga). split; [done|]. split; [done|].
  intros d e He. rewrite <- Hg. by apply Ga.
Qed.

Lemma acts_as_updateStyle D j prop lv dv :
  acts_as j (updateStyle D j prop lv dv) (guard_step D prop lv dv).
Proof.
  unfold updateStyle.
  apply (acts_as_ext j _ (fun e => guard_step D prop lv dv e)); [done|].
  apply (acts_as_withElement j _ (fun e0 e =>
           if negb (String.eqb (style_read (style e0) prop) (if D then dv else lv))
           then restyle prop (if D then dv else lv) e else e)).
  intros e. cbv zeta. destruct (negb (String.eqb _ _)).
  - apply acts_as_set_style.
  - apply acts_as_skip.
Qed.

(** An action that acts as a function which keeps the markup keeps the
    markup of the document. *)
Lemma acts_as_same_markup j a g :
  acts_as j a g -> (forall e, same_markup e (g e)) ->
  preserves (keeps same_markup) a.
Proof.
  intros (Ta & La & Ga) Hg d. destruct (La d) as (Hb & Hlen & Hother & _).
  split; [done|]. apply Forall2_same_length_lookup_2; [done|].
  intros i e e' He He'. destruct (decide (i = j)) as [->|Hne].
  - rewrite (Ga d e He) in He'. injection He' as <-. apply Hg.
  - rewrite Hother, He in He' by done. by injection He' as <-.
Qed.

(** A pass with a selector that reads the markup only, in a document
    [d] that has the markup of [d0]. *)
Lemma markup_pass_exact sel (f : nat -> Action) (g : Element -> Element) d0 d i e0 e :
  markup_selector sel = true ->
  (forall j, acts_as j (f j) g) -> (forall e, same_markup e (g e)) ->
  keeps same_markup d0 d ->
  elements d0 !! i = Some e0 -> elements d !! i = Some e ->
  keeps same_markup d0 (final (updateElements sel f d)) /\
  elements (final (updateElements sel f d)) !! i = Some (when (matches d0 e0 sel) g e) /\
  completion (updateElements sel f d) = Normal.
Proof.
  intros Hsel Hf Hg Hk He0 He. split; [|split].
  - etrans; [exact Hk|]. apply preserves_updateElements; [apply _|].
    intros j. by apply (acts_as_same_markup j (f j) g).
  - rewrite (updateElements_exact sel f g d i e); [|intros j; apply Hf..|done].
    pose proof (matches_at_markup sel d0 d i Hsel Hk) as Hm.
    unfold matches_at in Hm. rewrite He0, He in Hm. by rewrite Hm.
  - apply total_updateElements. intros j. apply Hf.
Qed.

(** *** The callbacks of the reactable block *)

Lemma acts_as_rows_callback D j : acts_as j (Extended.rows_callback D j) (rows_step D).
Proof. apply acts_as_updateStyle. Qed.

Lemma acts_as_search_callback D j :
  acts_as j (Extended.search_callback D j) (search_step D).
Proof.
  unfold Extended.search_callback, search_step.
  destruct D;
    apply (acts_as_andThen j _ _ (fun e => restyle "color" _ (restyle "backgroundColor" _ e))
             (restyle "borderColor" _));
    try apply acts_as_set_style;
    apply (acts_as_andThen j _ _ (restyle "backgroundColor" _) (restyle "color" _));
    apply acts_as_set_style.
Qed.

Lemma acts_as_button_callback_1 D j :
  acts_as j (Extended.button_callback_1 D j) (button_step_1 D).
Proof.
  unfold Extended.button_callback_1, button_step_1.
  destruct D; [|apply acts_as_skip].
  repeat first
    [ apply acts_as_set_style
    | apply acts_as_addEventListener
    | eapply (acts_as_andThen j _ _ _ (with_listener _ _)) ].
Qed.

Lemma acts_as_button_callback_2 D j :
  acts_as j (Extended.button_callback_2 D j) (button_step_2 D).
Proof.
  unfold Extended.button_callback_2, button_step_2.
  destruct D; [|apply acts_as_set_style].
  repeat first
    [ apply acts_as_set_style
    | apply acts_as_addEventListener
    | eapply (acts_as_andThen j _ _ _ (with_listener _ _)) ].
Qed.

Lemma acts_as_nav_button_callback D j :
  acts_as j (Extended.nav_button_callback D j) (nav_step D).
Proof.
  unfold Extended.nav_button_callback, nav_step. destruct D; apply acts_as_set_style.
Qed.

Lemma acts_as_current_button_callback D j :
  acts_as j (Extended.current_button_callback D j) (current_step D).
Proof.
  unfold Extended.current_button_callback, current_step.
  destruct D;
    apply (acts_as_andThen j _ _ (restyle "backgroundColor" _) (restyle "color" _));
    apply acts_as_set_style.
Qed.

Lemma acts_as_sort_header_callback D j :
  acts_as j (Extended.sort_header_callback D j) (sort_step D).
Proof.
  unfold Extended.sort_header_callback, sort_step. destruct D; apply acts_as_set_style.
Qed.

Lemma same_markup_steps D :
  (forall e, same_markup e (rows_step D e)) /\
  (forall e, same_markup e (search_step D e)) /\
  (forall e, same_markup e (button_step_1 D e)) /\
  (forall e, same_markup e (button_step_2 D e)) /\
  (forall e, same_markup e (nav_step D e)) /\
  (forall e, same_markup e (current_step D e)) /\
  (forall e, same_markup e (sort_step D e)).
Proof.
  unfold rows_step, guard_step, search_step, button_step_1, button_step_2,
    nav_step, current_step, sort_step.
  repeat split; destruct D; try done; by destruct (negb _).
Qed.

(** One run of the reactable callback, element by element. *)
Lemma reactable_callback_at D k d0 d i e0 e :
  keeps same_markup d0 d ->
  elements d0 !! i = Some e0 -> elements d !! i = Some e ->
  keeps same_markup d0 (final (Extended.reactable_callback D k d)) /\
  elements (final (Extended.reactable_callback D k d)) !! i =
    Some (reactable_step D (matches d0 e0) e).
Proof.
  intros Hk He0 He. unfold Extended.reactable_callback, reactable_step.
  destruct (same_markup_steps D) as (S1 & S2 & S3 & S4 & S5 & S6 & S7).
  destruct (markup_pass_exact sel_rt_rows (Extended.rows_callback D) (rows_step D)
              d0 d i e0 e eq_refl (acts_as_rows_callback D) S1 Hk He0 He)
    as (Hk1 & He1 & Hc1).
  set (a1 := updateElements sel_rt_rows (Extended.rows_callback D)) in *.
  destruct (markup_pass_exact sel_rt_search (Extended.search_callback D) (search_step D)
              d0 _ i e0 _ eq_refl (acts_as_search_callback D) S2 Hk1 He0 He1)
    as (Hk2 & He2 & Hc2).
  assert (H2 : completion ((a1 >> updateElements sel_rt_search
                                    (Extended.search_callback D)) d) = Normal).
  { by rewrite andThen_normal. }
  assert (F2 : final ((a1 >> updateElements sel_rt_search
                               (Extended.search_callback D)) d)
               = final (updateElements sel_rt_search (Extended.search_callback D)
                          (final (a1 d)))).
  { by rewrite andThen_normal. }
  rewrite <- F2 in Hk2, He2. clear F2 Hc2.
  set (a2 := a1 >> updateElements sel_rt_search (Extended.search_callback D)) in *.
  destruct (markup_pass_exact sel_rt_pagination_button (Extended.button_callback_1 D)
              (button_step_1 D) d0 _ i e0 _ eq_refl (acts_as_button_callback_1 D)
              S3 Hk2 He0 He2) as (Hk3 & He3 & Hc3).
  assert (H3 : completion ((a2 >> updateElements sel_rt_pagination_button
                                    (Extended.button_callback_1 D)) d) = Normal).
  { by rewrite andThen_normal. }
  assert (F3 : final ((a2 >> updateElements sel_rt_pagination_button
                               (Extended.button_callback_1 D)) d)
               = final (updateElements sel_rt_pagination_button
                          (Extended.button_callback_1 D) (final (a2 d)))).
  { by rewrite andThen_normal. }
  rewrite <- F3 in Hk3, He3. clear F3 Hc3.
  set (a3 := a2 >> updateElements sel_rt_pagination_button
                     (Extended.button_callback_1 D)) in *.
  destruct (markup_pass_exact sel_rt_pagination_button (Extended.button_callback_2 D)
              (button_step_2 D) d0 _ i e0 _ eq_refl (acts_as_button_callback_2 D)
              S4 Hk3 He0 He3) as (Hk4 & He4 & Hc4).
  assert (H4 : completion ((a3 >> updateElements sel_rt_pagination_button
                                    (Extended.button_callback_2 D)) d) = Normal).
  { by rewrite andThen_normal. }
  assert (F4 : final ((a3 >> updateElements sel_rt_pagination_button
                               (Extended.button_callback_2 D)) d)
               = final (updateElements sel_rt_pagination_button
                          (Extended.button_callback_2 D) (final (a3 d)))).
  { by rewrite andThen_normal. }
  rewrite <- F4 in Hk4, He4. clear F4 Hc4.
  set (a4 := a3 >> updateElements sel_rt_pagination_button
                     (Extended.button_callback_2 D)) in *.
  destruct (markup_pass_exact sel_rt_pagination_nav_button
              (Extended.nav_button_callback D) (nav_step D) d0 _ i e0 _ eq_refl
              (acts_as_nav_button_callback D) S5 Hk4 He0 He4) as (Hk5 & He5 & Hc5).
  assert (H5 : completion ((a4 >> updateElements sel_rt_pagination_nav_button
                                    (Extended.nav_button_callback D)) d) = Normal).
  { by rewrite andThen_normal. }
  assert (F5 : final ((a4 >> updateElements sel_rt_pagination_nav_button
                               (Extended.nav_button_callback D)) d)
               = final (updateElements sel_rt_pagination_nav_button
                          (Extended.nav_button_callback D) (final (a4 d)))).
  { by rewrite andThen_normal. }
  rewrite <- F5 in Hk5, He5. clear F5 Hc5.
  set (a5 := a4 >> updateElements sel_rt_pagination_nav_button
                     (Extended.nav_button_callback D)) in *.
  destruct (markup_pass_exact sel_rt_page_button_current
              (Extended.current_button_callback D) (current_step D) d0 _ i e0 _ eq_refl
              (acts_as_current_button_callback D) S6 Hk5 He0 He5) as (Hk6 & He6 & Hc6).
  assert (H6 : completion ((a5 >> updateElements sel_rt_page_button_current
                                    (Extended.current_button_callback D)) d) = Normal).
  { by rewrite andThen_normal. }
  assert (F6 : final ((a5 >> updateElements sel_rt_page_button_current
                               (Extended.current_button_callback D)) d)
               = final (updateElements sel_rt_page_button_current
                          (Extended.current_button_callback D) (final (a5 d)))).
  { by rewrite andThen_normal. }
  rewrite <- F6 in Hk6, He6. clear F6 Hc6.
  set (a6 := a5 >> updateElements sel_rt_page_button_current
                     (Extended.current_button_callback D)) in *.
  destruct (markup_pass_exact sel_rt_sort_header
              (Extended.sort_header_callback D) (sort_step D) d0 _ i e0 _ eq_refl
              (acts_as_sort_header_callback D) S7 Hk6 He0 He6) as (Hk7 & He7 & Hc7).
  rewrite andThen_normal by done. cbn [final]. by split.
Qed.

(** The loop over the reactable elements runs the callback once for each
    of them, on the whole document. *)
Lemma reactable_loop_at D l d0 d i e0 e :
  keeps same_markup d0 d ->
  elements d0 !! i = Some e0 -> elements d !! i = Some e ->
  keeps same_markup d0 (final (forEach l (Extended.reactable_callback D) d)) /\
  elements (final (forEach l (Extended.reactable_callback D) d)) !! i =
    Some (Nat.iter (length l) (reactable_step D (matches d0 e0)) e).
Proof.
  revert d e. induction l as [|k l IH]; intros d e Hk He0 He; [by split|].
  simpl forEach. rewrite andThen_normal by apply total_reactable_callback.
  cbn [final].
  destruct (reactable_callback_at D k d0 d i e0 e Hk He0 He) as (Hk1 & He1).
  destruct (IH _ _ Hk1 He0 He1) as (Hk2 & He2).
  split; [done|]. rewrite He2. f_equal. simpl length.
  by rewrite Nat.iter_succ_r.
Qed.

Lemma reactable_pass_at D d i e :
  elements d !! i = Some e ->
  elements (final (reactable_pass D d)) !! i =
    Some (Nat.iter (length (querySelectorAll sel_reactable d))
            (reactable_step D (matches d e)) e).
Proof.
  intros He. unfold reactable_pass, updateElements.
  by apply (reactable_loop_at D _ d d i e e); [reflexivity|..].
Qed.

(** *** The styles the reactable block leaves *)

Lemma get_restyle prop v e name :
  StyleDecl.get (style (restyle prop v e)) name =
  if String.eqb (css_name prop) name then v else StyleDecl.get (style e) name.
Proof. apply get_style_write. Qed.

Lemma get_when b g e name :
  StyleDecl.get (style (when b g e)) name =
  if b then StyleDecl.get (style (g e)) name else StyleDecl.get (style e) name.
Proof. by destruct b. Qed.

Lemma get_guard_step D prop lv dv e name :
  StyleDecl.get (style (guard_step D prop lv dv e)) name =
  if String.eqb (css_name prop) name then (if D then dv else lv)
  else StyleDecl.get (style e) name.
Proof.
  unfold guard_step.
  destruct (String.eqb_spec (style_read (style e) prop) (if D then dv else lv))
    as [Heq|Hne]; simpl.
  - destruct (String.eqb_spec (css_name prop) name) as [<-|]; [|done].
    by rewrite <- Heq.
  - apply get_restyle.
Qed.

Lemma get_rows_step D e name :
  StyleDecl.get (style (rows_step D e)) name =
  if String.eqb "color" name then (if D then "white" else "")
  else StyleDecl.get (style e) name.
Proof. unfold rows_step. rewrite get_guard_step. by destruct D. Qed.

Lemma get_search_step D e name :
  StyleDecl.get (style (search_step D e)) name =
  if String.eqb "border-color" name then (if D then "rgba(255, 255, 255, 0.2)" else "")
  else if String.eqb "color" name then (if D then "white" else "")
  else if String.eqb "background-color" name then (if D then "rgb(50, 50, 50)" else "")
  else StyleDecl.get (style e) name.
Proof. unfold search_step. destruct D; by rewrite !get_restyle. Qed.

Lemma get_button_step_1 D e name :
  StyleDecl.get (style (button_step_1 D e)) name =
  if D && String.eqb "transition" name then "background-color 0.2s"
  else StyleDecl.get (style e) name.
Proof.
  unfold button_step_1. destruct D; [|done]. cbn [with_listener style].
  by rewrite get_restyle.
Qed.

Lemma get_button_step_2 D e name :
  StyleDecl.get (style (button_step_2 D e)) name =
  if String.eqb "transition" name then (if D then "background-color 0.2s" else "")
  else StyleDecl.get (style e) name.
Proof.
  unfold button_step_2. destruct D; [cbn [with_listener style]|];
    by rewrite get_restyle.
Qed.

Lemma get_nav_step D e name :
  StyleDecl.get (style (nav_step D e)) name =
  if String.eqb "color" name then (if D then "rgba(255, 255, 255, 0.7)" else "")
  else StyleDecl.get (style e) name.
Proof. unfold nav_step. destruct D; by rewrite get_restyle. Qed.

Lemma get_current_step D e name :
  StyleDecl.get (style (current_step D e)) name =
  if String.eqb "color" name then (if D then "white" else "")
  else if String.eqb "background-color" name
       then (if D then "rgba(255, 255, 255, 0.2)" else "")
  else StyleDecl.get (style e) name.
Proof. unfold current_step. destruct D; by rewrite !get_restyle. Qed.

Lemma get_sort_step D e name :
  StyleDecl.get (style (sort_step D e)) name =
  if String.eqb "color" name then (if D then "white" else "")
  else StyleDecl.get (style e) name.
Proof. unfold sort_step. destruct D; by rewrite get_restyle. Qed.

(** One run of the callback: the last writer of a declaration wins. *)
Lemma get_reactable_step D m e name :
  StyleDecl.get (style (reactable_step D m e)) name =
  match reactable_value D m name with
  | Some v => v
  | None => StyleDecl.get (style e) name
  end.
Proof.
  unfold reactable_step.
  rewrite get_when, get_sort_step, get_when, get_current_step, get_when, get_nav_step,
    get_when, get_button_step_2, get_when, get_button_step_1, get_when,
    get_search_step, get_when, get_rows_step.
  unfold reactable_value. rewrite !(String.eqb_sym _ name).
  destruct (String.eqb_spec name "color") as [->|H1].
  { destruct D, (m sel_rt_sort_header), (m sel_rt_page_button_current),
      (m sel_rt_pagination_nav_button), (m sel_rt_pagination_button),
      (m sel_rt_search), (m sel_rt_rows); reflexivity. }
  destruct (String.eqb_spec name "background-color") as [->|H2].
  { destruct D, (m sel_rt_sort_header), (m sel_rt_page_button_current),
      (m sel_rt_pagination_nav_button), (m sel_rt_pagination_button),
      (m sel_rt_search), (m sel_rt_rows); reflexivity. }
  destruct (String.eqb_spec name "border-color") as [->|H3].
  { destruct D, (m sel_rt_sort_header), (m sel_rt_page_button_current),
      (m sel_rt_pagination_nav_button), (m sel_rt_pagination_button),
      (m sel_rt_search), (m sel_rt_rows); reflexivity. }
  destruct (String.eqb_spec name "transition") as [->|H4].
  { destruct D, (m sel_rt_sort_header), (m sel_rt_page_button_current),
      (m sel_rt_pagination_nav_button), (m sel_rt_pagination_button),
      (m sel_rt_search), (m sel_rt_rows); reflexivity. }
  rewrite andb_false_r.
  destruct (m sel_rt_sort_header), (m sel_rt_page_button_current),
    (m sel_rt_pagination_nav_button), (m sel_rt_pagination_button),
    (m sel_rt_search), (m sel_rt_rows); reflexivity.
Qed.

Lemma get_reactable_iter D m n e name :
  StyleDecl.get (style (Nat.iter (S n) (reactable_step D m) e)) name =
  match reactable_value D m name with
  | Some v => v
  | None => StyleDecl.get (style e) name
  end.
Proof.
  induction n as [|n IH].
  - apply get_reactable_step.
  - change (Nat.iter (S (S n)) (reactable_step D m) e)
      with (reactable_step D m (Nat.iter (S n) (reactable_step D m) e)).
    rewrite get_reactable_step. destruct (reactable_value D m name); [done|].
    exact IH.
Qed.

(** The table of one run depends on the markup only. *)
Lemma reactable_value_markup D d d' i e e' name :
  keeps same_markup d d' -> elements d !! i = Some e -> elements d' !! i = Some e' ->
  reactable_value D (matches d' e') name = reactable_value D (matches d e) name.
Proof.
  intros Hk He He'.
  assert (Hm : forall sel, markup_selector sel = true ->
                           matches d' e' sel = matches d e sel).
  { intros sel Hsel. pose proof (matches_at_markup sel d d' i Hsel Hk) as Hm.
    unfold matches_at in Hm. by rewrite He, He' in Hm. }
  unfold reactable_value. by rewrite !Hm.
Qed.

Section ReactableValues.
Context `{Browser}.

(** The declarations of an element after a call of the extended version
    that ended, in a document with a reactable element. *)
Lemma extended_run_reactable_value d i e :
  elements d !! i = Some e ->
  isLightMode d || isDarkMode d = true ->
  completion (run ExtendedVariant d) = Normal ->
  querySelectorAll sel_reactable d <> [] ->
  exists e',
    elements (final (run ExtendedVariant d)) !! i = Some e' /\
    forall name v,
      reactable_value (isDarkMode d) (matches d e) name = Some v ->
      StyleDecl.get (style e') name = v.
Proof.
  intros He Hmode. rewrite run_passes by done. simpl passes_of.
  rewrite extended_passes_common. intros Hc HR.
  apply andThen_completes in Hc as [Hc _].
  rewrite andThen_normal by done. cbn [final].
  set (L := isLightMode d) in *. set (D := isDarkMode d) in *.
  pose proof (common_passes_same_listeners L D "rgb(204,193,183)" d) as Hk.
  apply (keeps_impl same_listeners same_markup) in Hk; [|by intros ?? [? _]].
  set (d5 := final (common_passes L D "rgb(204,193,183)" d)) in *.
  destruct (keeps_lookup _ _ _ _ _ Hk He) as (e5 & He5 & _).
  fold (reactable_pass D). rewrite (reactable_pass_at D d5 i e5 He5).
  rewrite <- (querySelectorAll_markup sel_reactable d d5 eq_refl Hk).
  destruct (querySelectorAll sel_reactable d) as [|k l]; [done|].
  eexists. split; [done|]. intros name v Hv. simpl length.
  rewrite get_reactable_iter.
  by rewrite (reactable_value_markup D d d5 i e e5 name Hk He He5), Hv.
Qed.

End ReactableValues.

Lemma read_as_get st :
  style_read st "color" = StyleDecl.get st "color" /\
  style_read st "backgroundColor" = StyleDecl.get st "background-color" /\
  style_read st "borderColor" = StyleDecl.get st "border-color" /\
  style_read st "transition" = StyleDecl.get st "transition".
Proof. done. Qed.

Lemma reactable_value_names D m :
  reactable_value D m "color" =
    (if m sel_rt_sort_header then Some (if D then "white" else "")
     else if m sel_rt_page_button_current then Some (if D then "white" else "")
     else if m sel_rt_pagination_nav_button
          then Some (if D then "rgba(255, 255, 255, 0.7)" else "")
     else if m sel_rt_search then Some (if D then "white" else "")
     else if m sel_rt_rows then Some (if D then "white" else "")
     else None) /\
  reactable_value D m "background-color" =
    (if m sel_rt_page_button_current
     then Some (if D then "rgba(255, 255, 255, 0.2)" else "")
     else if m sel_rt_search then Some (if D then "rgb(50, 50, 50)" else "")
     else None) /\
  reactable_value D m "border-color" =
    (if m sel_rt_search then Some (if D then "rgba(255, 255, 255, 0.2)" else "")
     else None) /\
  reactable_value D m "transition" =
    (if m sel_rt_pagination_button
     then Some (if D then "background-color 0.2s" else "")
     else None).
Proof. done. Qed.

(** In dark mode, with a reactable element in the document, a call of the
    extended version that ends leaves these values on the parts of the
    table, wherever in the document they are: a sort header is white; the
    current page button has the background [rgba(255, 255, 255, 0.2)] and
    is white; a navigation button is [rgba(255, 255, 255, 0.7)] unless it
    is the current one or a sort header; a search input has the border
    [rgba(255, 255, 255, 0.2)] and the background [rgb(50, 50, 50)] unless
    it is the current page button; rows and the search input are white
    unless they are navigation buttons; a pagination button has the
    transition [background-color 0.2s]. *)
Theorem reactable_dark_values `{Browser} d i e :
  elements d !! i = Some e ->
  isDarkMode d = true ->
  completion (run ExtendedVariant d) = Normal ->
  querySelectorAll sel_reactable d <> [] ->
  exists e',
    elements (final (run ExtendedVariant d)) !! i = Some e' /\
    (matches d e sel_rt_sort_header = true ->
     style_read (style e') "color" = "white") /\
    (matches d e sel_rt_page_button_current = true ->
     style_read (style e') "backgroundColor" = "rgba(255, 255, 255, 0.2)" /\
     style_read (style e') "color" = "white") /\
    (matches d e sel_rt_pagination_nav_button = true ->
     style_read (style e') "color" =
       if matches d e sel_rt_sort_header || matches d e sel_rt_page_button_current
       then "white" else "rgba(255, 255, 255, 0.7)") /\
    (matches d e sel_rt_search = true ->
     style_read (style e') "borderColor" = "rgba(255, 255, 255, 0.2)" /\
     style_read (style e') "backgroundColor" =
       if matches d e sel_rt_page_button_current
       then "rgba(255, 255, 255, 0.2)" else "rgb(50, 50, 50)") /\
    (matches d e sel_rt_rows = true \/ matches d e sel_rt_search = true ->
     style_read (style e') "color" =
       if matches d e sel_rt_pagination_nav_button
          && negb (matches d e sel_rt_sort_header
                   || matches d e sel_rt_page_button_current)
       then "rgba(255, 255, 255, 0.7)" else "white") /\
    (matches d e sel_rt_pagination_button = true ->
     style_read (style e') "transition" = "background-color 0.2s").
Proof.
  intros He HD Hc HR.
  destruct (extended_run_reactable_value d i e He) as (e' & He' & Hv);
    [by rewrite HD, orb_true_r|done..|].
  rewrite HD in Hv. exists e'. split; [done|].
  destruct (read_as_get (style e')) as (-> & -> & -> & ->).
  destruct (reactable_value_names true (matches d e)) as (Vc & Vbg & Vbd & Vt).
  split; [|split; [|split; [|split; [|split]]]].
  - intros Hm. apply Hv. by rewrite Vc, Hm.
  - intros Hm. split; apply Hv.
    + by rewrite Vbg, Hm.
    + rewrite Vc, Hm. by destruct (matches d e sel_rt_sort_header).
  - intros Hm. apply Hv. rewrite Vc, Hm.
    by destruct (matches d e sel_rt_sort_header),
         (matches d e sel_rt_page_button_current).
  - intros Hm. split; apply Hv.
    + by rewrite Vbd, Hm.
    + rewrite Vbg, Hm. by destruct (matches d e sel_rt_page_button_current).
  - intros Hm. apply Hv. rewrite Vc.
    destruct (matches d e sel_rt_sort_header),
      (matches d e sel_rt_page_button_current),
      (matches d e sel_rt_pagination_nav_button); try done.
    destruct Hm as [Hm|Hm]; rewrite Hm; [|done].
    by destruct (matches d e sel_rt_search).
  - intros Hm. apply Hv. by rewrite Vt, Hm.
Qed.

Lemma reactable_dark_values_witness :
  exists e',
    elements (final (run (H := plain_browser) ExtendedVariant
                       (table_page ["quarto-dark"]))) !! 7 = Some e' /\
    style_read (style e') "backgroundColor" = "rgba(255, 255, 255, 0.2)" /\
    style_read (style e') "color" = "white" /\
    style_read (style e') "transition" = "background-color 0.2s".
Proof.
  destruct (reactable_dark_values (H := plain_browser) (table_page ["quarto-dark"]) 7
              (node "button" ["rt-page-button"; "rt-page-button-current"] (Some 5)))
    as (e' & He' & _ & Hcur & _ & _ & _ & Hbtn);
    [vm_compute; reflexivity|vm_compute; reflexivity|vm_compute; reflexivity
    |vm_compute; discriminate|].
  exists e'. split; [exact He'|].
  destruct Hcur as [Hbg Hcol]; [vm_compute; reflexivity|].
  split; [exact Hbg|]. split; [exact Hcol|]. apply Hbtn. vm_compute. reflexivity.
Defined.

(** In light mode (the light class without the dark one), with a
    reactable element in the document, a call of the extended version
    that ends leaves none of the declarations the block writes: no colour
    on rows, search input, navigation buttons, current page button and
    sort headers, no background on the current page button and the search
    input, no border colour on the search input, no transition on the
    pagination buttons. *)
Theorem reactable_light_clears `{Browser} d i e :
  elements d !! i = Some e ->
  isLightMode d = true -> isDarkMode d = false ->
  completion (run ExtendedVariant d) = Normal ->
  querySelectorAll sel_reactable d <> [] ->
  exists e',
    elements (final (run ExtendedVariant d)) !! i = Some e' /\
    (matches d e (sel_rt_rows ++ sel_rt_search ++ sel_rt_pagination_nav_button
                  ++ sel_rt_page_button_current ++ sel_rt_sort_header) = true ->
     style_read (style e') "color" = "") /\
    (matches d e (sel_rt_search ++ sel_rt_page_button_current) = true ->
     style_read (style e') "backgroundColor" = "") /\
    (matches d e sel_rt_search = true -> style_read (style e') "borderColor" = "") /\
    (matches d e sel_rt_pagination_button = true ->
     style_read (style e') "transition" = "").
Proof.
  intros He HL HD Hc HR.
  destruct (extended_run_reactable_value d i e He) as (e' & He' & Hv);
    [by rewrite HL|done..|].
  rewrite HD in Hv. exists e'. split; [done|].
  destruct (read_as_get (style e')) as (-> & -> & -> & ->).
  destruct (reactable_value_names false (matches d e)) as (Vc & Vbg & Vbd & Vt).
  rewrite !matches_app.
  split; [|split; [|split]]; intros Hm; apply Hv.
  - rewrite Vc.
    destruct (matches d e sel_rt_sort_header),
      (matches d e sel_rt_page_button_current),
      (matches d e sel_rt_pagination_nav_button),
      (matches d e sel_rt_search), (matches d e sel_rt_rows); done.
  - rewrite Vbg.
    destruct (matches d e sel_rt_page_button_current),
      (matches d e sel_rt_search); done.
  - by rewrite Vbd, Hm.
  - by rewrite Vt, Hm.
Qed.

Lemma reactable_light_clears_witness :
  exists e',
    elements (final (run (H := plain_browser) ExtendedVariant
                (set_body_classes ["quarto-light"]
                   (final (run (H := plain_browser) ExtendedVariant
                             (table_page ["quarto-dark"])))))) !! 2
      = Some e' /\
    style_read (style e') "color" = "" /\
    style_read (style e') "backgroundColor" = "" /\
    style_read (style e') "borderColor" = "".
Proof.
  edestruct (reactable_light_clears (H := plain_browser)
               (set_body_classes ["quarto-light"]
                  (final (run (H := plain_browser) ExtendedVariant
                            (table_page ["quarto-dark"])))) 2)
    as (e' & He' & Hcol & Hbg & Hbd & _).
  - vm_compute. reflexivity.
  - vm_compute. reflexivity.
  - vm_compute. reflexivity.
  - vm_compute. reflexivity.
  - vm_compute. discriminate.
  - exists e'. split; [exact He'|].
    split; [apply Hcol; vm_compute; reflexivity|].
    split; [apply Hbg; vm_compute; reflexivity|apply Hbd; vm_compute; reflexivity].
Defined.

(** *** One run of the callback for each table *)

Lemma reactable_step_fields D m e :
  same_markup e (reactable_step D m e) /\
  src (reactable_step D m e) = src e /\
  originalStyle (reactable_step D m e) = originalStyle e /\
  listeners (reactable_step D m e) = listeners e ++ added_listeners D m.
Proof.
  unfold reactable_step, added_listeners, when, sort_step, current_step, nav_step,
    button_step_2, button_step_1, search_step, rows_step, guard_step.
  destruct D, (m sel_rt_sort_header), (m sel_rt_page_button_current),
    (m sel_rt_pagination_nav_button), (m sel_rt_pagination_button),
    (m sel_rt_search), (m sel_rt_rows);
    try destruct (negb _);
    cbn [andb with_listener restyle with_style tagName classList parent src
         originalStyle listeners style];
    rewrite <- ?app_assoc, ?app_nil_r; done.
Qed.

Lemma reactable_iter_fields D m n e :
  same_markup e (Nat.iter n (reactable_step D m) e) /\
  src (Nat.iter n (reactable_step D m) e) = src e /\
  originalStyle (Nat.iter n (reactable_step D m) e) = originalStyle e /\
  listeners (Nat.iter n (reactable_step D m) e) =
    listeners e ++ concat (replicate n (added_listeners D m)).
Proof.
  induction n as [|n (IH1 & IH2 & IH3 & IH4)].
  - simpl. by rewrite app_nil_r.
  - change (Nat.iter (S n) (reactable_step D m) e)
      with (reactable_step D m (Nat.iter n (reactable_step D m) e)).
    destruct (reactable_step_fields D m (Nat.iter n (reactable_step D m) e))
      as (S1 & S2 & S3 & S4).
    split; [by etrans|]. split; [congruence|]. split; [congruence|].
    rewrite S4, IH4, <- app_assoc. f_equal.
    change (S n) with (1 + n). rewrite Nat.add_comm, replicate_add, concat_app.
    simpl. by rewrite app_nil_r.
Qed.

(** The callback of [.reactable] runs once for each such element, each
    time over the reactable parts of the whole document.  With [R >= 1]
    of them the pass leaves the style values, source, snapshot and markup
    one run of the callback leaves, and [R] times the listeners one run
    adds. *)
Theorem reactable_tables_repeat D d k i e :
  elements d !! i = Some e ->
  querySelectorAll sel_reactable d <> [] ->
  exists e1 eR,
    elements (final (Extended.reactable_callback D k d)) !! i = Some e1 /\
    elements (final (updateElements sel_reactable (Extended.reactable_callback D) d)) !! i
      = Some eR /\
    (forall name, StyleDecl.get (style eR) name = StyleDecl.get (style e1) name) /\
    src eR = src e1 /\ originalStyle eR = originalStyle e1 /\ same_markup e1 eR /\
    listeners e1 = listeners e ++ added_listeners D (matches d e) /\
    listeners eR =
      listeners e ++
      concat (replicate (length (querySelectorAll sel_reactable d))
                (added_listeners D (matches d e))).
Proof.
  intros He HR.
  destruct (reactable_callback_at D k d d i e e) as (_ & He1); [reflexivity|done..|].
  pose proof (reactable_pass_at D d i e He) as HeR. unfold reactable_pass in HeR.
  destruct (querySelectorAll sel_reactable d) as [|k0 l] eqn:Hq; [done|].
  simpl length in *.
  set (m := matches d e) in *.
  destruct (reactable_step_fields D m e) as (S1 & S2 & S3 & S4).
  destruct (reactable_iter_fields D m (S (length l)) e) as (I1 & I2 & I3 & I4).
  eexists _, _. split; [exact He1|]. split; [exact HeR|].
  split; [|split; [congruence|split; [congruence|split; [|done]]]].
  - intros name. by rewrite get_reactable_iter, get_reactable_step.
  - destruct S1 as (?&?&?), I1 as (?&?&?). repeat split; congruence.
Qed.

Lemma reactable_tables_repeat_witness :
  exists e1 eR,
    elements (final (Extended.reactable_callback true 1
                       (two_tables_page ["quarto-dark"]))) !! 3 = Some e1 /\
    elements (final (updateElements sel_reactable (Extended.reactable_callback true)
                       (two_tables_page ["quarto-dark"]))) !! 3 = Some eR /\
    (forall name, StyleDecl.get (style eR) name = StyleDecl.get (style e1) name) /\
    length (listeners e1) = 7 /\ length (listeners eR) = 14.
Proof.
  destruct (reactable_tables_repeat true (two_tables_page ["quarto-dark"]) 1 3
              (node "button" ["rt-page-button"] (Some 2)))
    as (e1 & eR & H1 & HR & Hst & _ & _ & _ & L1 & LR);
    [vm_compute; reflexivity|vm_compute; discriminate|].
  exists e1, eR. split; [exact H1|]. split; [exact HR|]. split; [exact Hst|].
  rewrite L1, LR. split; vm_compute; reflexivity.
Defined.

(** ** What a call never touches *)


Lemma passes_by_andThen d0 i e a b :
  passes_by d0 i e a -> passes_by d0 i e b -> passes_by d0 i e (a >> b).
Proof.
  intros Ha Hb d Hk He. destruct (Ha d Hk He) as (Hk1 & He1 & Hw1).
  unfold andThen. destruct (completion (a d)); [|done].
  destruct (Hb _ Hk1 He1) as (Hk2 & He2 & Hw2). cbn [final writes].
  split; [done|]. split; [done|]. by rewrite writes_at_app, Hw1, Hw2.
Qed.

Lemma passes_by_forEach d0 i e l (f : nat -> Action) :
  (forall k, passes_by d0 i e (f k)) -> passes_by d0 i e (forEach l f).
Proof.
  intros Hf. induction l as [|k l IH]; [by intros d Hk He|].
  simpl. by apply passes_by_andThen.
Qed.

(** A pass whose selector does not match the element passes by it. *)
Lemma passes_by_pass d0 i e sel (f : nat -> Action) :
  (forall j, local_at j (f j)) ->
  preserves (keeps same_markup) (updateElements sel f) ->
  (forall d, keeps same_markup d0 d -> elements d !! i = Some e ->
             matches d e sel = false) ->
  passes_by d0 i e (updateElements sel f).
Proof.
  intros Hlocal Hpres Hm d Hk He.
  split; [etrans; [exact Hk|apply Hpres]|].
  unfold updateElements.
  destruct (forEach_notin f Hlocal (querySelectorAll sel d) d i) as [Hf Hw].
  - rewrite elem_of_querySelectorAll. unfold matches_at. by rewrite He, (Hm d Hk He).
  - by rewrite Hf.
Qed.

Lemma passes_by_markup_pass d0 i e sel (f : nat -> Action) :
  markup_selector sel = true ->
  (forall j, local_at j (f j)) ->
  preserves (keeps same_markup) (updateElements sel f) ->
  elements d0 !! i = Some e -> matches d0 e sel = false ->
  passes_by d0 i e (updateElements sel f).
Proof.
  intros Hsel Hlocal Hpres He0 Hm. apply passes_by_pass; [done..|].
  intros d Hk He. pose proof (matches_at_markup sel d0 d i Hsel Hk) as Hmm.
  unfold matches_at in Hmm. rewrite He0, He in Hmm. by rewrite <- Hmm.
Qed.

Lemma passes_by_style_pass d0 d1 i e tag prop (f : nat -> Action) :
  (forall j, local_at j (f j)) ->
  preserves (keeps same_markup)
    (updateElements [[[Tag tag; AttrContains "style" prop]]] f) ->
  matches d1 e [[[Tag tag; AttrContains "style" prop]]] = false ->
  passes_by d0 i e (updateElements [[[Tag tag; AttrContains "style" prop]]] f).
Proof.
  intros Hlocal Hpres Hm. apply passes_by_pass; [done..|].
  intros d _ _. rewrite matches_style_selector in *. done.
Qed.

Section Untouched.
Context `{Browser}.

Lemma common_passes_by L D c d0 i e :
  elements d0 !! i = Some e ->
  matches d0 e (sel_img ++ sel_svg_background ++ sel_rect_fill ++ sel_text ++ sel_gt)
    = false ->
  passes_by d0 i e (common_passes L D c).
Proof.
  intros He0 Hm. rewrite !matches_app in Hm.
  apply orb_false_iff in Hm as [M1 Hm]. apply orb_false_iff in Hm as [M2 Hm].
  apply orb_false_iff in Hm as [M3 Hm]. apply orb_false_iff in Hm as [M4 M5].
  destruct same_markup_permits as (Psrc & Pst & Pl & Pd).
  unfold common_passes, before_text.
  repeat apply passes_by_andThen.
  - apply passes_by_markup_pass; [done|apply local_at_img_callback| |done..].
    by apply img_pass_preserves; [apply _|].
  - apply (passes_by_style_pass d0 d0); [intros j; apply local_at_updateStyle| |done].
    apply svg_pass_preserves; [apply _|]. intros e' w. apply Pst.
  - apply (passes_by_style_pass d0 d0); [intros j; apply local_at_updateStyle| |done].
    apply rect_pass_preserves; [apply _|]. intros e' w. apply Pst.
  - apply passes_by_markup_pass; [done|apply local_at_text_callback| |done..].
    apply text_pass_preserves; [apply _|by intros ?? [? _]|..].
    + intros e' st _. apply Pst.
    + intros e' w _ _. apply Pd.
  - apply passes_by_markup_pass; [done|apply local_at_table_callback| |done..].
    apply table_pass_preserves; [apply _|]. intros e' w. apply Pst.
Qed.

Lemma reactable_pass_by D d0 i e :
  elements d0 !! i = Some e ->
  matches d0 e (sel_rt_rows ++ sel_rt_search ++ sel_rt_pagination_button
                ++ sel_rt_pagination_nav_button
                ++ sel_rt_page_button_current ++ sel_rt_sort_header) = false ->
  passes_by d0 i e (updateElements sel_reactable (Extended.reactable_callback D)).
Proof.
  intros He0 Hm. rewrite !matches_app in Hm.
  apply orb_false_iff in Hm as [M1 Hm]. apply orb_false_iff in Hm as [M2 Hm].
  apply orb_false_iff in Hm as [M3 Hm]. apply orb_false_iff in Hm as [M4 Hm].
  apply orb_false_iff in Hm as [M5 M6].
  destruct (same_markup_steps D) as (S1 & S2 & S3 & S4 & S5 & S6 & S7).
  intros d Hk He. unfold updateElements.
  apply (passes_by_forEach d0 i e); [|done..].
  clear d Hk He. intros k. unfold Extended.reactable_callback.
  repeat apply passes_by_andThen;
    (apply passes_by_markup_pass; [done| | |done..]).
  - intros j. apply acts_as_rows_callback.
  - apply preserves_updateElements; [apply _|]. intros j.
    by apply (acts_as_same_markup j _ _ (acts_as_rows_callback D j)).
  - intros j. apply acts_as_search_callback.
  - apply preserves_updateElements; [apply _|]. intros j.
    by apply (acts_as_same_markup j _ _ (acts_as_search_callback D j)).
  - intros j. apply acts_as_button_callback_1.
  - apply preserves_updateElements; [apply _|]. intros j.
    by apply (acts_as_same_markup j _ _ (acts_as_button_callback_1 D j)).
  - intros j. apply acts_as_button_callback_2.
  - apply preserves_updateElements; [apply _|]. intros j.
    by apply (acts_as_same_markup j _ _ (acts_as_button_callback_2 D j)).
  - intros j. apply acts_as_nav_button_callback.
  - apply preserves_updateElements; [apply _|]. intros j.
    by apply (acts_as_same_markup j _ _ (acts_as_nav_button_callback D j)).
  - intros j. apply acts_as_current_button_callback.
  - apply preserves_updateElements; [apply _|]. intros j.
    by apply (acts_as_same_markup j _ _ (acts_as_current_button_callback D j)).
  - intros j. apply acts_as_sort_header_callback.
  - apply preserves_updateElements; [apply _|]. intros j.
    by apply (acts_as_same_markup j _ _ (acts_as_sort_header_callback D j)).
Qed.

End Untouched.

(** An element none of the selectors of the version matches is left
    exactly as it was, and no write of the call goes to it, however the
    call ends.  The elements [.reactable] matches are such elements
    unless another selector matches them. *)
Theorem unselected_untouched `{Browser} v d i e :
  elements d !! i = Some e -> selected v d e = false ->
  elements (final (run v d)) !! i = Some e /\
  writes_at i (writes (run v d)) = [].
Proof.
  intros He Hsel. apply orb_false_iff in Hsel as [Hc Hr].
  rewrite run_unfold. destruct (document_body d); [|done].
  destruct (negb (isLightMode d) && negb (isDarkMode d)); [done|].
  assert (Hby : passes_by d i e (passes_of v (isLightMode d) (isDarkMode d))).
  { destruct v; simpl passes_of.
    - rewrite basic_passes_common. by apply common_passes_by.
    - rewrite extended_passes_common.
      apply passes_by_andThen; [by apply common_passes_by|].
      by apply reactable_pass_by. }
  by destruct (Hby d) as (_ & He' & Hw); [reflexivity|done|].
Qed.

Lemma unselected_untouched_witness :
  elements (final (run (H := plain_browser) ExtendedVariant
                     (prose_page ["quarto-dark"]))) !! 2
  = Some (with_style [("color", "red")] (node "p" ["note"] (Some 0))) /\
  elements (final (run (H := plain_browser) ExtendedVariant
                     (prose_page ["quarto-dark"]))) !! 3
  = Some (node "div" ["reactable"] (Some 0)).
Proof.
  split.
  - apply (unselected_untouched (H := plain_browser) ExtendedVariant
             (prose_page ["quarto-dark"]) 2); vm_compute; reflexivity.
  - apply (unselected_untouched (H := plain_browser) ExtendedVariant
             (prose_page ["quarto-dark"]) 3); vm_compute; reflexivity.
Defined.

(** ** The table pass and the first light call *)

Section TableColour.
Context `{Browser}.

Lemma passes_table_write v L D d i e :
  elements d !! i = Some e -> matches d e sel_gt = true ->
  completion (passes_of v L D d) = Normal ->
  In (SetStyle i "color" (if D then "white" else "")) (writes (passes_of v L D d)).
Proof.
  intros He Hm. rewrite passes_split.
  rewrite andThen_normal by apply total_before_text.
  cbn [final completion writes]. intros Hc.
  apply andThen_completes in Hc as [Hct _].
  rewrite andThen_normal by done. cbn [writes].
  set (c := dark_text_color v) in *.
  set (d4 := final (text_pass D c (final (before_text L D d)))).
  assert (Hmk : keeps same_markup d d4).
  { apply (keeps_impl evolves); [by intros ?? [? _]|].
    etrans; [apply before_text_evolves|apply text_pass_evolves]. }
  assert (Hin : i ∈ querySelectorAll sel_gt d4).
  { apply elem_of_querySelectorAll.
    rewrite <- (matches_at_markup sel_gt d d4 i eq_refl Hmk).
    unfold matches_at. by rewrite He. }
  unfold last_passes. rewrite sequence_cons.
  rewrite andThen_normal by apply total_table_pass. cbn [writes].
  destruct (forEach_at_normal (table_callback D) (local_at_table_callback D)
              (fun _ _ => True) (querySelectorAll sel_gt d4) d4 i)
    as (dk & _ & _ & _ & Hw & _).
  - done.
  - apply querySelectorAll_NoDup.
  - done.
  - apply total_table_pass.
  - assert (Hw' : In (SetStyle i "color" (if D then "white" else ""))
                    (writes (table_pass D d4))).
    { apply (writes_at_In i). unfold table_pass, updateElements. rewrite Hw.
      unfold table_callback. destruct D; by left. }
    rewrite !in_app_iff. tauto.
Qed.

Lemma passes_table_colour v L D d i e :
  elements d !! i = Some e -> matches d e sel_gt = true ->
  completion (passes_of v L D d) = Normal ->
  v = BasicVariant \/ querySelectorAll sel_reactable d = [] \/
  matches d e (sel_rt_rows ++ sel_rt_search ++ sel_rt_pagination_nav_button
               ++ sel_rt_page_button_current ++ sel_rt_sort_header) = false ->
  exists e',
    elements (final (passes_of v L D d)) !! i = Some e' /\
    style_read (style e') "color" = if D then "white" else "".
Proof.
  intros He Hm Hc Hcase.
  pose proof Hc as Hc'. rewrite passes_split in Hc' |- *.
  rewrite andThen_normal in Hc' |- * by apply total_before_text.
  cbn [final completion] in Hc' |- *.
  apply andThen_completes in Hc' as [Hct _].
  rewrite andThen_normal by done. cbn [final].
  set (c := dark_text_color v) in *.
  set (d4 := final (text_pass D c (final (before_text L D d)))) in *.
  assert (Hmk : keeps same_markup d d4).
  { apply (keeps_impl evolves); [by intros ?? [? _]|].
    etrans; [apply before_text_evolves|apply text_pass_evolves]. }
  destruct (keeps_lookup _ _ _ _ _ Hmk He) as (e4 & He4 & _).
  pose proof (table_pass_exact D d4 i e4 He4) as He5.
  pose proof (matches_at_markup sel_gt d d4 i eq_refl Hmk) as Hm4.
  unfold matches_at in Hm4. rewrite He, He4, Hm in Hm4. rewrite <- Hm4 in He5.
  assert (Hmk5 : keeps same_markup d (final (table_pass D d4))).
  { etrans; [exact Hmk|]. apply table_pass_preserves; [apply _|].
    intros e0 w. by destruct same_markup_permits as (_ & Pst & _). }
  set (d5 := final (table_pass D d4)) in *.
  set (e5 := with_style (style_write (style e4) "color" (if D then "white" else "")) e4)
    in *.
  assert (Hcol : style_read (style e5) "color" = if D then "white" else "").
  { subst e5. cbn [style with_style]. apply style_read_write_eq. }
  unfold last_passes. rewrite sequence_cons.
  rewrite andThen_normal by apply total_table_pass. cbn [final]. fold d5.
  destruct v.
  { exists e5. by split. }
  change (sequence [reactable_pass D] d5) with ((reactable_pass D >> skip) d5).
  rewrite andThen_skip_r, (reactable_pass_at D d5 i e5 He5).
  eexists. split; [done|].
  rewrite <- (querySelectorAll_markup sel_reactable d d5 eq_refl Hmk5).
  destruct (querySelectorAll sel_reactable d) as [|k l] eqn:Hq; [done|].
  destruct Hcase as [?|[?|Hun]]; [done..|].
  simpl length. destruct (read_as_get (style e5)) as (Hr & _).
  destruct (read_as_get (style (Nat.iter (S (length l))
                                  (reactable_step D (matches d5 e5)) e5))) as (-> & _).
  rewrite get_reactable_iter.
  rewrite (reactable_value_markup D d d5 i e e5 "color" Hmk5 He He5).
  destruct (reactable_value_names D (matches d e)) as (-> & _).
  rewrite !matches_app in Hun.
  apply orb_false_iff in Hun as [-> Hun]. apply orb_false_iff in Hun as [-> Hun].
  apply orb_false_iff in Hun as [-> Hun]. apply orb_false_iff in Hun as [-> ->].
  by rewrite <- Hr.
Qed.

End TableColour.

(** A container the table selector matches
    ([.gt_table_body, .gt_heading, .gt_sourcenotes, .gt_footnotes]) has,
    after a call that ended, the inline colour [white] in dark mode and
    none otherwise, and the call has written it whether it was there or
    not; in the extended version this holds unless a reactable element is
    in the document and one of the colour selectors of the reactable block
    matches the container too. *)
Theorem table_text_colour `{Browser} v d i e :
  elements d !! i = Some e -> matches d e sel_gt = true ->
  isLightMode d || isDarkMode d = true ->
  completion (run v d) = Normal ->
  v = BasicVariant \/ querySelectorAll sel_reactable d = [] \/
  matches d e (sel_rt_rows ++ sel_rt_search ++ sel_rt_pagination_nav_button
               ++ sel_rt_page_button_current ++ sel_rt_sort_header) = false ->
  (exists e',
     elements (final (run v d)) !! i = Some e' /\
     style_read (style e') "color" = if isDarkMode d then "white" else "") /\
  In (SetStyle i "color" (if isDarkMode d then "white" else "")) (writes (run v d)).
Proof.
  intros He Hm Hmode. rewrite run_passes by done. intros Hc Hcase. split.
  - by apply (passes_table_colour v _ _ d i e).
  - by apply (passes_table_write v _ _ d i e).
Qed.

Lemma table_text_colour_witness :
  (exists e',
     elements (final (run (H := plain_browser) ExtendedVariant
                        (tables_page ["quarto-dark"]))) !! 2 = Some e' /\
     style_read (style e') "color" = "white") /\
  In (SetStyle 2 "color" "white")
     (writes (run (H := plain_browser) ExtendedVariant (tables_page ["quarto-dark"]))).
Proof.
  apply (table_text_colour (H := plain_browser) ExtendedVariant
           (tables_page ["quarto-dark"]) 2 (node "tbody" ["gt_table_body"] (Some 1)));
    [vm_compute; reflexivity..|].
  right. right. vm_compute. reflexivity.
Defined.

Section FirstLight.
Context `{Browser}.

Lemma text_outcome_fresh_light c snap i e :
  unset (originalStyle e) = true ->
  fst (fst (text_outcome false c snap i e)) =
  with_style (assign_members (style e) (JSON.snapshot_members snap))
    (with_originalStyle (JSON.stringify snap) e).
Proof.
  intros Hu. unfold text_outcome. rewrite Hu.
  cbn -[JSON.parse JSON.stringify JSON.as_snapshot JSON.snapshot_value
        JSON.snapshot_members].
  by rewrite parse_stringify, as_snapshot_value.
Qed.

Lemma passes_first_light v L d i e :
  elements d !! i = Some e -> matches d e sel_text = true ->
  unset (originalStyle e) = true ->
  completion (passes_of v L false d) = Normal ->
  exists dk e',
    elements dk !! i = Some e /\
    elements (final (passes_of v L false d)) !! i = Some e' /\
    originalStyle e' = Some (JSON.stringify (getComputedStyle dk i)) /\
    style_read (style e') "fill" = fill (getComputedStyle dk i) /\
    style_read (style e') "fontSize" = fontSize (getComputedStyle dk i) /\
    style_read (style e') "fontWeight" = fontWeight (getComputedStyle dk i) /\
    style_read (style e') "fontFamily" = fontFamily (getComputedStyle dk i) /\
    style_read (style e') "textDecoration" = textDecoration (getComputedStyle dk i) /\
    (matches_at d sel_color_writers i = false ->
     style_read (style e') "color" = color (getComputedStyle dk i)).
Proof.
  intros He Hm Hu. rewrite passes_split.
  rewrite andThen_normal by apply total_before_text.
  cbn [final completion]. intros Hc.
  apply andThen_completes in Hc as [Hct _].
  pose proof (matches_sel_text d e Hm) as Htag.
  destruct (text_tag_other e Htag) as (H1 & H2 & H3).
  pose proof (before_text_other L false d i e He H1 H2 H3) as He3.
  pose proof (before_text_matches L false d i) as Hm3.
  unfold matches_at in Hm3. rewrite He, He3, Hm in Hm3.
  pose proof (before_text_evolves L false d) as Hev3.
  set (d3 := final (before_text L false d)) in *.
  set (c := dark_text_color v) in *.
  destruct (text_pass_at false c d3 i e He3 Hm3)
    as [(_ & _ & Hn)|(dk & Hk & Hf & _ & _)]; [done|].
  rewrite (text_outcome_fresh_light c _ i e Hu) in Hf.
  pose proof (text_pass_evolves false c d3) as Hev4.
  rewrite andThen_normal by done. cbn [final].
  set (d4 := final (text_pass false c d3)) in *.
  set (snap := getComputedStyle dk i) in *.
  destruct (keeps_lookup _ _ _ _ _ (last_passes_keeps_restored v false d4) Hf)
    as (e' & He' & _ & Hfive).
  destruct (keeps_lookup _ _ _ _ _ (last_passes_same_snapshot v false d4) Hf)
    as (e'' & He'' & _ & Hsnap).
  assert (e'' = e') as -> by congruence.
  destruct (assign_members_read (style e) snap) as (R1 & R2 & R3 & R4 & R5 & R6).
  exists dk, e'. split; [done|]. split; [done|].
  split; [by rewrite <- Hsnap|].
  rewrite <- !Hfive by (simpl; tauto). cbn [style with_style with_originalStyle].
  split; [done|]. split; [done|]. split; [done|]. split; [done|]. split; [done|].
  intros Hun.
  destruct (last_passes_keeps_color_at i v false d4) as [_ Hcol].
  rewrite <- (Hcol) with
    (e := with_style (assign_members (style e) (JSON.snapshot_members snap))
            (with_originalStyle (JSON.stringify snap) e)); [done| |done..].
  rewrite <- Hun. symmetry. apply matches_at_markup; [done|].
  apply (keeps_impl evolves); [by intros ?? [? _]|].
  etrans; [apply Hev3|apply Hev4].
Qed.

End FirstLight.

(** Light mode is not neutral for the text of a chart.  The first call in
    light mode (the light class without the dark one) that ends gives a
    matched text element without a snapshot the style the browser computes
    for it as inline style: its fill, font size, font weight, font family
    and text decoration, and its colour unless one of the later colour
    selectors matches it; the same six values are its snapshot.  They are
    computed in a document in which the element is as before the call. *)
Theorem first_light_call_inlines_computed_style `{Browser} v d i e :
  elements d !! i = Some e -> matches d e sel_text = true ->
  unset (originalStyle e) = true ->
  isLightMode d = true -> isDarkMode d = false ->
  completion (run v d) = Normal ->
  exists dk e',
    elements dk !! i = Some e /\
    elements (final (run v d)) !! i = Some e' /\
    originalStyle e' = Some (JSON.stringify (getComputedStyle dk i)) /\
    style_read (style e') "fill" = fill (getComputedStyle dk i) /\
    style_read (style e') "fontSize" = fontSize (getComputedStyle dk i) /\
    style_read (style e') "fontWeight" = fontWeight (getComputedStyle dk i) /\
    style_read (style e') "fontFamily" = fontFamily (getComputedStyle dk i) /\
    style_read (style e') "textDecoration" = textDecoration (getComputedStyle dk i) /\
    (matches_at d sel_color_writers i = false ->
     style_read (style e') "color" = color (getComputedStyle dk i)).
Proof.
  intros He Hm Hu HL HD. rewrite run_passes by (by rewrite HL). rewrite HD.
  by apply passes_first_light.
Qed.

Lemma first_light_call_inlines_computed_style_witness :
  exists e',
    elements (final (run (H := plain_browser) BasicVariant
                       (legend_page ["quarto-light"]))) !! 2 = Some e' /\
    style_read (style e') "fontFamily" = "sans-serif" /\
    style_read (style e') "fill" = "rgb(0, 0, 0)".
Proof.
  destruct (first_light_call_inlines_computed_style (H := plain_browser) BasicVariant
              (legend_page ["quarto-light"]) 2 (node "text" ["legendtext"] (Some 1)))
    as (dk & e' & Hk & He' & _ & Hfill & _ & _ & Hfam & _);
    [vm_compute; reflexivity..|].
  exists e'. split; [exact He'|].
  rewrite Hfam, Hfill. unfold getComputedStyle, plain_browser, plain_computed.
  rewrite Hk. split; reflexivity.
Defined.

(** ** The listeners of the pagination buttons *)

Lemma acts_as_handle h j : acts_as j (handle h j) (handle_step h).
Proof.
  destruct h; simpl handle; unfold handle_step, is_current.
  - apply acts_as_skip.
  - apply (acts_as_withElement j _ (fun e0 e =>
             if negb (contains "rt-page-button-current" (classList e0))
             then restyle "backgroundColor" "rgba(255, 255, 255, 0.1)" e else e)).
    intros e. destruct (negb _); [apply acts_as_set_style|apply acts_as_skip].
  - apply (acts_as_withElement j _ (fun e0 e =>
             if negb (contains "rt-page-button-current" (classList e0))
             then restyle "backgroundColor" "" e else e)).
    intros e. destruct (negb _); [apply acts_as_set_style|apply acts_as_skip].
  - apply acts_as_set_style.
  - apply (acts_as_withElement j _ (fun e0 e =>
             if negb (contains "rt-page-button-current" (classList e0))
             then restyle "backgroundColor" "rgba(255, 255, 255, 0.1)" e else e)).
    intros e. destruct (negb _); [apply acts_as_set_style|apply acts_as_skip].
Qed.

Lemma handle_writes_at h j d e :
  elements d !! j = Some e -> writes (handle h j d) = handle_writes h j e.
Proof.
  intros He. destruct h; simpl; try done;
    unfold withElement, is_current; rewrite He; by destruct (negb _).
Qed.

Lemma handle_step_fields h e :
  same_markup e (handle_step h e) /\ src (handle_step h e) = src e /\
  originalStyle (handle_step h e) = originalStyle e /\
  listeners (handle_step h e) = listeners e.
Proof. destruct h; simpl; try done; by destruct (negb _). Qed.

Lemma acts_as_handlers hs j :
  acts_as j (sequence (map (fun h => handle h j) hs))
    (fun e => fold_left (fun e h => handle_step h e) hs e).
Proof.
  induction hs as [|h hs IH]; [apply acts_as_skip|].
  simpl. apply (acts_as_andThen j _ _ (handle_step h)
                  (fun e => fold_left (fun e h => handle_step h e) hs e)).
  - apply acts_as_handle.
  - apply IH.
Qed.

(** An event runs the listeners of its type on the target, one after the
    other, and touches no other element. *)
Lemma dispatchEvent_at type i d e :
  elements d !! i = Some e ->
  elements (final (dispatchEvent type i d)) !! i =
    Some (fold_left (fun e h => handle_step h e) (listeners_for type e) e) /\
  (forall j, j <> i ->
     elements (final (dispatchEvent type i d)) !! j = elements d !! j) /\
  completion (dispatchEvent type i d) = Normal.
Proof.
  intros He. unfold dispatchEvent, withElement. rewrite He.
  destruct (acts_as_handlers (listeners_for type e) i) as (Ht & Hl & Hg).
  split; [by apply Hg|]. split; [|apply Ht].
  intros j Hj. by apply (local_at_lookup i).
Qed.

Lemma handlers_writes hs i d e :
  elements d !! i = Some e ->
  writes (sequence (map (fun h => handle h i) hs) d) =
  concat (map (fun h => handle_writes h i e) hs).
Proof.
  revert d e. induction hs as [|h hs IH]; intros d e He; [done|].
  simpl. destruct (acts_as_handle h i) as (Ht & _ & Hg).
  rewrite andThen_normal by apply Ht. cbn [writes].
  rewrite (handle_writes_at h i d e He).
  rewrite (IH _ _ (Hg d e He)). f_equal. f_equal.
  apply map_ext. intros h'.
  destruct (handle_step_fields h e) as ((_ & Hcl & _) & _).
  unfold handle_writes, is_current. by rewrite Hcl.
Qed.

(** Listeners of one kind, run any number of times: the style they
    leave. *)
Lemma get_handle_step h e name :
  StyleDecl.get (style (handle_step h e)) name =
  match h with
  | ResetAllLater => StyleDecl.get (style e) name
  | HoverOn | PressOff =>
      if negb (is_current e) && String.eqb "background-color" name
      then "rgba(255, 255, 255, 0.1)" else StyleDecl.get (style e) name
  | HoverOff =>
      if negb (is_current e) && String.eqb "background-color" name
      then "" else StyleDecl.get (style e) name
  | PressOn =>
      if String.eqb "background-color" name
      then "rgba(255, 255, 255, 0.2)" else StyleDecl.get (style e) name
  end.
Proof.
  destruct h; simpl; try done; try apply get_restyle;
    destruct (negb (is_current e)); simpl; try done; apply get_restyle.
Qed.

Lemma fold_handle_step_fields hs e :
  same_markup e (fold_left (fun e h => handle_step h e) hs e) /\
  src (fold_left (fun e h => handle_step h e) hs e) = src e /\
  originalStyle (fold_left (fun e h => handle_step h e) hs e) = originalStyle e /\
  listeners (fold_left (fun e h => handle_step h e) hs e) = listeners e.
Proof.
  revert e. induction hs as [|h hs IH]; intros e; [done|]. simpl.
  destruct (handle_step_fields h e) as (S1 & S2 & S3 & S4).
  destruct (IH (handle_step h e)) as (I1 & I2 & I3 & I4).
  split; [by etrans|]. repeat split; congruence.
Qed.

Lemma fold_same_handler h n e name :
  StyleDecl.get (style (fold_left (fun e h => handle_step h e) (replicate (S n) h) e))
    name
  = StyleDecl.get (style (handle_step h e)) name.
Proof.
  revert e. induction n as [|n IH]; intros e; [done|].
  change (replicate (S (S n)) h) with (h :: replicate (S n) h).
  cbn [fold_left]. rewrite IH. rewrite !get_handle_step.
  destruct (handle_step_fields h e) as ((_ & Hcl & _) & _).
  unfold is_current. rewrite <- Hcl.
  destruct h; try done;
    destruct (String.eqb "background-color" name);
    rewrite ?andb_true_r, ?andb_false_r; try done;
    by destruct (negb (contains "rt-page-button-current" (classList e))).
Qed.

(** The routine registers one kind of listener for each type of event. *)
Lemma routine_listeners_for e type :
  routine_listeners e ->
  exists h,
    listeners_for type e = replicate (length (listeners_for type e)) h /\
    (type = "click" -> h = ResetAllLater) /\
    (type = "mouseenter" -> h = HoverOn) /\
    (type = "mouseleave" -> h = HoverOff) /\
    (type = "mousedown" -> h = PressOn) /\
    (type = "mouseup" -> h = PressOff).
Proof.
  unfold routine_listeners, listeners_for. intros Hall.
  assert (Hh : exists h,
            (forall t h', In (t, h') seven_listeners -> t = type -> h' = h) /\
            (type = "click" -> h = ResetAllLater) /\
            (type = "mouseenter" -> h = HoverOn) /\
            (type = "mouseleave" -> h = HoverOff) /\
            (type = "mousedown" -> h = PressOn) /\
            (type = "mouseup" -> h = PressOff)).
  { destruct (String.eqb_spec type "click") as [->|N1].
    { exists ResetAllLater. split; [|done].
      intros t h' Hin ->. simpl in Hin. intuition congruence. }
    destruct (String.eqb_spec type "mouseenter") as [->|N2].
    { exists HoverOn. split; [|done].
      intros t h' Hin ->. simpl in Hin. intuition congruence. }
    destruct (String.eqb_spec type "mouseleave") as [->|N3].
    { exists HoverOff. split; [|done].
      intros t h' Hin ->. simpl in Hin. intuition congruence. }
    destruct (String.eqb_spec type "mousedown") as [->|N4].
    { exists PressOn. split; [|done].
      intros t h' Hin ->. simpl in Hin. intuition congruence. }
    destruct (String.eqb_spec type "mouseup") as [->|N5].
    { exists PressOff. split; [|done].
      intros t h' Hin ->. simpl in Hin. intuition congruence. }
    exists HoverOn. split; [|done].
    intros t h' Hin ->. simpl in Hin. intuition congruence. }
  destruct Hh as (h & Hsame & Hkinds). exists h. split; [|done].
  induction Hall as [|[t h'] l Hin _ IH]; [done|]. simpl.
  destruct (String.eqb_spec t type) as [Ht|_]; [|done].
  simpl. rewrite (Hsame t h' Hin Ht). by f_equal.
Qed.

(** The pointer over a pagination button that is not the current page
    button: every [mouseenter] listener on it writes the hover colour, so
    [n] registrations make [n] equal writes and leave what one leaves;
    nothing else of the button and no other element changes.  When the
    pointer leaves, the [mouseleave] listeners remove the background: the
    button does not get back a background it had before. *)
Theorem hover_highlight d i e :
  elements d !! i = Some e -> routine_listeners e -> is_current e = false ->
  let n := length (listeners_for "mouseenter" e) in
  let r := dispatchEvent "mouseenter" i d in
  completion r = Normal /\
  writes r = replicate n (SetStyle i "backgroundColor" "rgba(255, 255, 255, 0.1)") /\
  (forall j, j <> i -> elements (final r) !! j = elements d !! j) /\
  exists e1,
    elements (final r) !! i = Some e1 /\
    same_markup e e1 /\ src e1 = src e /\ originalStyle e1 = originalStyle e /\
    listeners e1 = listeners e /\
    (forall name, name <> "background-color" ->
                  StyleDecl.get (style e1) name = StyleDecl.get (style e) name) /\
    (0 < n -> style_read (style e1) "backgroundColor" = "rgba(255, 255, 255, 0.1)") /\
    (0 < length (listeners_for "mouseleave" e) ->
     exists e2,
       elements (final (dispatchEvent "mouseleave" i (final r))) !! i = Some e2 /\
       style_read (style e2) "backgroundColor" = "").
Proof.
  intros He Hr Hcur n r.
  destruct (dispatchEvent_at "mouseenter" i d e He) as (He1 & Hother & Hc).
  destruct (routine_listeners_for e "mouseenter" Hr) as (h & Hl & _ & Hh & _).
  specialize (Hh eq_refl). subst h. fold n in Hl.
  split; [done|]. split; [|split; [done|]].
  { subst r. unfold dispatchEvent, withElement. rewrite He.
    rewrite (handlers_writes _ i d e He), Hl. clear Hl.
    unfold handle_writes. rewrite Hcur. simpl negb.
    induction n as [|n IH]; [done|]. simpl. by rewrite IH. }
  fold r in He1.
  set (e1 := fold_left (fun e h => handle_step h e) (listeners_for "mouseenter" e) e)
    in *.
  destruct (fold_handle_step_fields (listeners_for "mouseenter" e) e)
    as (S1 & S2 & S3 & S4). fold e1 in S1, S2, S3, S4.
  assert (Hget : forall name,
            StyleDecl.get (style e1) name =
            if Nat.ltb 0 n && String.eqb "background-color" name
            then "rgba(255, 255, 255, 0.1)" else StyleDecl.get (style e) name).
  { intros name. subst e1. rewrite Hl. destruct n as [|n]; [done|].
    rewrite fold_same_handler, get_handle_step, Hcur. done. }
  exists e1. split; [done|]. split; [done|]. split; [done|]. split; [done|].
  split; [done|]. split; [|split].
  - intros name Hn. rewrite Hget.
    destruct (String.eqb_spec "background-color" name); [done|].
    by rewrite andb_false_r.
  - intros Hpos. destruct (read_as_get (style e1)) as (_ & -> & _).
    rewrite Hget. by destruct n; [lia|].
  - intros Hpos.
    destruct (dispatchEvent_at "mouseleave" i (final r) e1 He1) as (He2 & _ & _).
    eexists. split; [exact He2|].
    assert (Hr1 : routine_listeners e1) by (unfold routine_listeners; by rewrite S4).
    destruct (routine_listeners_for e1 "mouseleave" Hr1) as (h & Hl2 & _ & _ & Hh & _).
    specialize (Hh eq_refl). subst h.
    assert (Hlen : listeners_for "mouseleave" e1 = listeners_for "mouseleave" e).
    { unfold listeners_for. by rewrite S4. }
    rewrite Hlen in *. rewrite Hl2.
    destruct (length (listeners_for "mouseleave" e)) as [|k]; [lia|].
    destruct (read_as_get
                (style (fold_left (fun e h => handle_step h e)
                          (replicate (S k) HoverOff) e1))) as (_ & -> & _).
    rewrite fold_same_handler, get_handle_step.
    destruct S1 as (_ & Hcl & _). unfold is_current in *. by rewrite <- Hcl, Hcur.
Qed.

Lemma hover_highlight_witness :
  writes (dispatchEvent "mouseenter" 6 (dark_table_page (H := plain_browser)))
  = [SetStyle 6 "backgroundColor" "rgba(255, 255, 255, 0.1)";
     SetStyle 6 "backgroundColor" "rgba(255, 255, 255, 0.1)"].
Proof.
  edestruct (hover_highlight (dark_table_page (H := plain_browser)) 6)
    as (_ & Hw & _).
  - vm_compute. reflexivity.
  - vm_compute. repeat constructor; tauto.
  - vm_compute. reflexivity.
  - rewrite Hw. vm_compute. reflexivity.
Defined.

Lemma sequence_skip_at (l : list Action) d :
  Forall (fun a => a d = skip d) l -> sequence l d = skip d.
Proof.
  induction 1 as [|a l Ha _ IH]; [done|].
  rewrite sequence_cons. by rewrite andThen_skip_at.
Qed.

Lemma handle_current_skip h i d e :
  elements d !! i = Some e -> is_current e = true -> h <> PressOn ->
  handle h i d = skip d.
Proof.
  intros He Hcur Hh. unfold is_current in Hcur.
  destruct h; simpl; try done; unfold withElement; by rewrite He, Hcur.
Qed.

(** The listeners leave the current page button alone, all but one: a
    click, the pointer coming or going and the release of the mouse
    button change nothing and write nothing, however many listeners there
    are; pressing the mouse button sets the background
    [rgba(255, 255, 255, 0.2)] without a test of the class, and the
    release that follows leaves it there. *)
Theorem current_button_listeners d i e :
  elements d !! i = Some e -> routine_listeners e -> is_current e = true ->
  (forall type, In type ["click"; "mouseenter"; "mouseleave"; "mouseup"] ->
                dispatchEvent type i d = skip d) /\
  (0 < length (listeners_for "mousedown" e) ->
   exists e1,
     elements (final (dispatchEvent "mousedown" i d)) !! i = Some e1 /\
     style_read (style e1) "backgroundColor" = "rgba(255, 255, 255, 0.2)" /\
     final (dispatchEvent "mouseup" i (final (dispatchEvent "mousedown" i d)))
     = final (dispatchEvent "mousedown" i d)).
Proof.
  intros He Hr Hcur. split.
  - intros type Htype. unfold dispatchEvent, withElement. rewrite He.
    destruct (routine_listeners_for e type Hr) as (h & Hl & H1 & H2 & H3 & _ & H5).
    assert (Hh : h <> PressOn).
    { simpl in Htype.
      destruct Htype as [<-|[<-|[<-|[<-|[]]]]];
        [rewrite H1|rewrite H2|rewrite H3|rewrite H5]; done. }
    apply sequence_skip_at. rewrite Hl. apply Forall_map, Forall_replicate.
    by apply (handle_current_skip h i d e).
  - intros Hpos.
    destruct (dispatchEvent_at "mousedown" i d e He) as (He1 & _ & _).
    destruct (routine_listeners_for e "mousedown" Hr) as (h & Hl & _ & _ & _ & Hh & _).
    specialize (Hh eq_refl). subst h.
    set (e1 := fold_left (fun e h => handle_step h e) (listeners_for "mousedown" e) e)
      in *.
    destruct (fold_handle_step_fields (listeners_for "mousedown" e) e)
      as (S1 & _ & _ & S4). fold e1 in S1, S4.
    exists e1. split; [done|]. split.
    + destruct (read_as_get (style e1)) as (_ & -> & _). subst e1. rewrite Hl.
      destruct (length (listeners_for "mousedown" e)) as [|k]; [lia|].
      by rewrite fold_same_handler, get_handle_step.
    + set (d1 := final (dispatchEvent "mousedown" i d)) in *.
      unfold dispatchEvent at 1. unfold withElement. rewrite He1.
      assert (Hr1 : routine_listeners e1) by (unfold routine_listeners; by rewrite S4).
      destruct (routine_listeners_for e1 "mouseup" Hr1) as (h & Hl1 & _ & _ & _ & _ & Hh).
      specialize (Hh eq_refl). subst h.
      rewrite sequence_skip_at; [done|].
      rewrite Hl1. apply Forall_map, Forall_replicate.
      apply (handle_current_skip PressOff i d1 e1); [done| |done].
      destruct S1 as (_ & Hcl & _). unfold is_current in *. by rewrite <- Hcl.
Qed.

Lemma current_button_listeners_witness :
  dispatchEvent "mouseenter" 7 (dark_table_page (H := plain_browser))
  = skip (dark_table_page (H := plain_browser)).
Proof.
  edestruct (current_button_listeners (dark_table_page (H := plain_browser)) 7)
    as (Hskip & _).
  - vm_compute. reflexivity.
  - vm_compute. repeat constructor; tauto.
  - vm_compute. reflexivity.
  - apply Hskip. simpl. tauto.
Defined.

(** *** The timer of a click *)

Lemma acts_as_reset_callback j :
  acts_as j
    (withElement j (fun e =>
       if negb (contains "rt-page-button-current" (classList e))
       then set_style j "backgroundColor" "" else skip))
    reset_step.
Proof.
  unfold reset_step, is_current.
  apply (acts_as_withElement j _ (fun e0 e =>
           if negb (contains "rt-page-button-current" (classList e0))
           then restyle "backgroundColor" "" e else e)).
  intros e. destruct (negb _); [apply acts_as_set_style|apply acts_as_skip].
Qed.

Lemma reset_step_same_markup e : same_markup e (reset_step e).
Proof. unfold reset_step. by destruct (negb _). Qed.

Lemma resetAllButtons_at d0 d j e0 e :
  keeps same_markup d0 d ->
  elements d0 !! j = Some e0 -> elements d !! j = Some e ->
  keeps same_markup d0 (final (resetAllButtons d)) /\
  elements (final (resetAllButtons d)) !! j =
    Some (when (matches d0 e0 sel_rt_pagination_button) reset_step e) /\
  completion (resetAllButtons d) = Normal.
Proof.
  intros Hk He0 He. unfold resetAllButtons.
  apply (markup_pass_exact sel_rt_pagination_button _ reset_step d0 d j e0 e);
    try done.
  - intros k. apply acts_as_reset_callback.
  - apply reset_step_same_markup.
Qed.

Lemma resets_at k d0 d j e0 e :
  keeps same_markup d0 d ->
  elements d0 !! j = Some e0 -> elements d !! j = Some e ->
  elements (final (sequence (replicate k resetAllButtons) d)) !! j =
    Some (Nat.iter k (when (matches d0 e0 sel_rt_pagination_button) reset_step) e).
Proof.
  revert d e. induction k as [|k IH]; intros d e Hk He0 He; [done|].
  change (replicate (S k) resetAllButtons)
    with (resetAllButtons :: replicate k resetAllButtons).
  rewrite sequence_cons.
  destruct (resetAllButtons_at d0 d j e0 e Hk He0 He) as (Hk1 & He1 & Hc1).
  rewrite andThen_normal by done. cbn [final].
  rewrite (IH _ _ Hk1 He0 He1). f_equal. by rewrite Nat.iter_succ_r.
Qed.

Lemma get_reset_step e name :
  StyleDecl.get (style (reset_step e)) name =
  if negb (is_current e) && String.eqb "background-color" name then ""
  else StyleDecl.get (style e) name.
Proof.
  unfold reset_step. destruct (negb (is_current e)); [|done]. apply get_restyle.
Qed.

Lemma is_current_reset_step e : is_current (reset_step e) = is_current e.
Proof. unfold reset_step, is_current. by destruct (negb _). Qed.

Lemma get_reset_iter k e name :
  StyleDecl.get (style (Nat.iter (S k) reset_step e)) name =
  if negb (is_current e) && String.eqb "background-color" name then ""
  else StyleDecl.get (style e) name.
Proof.
  induction k as [|k IH]; [apply get_reset_step|].
  change (Nat.iter (S (S k)) reset_step e)
    with (reset_step (Nat.iter (S k) reset_step e)).
  assert (Hcur : is_current (Nat.iter (S k) reset_step e) = is_current e).
  { clear IH. induction k as [|k IHk]; [apply is_current_reset_step|].
    change (Nat.iter (S (S k)) reset_step e)
      with (reset_step (Nat.iter (S k) reset_step e)).
    by rewrite is_current_reset_step. }
  rewrite get_reset_step, Hcur, IH.
  by destruct (negb (is_current e) && String.eqb "background-color" name).
Qed.

(** A click on a pagination button: its listeners do nothing at once.
    When their timers are due, every pagination button that is not the
    current page button has no background left, also the one the pointer
    is on, and keeps its other declarations; the current page button and
    every other element are as before. *)
Theorem click_resets_buttons d i e j ej :
  elements d !! i = Some e -> routine_listeners e ->
  0 < length (listeners_for "click" e) ->
  elements d !! j = Some ej ->
  dispatchEvent "click" i d = skip d /\
  exists ej',
    elements (final (timers_due "click" i d d)) !! j = Some ej' /\
    (matches d ej sel_rt_pagination_button = true -> is_current ej = false ->
     style_read (style ej') "backgroundColor" = "" /\
     forall name, name <> "background-color" ->
                  StyleDecl.get (style ej') name = StyleDecl.get (style ej) name) /\
    (matches d ej sel_rt_pagination_button = false \/ is_current ej = true ->
     ej' = ej).
Proof.
  intros He Hr Hpos Hej.
  destruct (routine_listeners_for e "click" Hr) as (h & Hl & Hh & _).
  specialize (Hh eq_refl). subst h. split.
  - unfold dispatchEvent, withElement. rewrite He, Hl.
    apply sequence_skip_at, Forall_map, Forall_replicate. done.
  - unfold timers_due. rewrite He, Hl.
    destruct (length (listeners_for "click" e)) as [|k]; [lia|].
    assert (Ht : concat (map timers (replicate (S k) ResetAllLater))
                 = replicate (S k) resetAllButtons).
    { clear. induction (S k) as [|n IH]; [done|]. simpl. by rewrite IH. }
    rewrite Ht, (resets_at (S k) d d j ej ej); [|reflexivity|done..].
    eexists. split; [done|]. split.
    + intros Hm Hcur. rewrite Hm. change (when true reset_step) with reset_step.
      destruct (read_as_get (style (Nat.iter (S k) reset_step ej))) as (_ & -> & _).
      rewrite !get_reset_iter, Hcur. split; [done|].
      intros name Hn. rewrite get_reset_iter, Hcur.
      by destruct (String.eqb_spec "background-color" name).
    + intros [Hm|Hcur].
      * rewrite Hm. clear. induction (S k) as [|n IH]; [done|].
        by rewrite Nat.iter_succ.
      * assert (Hid : when (matches d ej sel_rt_pagination_button) reset_step ej = ej).
        { unfold when, reset_step. rewrite Hcur. by destruct (matches _ _ _). }
        clear -Hid. induction (S k) as [|n IH]; [done|].
        by rewrite Nat.iter_succ_r, Hid.
Qed.

Lemma click_resets_buttons_witness :
  exists ej',
    elements (final (timers_due "click" 6
                       (final (dispatchEvent "mouseenter" 6
                                 (dark_table_page (H := plain_browser))))
                       (final (dispatchEvent "mouseenter" 6
                                 (dark_table_page (H := plain_browser)))))) !! 6
      = Some ej' /\
    style_read (style ej') "backgroundColor" = "".
Proof.
  edestruct (fun e => click_resets_buttons
               (final (dispatchEvent "mouseenter" 6
                         (dark_table_page (H := plain_browser)))) 6 e 6)
    as (_ & ej' & Hj & Hreset & _).
  - vm_compute. reflexivity.
  - vm_compute. repeat constructor; tauto.
  - vm_compute. lia.
  - vm_compute. reflexivity.
  - exists ej'. split; [exact Hj|].
    apply Hreset; vm_compute; reflexivity.
Defined.

(** The listeners of dark mode outlive it.  A call in light mode (the
    light class without the dark one) leaves the listeners of an element
    as they are, so the pointer over a pagination button that is not the
    current page button still gives it the hover colour of dark mode,
    [rgba(255, 255, 255, 0.1)]. *)
Theorem dark_hover_survives_light `{Browser} v d i e :
  elements d !! i = Some e ->
  isLightMode d = true -> isDarkMode d = false ->
  routine_listeners e -> is_current e = false ->
  0 < length (listeners_for "mouseenter" e) ->
  exists e1 e2,
    elements (final (run v d)) !! i = Some e1 /\
    listeners e1 = listeners e /\
    elements (final (dispatchEvent "mouseenter" i (final (run v d)))) !! i = Some e2 /\
    style_read (style e2) "backgroundColor" = "rgba(255, 255, 255, 0.1)".
Proof.
  intros He HL HD Hr Hcur Hpos.
  rewrite run_passes by (by rewrite HL). rewrite HD.
  destruct (keeps_lookup _ _ _ _ _ (passes_light_listeners v (isLightMode d) d) He)
    as (e1 & He1 & (_ & Hcl & _) & Hl).
  set (d1 := final (passes_of v (isLightMode d) false d)) in *.
  destruct (dispatchEvent_at "mouseenter" i d1 e1 He1) as (He2 & _ & _).
  exists e1. eexists. split; [done|]. split; [done|]. split; [exact He2|].
  assert (Hr1 : routine_listeners e1) by (unfold routine_listeners; by rewrite <- Hl).
  destruct (routine_listeners_for e1 "mouseenter" Hr1) as (h & Hl1 & _ & Hh & _).
  specialize (Hh eq_refl). subst h.
  assert (Hlen : listeners_for "mouseenter" e1 = listeners_for "mouseenter" e).
  { unfold listeners_for. by rewrite <- Hl. }
  rewrite Hlen in *. rewrite Hl1.
  destruct (length (listeners_for "mouseenter" e)) as [|k]; [lia|].
  destruct (read_as_get
              (style (fold_left (fun e h => handle_step h e)
                        (replicate (S k) HoverOn) e1))) as (_ & -> & _).
  rewrite fold_same_handler, get_handle_step.
  unfold is_current in *. by rewrite <- Hcl, Hcur.
Qed.

Lemma dark_hover_survives_light_witness :
  exists e2,
    elements
      (final (dispatchEvent "mouseenter" 6
                (final (run (H := plain_browser) ExtendedVariant
                          (set_body_classes ["quarto-light"]
                             (dark_table_page (H := plain_browser))))))) !! 6
      = Some e2 /\
    style_read (style e2) "backgroundColor" = "rgba(255, 255, 255, 0.1)".
Proof.
  edestruct (fun e => dark_hover_survives_light (H := plain_browser) ExtendedVariant
               (set_body_classes ["quarto-light"] (dark_table_page (H := plain_browser)))
               6 e)
    as (e1 & e2 & _ & _ & He2 & Hbg).
  - vm_compute. reflexivity.
  - vm_compute. reflexivity.
  - vm_compute. reflexivity.
  - vm_compute. repeat constructor; tauto.
  - vm_compute. reflexivity.
  - vm_compute. lia.
  - exists e2. split; [exact He2|exact Hbg].
Defined.

(** ** The observer *)


(** ** Calls that end *)

Section NeverThrows.
Context `{Browser}.

Lemma passes_written v L D d :
  (forall i e, elements d !! i = Some e -> matches d e sel_text = true ->
               written e) ->
  completion (passes_of v L D d) = Normal.
Proof.
  intros Hall. rewrite passes_completion. unfold text_pass, updateElements.
  apply (forEach_total_where _ written).
  - apply local_at_text_callback.
  - intros i d' e He Hw.
    destruct (text_callback_at D (dark_text_color v) i d' e He) as (_ & _ & ->).
    by destruct (text_outcome_written D (dark_text_color v) (getComputedStyle d' i) i e Hw)
      as (o & _ & _ & Hn).
  - apply querySelectorAll_NoDup.
  - intros i Hi. apply elem_of_querySelectorAll, matches_at_lookup in Hi.
    destruct Hi as (e3 & He3 & Hm3). exists e3. split; [done|].
    destruct (keeps_lookup_r _ _ _ _ _ (before_text_same_snapshot L D d) He3)
      as (e & He & _ & Hs).
    destruct (before_text_lookup L D d i e He) as (e3' & He3' & _ & Hm).
    assert (e3' = e3) as -> by congruence.
    unfold written. rewrite <- Hs. apply (Hall i e He). by rewrite <- Hm.
Qed.

Lemma safe_run_completion v d : safe d -> completion (run v d) = Normal.
Proof.
  intros [(b & be & Hb & Hbe & Ht) Hw]. rewrite run_unfold.
  assert (Hbody : document_body d = Some be).
  { unfold document_body. rewrite Hb, Hbe.
    destruct Ht as [-> | ->]; done. }
  rewrite Hbody.
  destruct (negb (isLightMode d) && negb (isDarkMode d)); [done|].
  apply passes_written. intros i e He Hm. apply (Hw i e He).
  by apply (matches_sel_text d).
Qed.

Lemma safe_run v d : safe d -> safe (final (run v d)).
Proof.
  intros [Hb Hw]. pose proof (run_same_markup v d) as Hk. split.
  - by apply (has_body_keeps d).
  - intros i e' He' Htag.
    destruct (keeps_lookup_r _ _ _ _ _ Hk He') as (e & He & Ht & _).
    assert (Hwe : written e) by (apply (Hw i e He); unfold text_tag; by rewrite Ht).
    destruct (run_snapshot v d i e He) as (e'' & He'' & Hcase).
    assert (e'' = e') as -> by congruence.
    destruct Hcase as [(Hs & _)|(_ & _ & dk & _ & Hs & _)].
    + unfold written. by rewrite Hs.
    + right. by eexists.
Qed.

Lemma safe_set_body_classes cl d : safe d -> safe (set_body_classes cl d).
Proof.
  intros [Hb Hw]. pose proof Hb as (b & be & Hbd & Hbe & Ht). split.
  - unfold set_body_classes. rewrite Hbd.
    exists b, (with_classList cl be). simpl.
    by rewrite list_lookup_alter_eq, Hbe.
  - intros i e He Htag. unfold set_body_classes in He. rewrite Hbd in He.
    simpl in He. destruct (decide (i = b)) as [->|Hib].
    + rewrite list_lookup_alter_eq, Hbe in He. injection He as <-.
      destruct Ht as [Ht|Ht], Htag as [Ht'|Ht']; simpl in Ht'; congruence.
    + rewrite list_lookup_alter_ne in He by done. by apply (Hw i e).
Qed.

Lemma safe_session v themes d : safe d -> safe (session v themes d).
Proof.
  revert d. induction themes as [|cl themes IH]; intros d Hs; [done|].
  simpl. by apply IH, safe_run, safe_set_body_classes.
Qed.

End NeverThrows.

(** On a page with a body whose [text] and [tspan] elements have no
    snapshot, or one the routine has written, no call ever throws: after
    any series of theme switches, each followed by a call, the next call
    ends normally, with or without another switch before it. *)
Theorem calls_never_throw `{Browser} v d themes cl :
  has_body d ->
  Forall (fun e => text_tag e -> written e) (elements d) ->
  completion (run v (session v themes d)) = Normal /\
  completion (run v (set_body_classes cl (session v themes d))) = Normal.
Proof.
  intros Hb Hw. rewrite Forall_lookup in Hw.
  assert (Hs : safe (session v themes d)) by (by apply safe_session).
  split; [by apply safe_run_completion|].
  by apply safe_run_completion, safe_set_body_classes.
Qed.

Lemma calls_never_throw_witness :
  completion
    (run (H := plain_browser) ExtendedVariant
       (set_body_classes ["quarto-light"]
          (session (H := plain_browser) ExtendedVariant
             [["quarto-dark"]; ["quarto-light"]; ["quarto-dark"]]
             (mixed_page ["quarto-light"])))) = Normal.
Proof.
  apply (calls_never_throw (H := plain_browser) ExtendedVariant
           (mixed_page ["quarto-light"])
           [["quarto-dark"]; ["quarto-light"]; ["quarto-dark"]] ["quarto-light"]).
  - exists 0, (node "body" ["quarto-light"] None).
    split; [reflexivity|]. split; [reflexivity|]. left. reflexivity.
  - repeat constructor; intros _; left; reflexivity.
Defined.

(** ** The extended version, call after call *)

Lemma includes_style_remove p st prop :
  plain_word p = true ->
  Str.includes p (StyleDecl.cssText (style_write st prop "")) = true ->
  Str.includes p (StyleDecl.cssText st) = true.
Proof.
  intros Hw. rewrite !includes_cssText by done.
  unfold style_write, StyleDecl.set. simpl. apply existsb_remove.
Qed.

Ltac includes_back H :=
  repeat first
    [ apply includes_style_remove in H; [|done]
    | apply includes_style_write in H; [|done|done|done] ].

(** The reactable block brings no [fill] into the text of a style
    attribute, and no [background] unless it writes a background colour
    or the transition. *)
Lemma includes_reactable_step p D m e :
  p = "fill" \/
  (p = "background" /\
   (D = false \/
    (m sel_rt_search = false /\ m sel_rt_page_button_current = false /\
     m sel_rt_pagination_button = false))) ->
  Str.includes p (StyleDecl.cssText (style (reactable_step D m e))) = true ->
  Str.includes p (StyleDecl.cssText (style e)) = true.
Proof.
  intros Hp.
  unfold reactable_step, when, sort_step, current_step, nav_step, button_step_2,
    button_step_1, search_step, rows_step, guard_step.
  destruct Hp as [->|[-> [->|(-> & -> & ->)]]].
  - destruct D, (m sel_rt_sort_header), (m sel_rt_page_button_current),
      (m sel_rt_pagination_nav_button), (m sel_rt_pagination_button),
      (m sel_rt_search), (m sel_rt_rows);
      try destruct (negb _);
      cbn [with_listener restyle with_style style];
      intros Hin; includes_back Hin; exact Hin.
  - destruct (m sel_rt_sort_header), (m sel_rt_page_button_current),
      (m sel_rt_pagination_nav_button), (m sel_rt_pagination_button),
      (m sel_rt_search), (m sel_rt_rows);
      try destruct (negb _);
      cbn [with_listener restyle with_style style];
      intros Hin; includes_back Hin; exact Hin.
  - destruct D, (m sel_rt_sort_header), (m sel_rt_pagination_nav_button),
      (m sel_rt_rows);
      try destruct (negb _);
      cbn [with_listener restyle with_style style];
      intros Hin; includes_back Hin; exact Hin.
Qed.

Lemma includes_reactable_iter p D m n e :
  p = "fill" \/
  (p = "background" /\
   (D = false \/
    (m sel_rt_search = false /\ m sel_rt_page_button_current = false /\
     m sel_rt_pagination_button = false))) ->
  Str.includes p (StyleDecl.cssText (style (Nat.iter n (reactable_step D m) e))) = true ->
  Str.includes p (StyleDecl.cssText (style e)) = true.
Proof.
  intros Hp. induction n as [|n IH]; [done|].
  change (Nat.iter (S n) (reactable_step D m) e)
    with (reactable_step D m (Nat.iter n (reactable_step D m) e)).
  intros Hin. by apply IH, (includes_reactable_step p D m).
Qed.

Lemma get_reactable_iter_any D m n e name :
  StyleDecl.get (style (Nat.iter n (reactable_step D m) e)) name =
  match n, reactable_value D m name with
  | S _, Some v => v
  | _, _ => StyleDecl.get (style e) name
  end.
Proof.
  destruct n as [|n]; [done|]. rewrite get_reactable_iter.
  by destruct (reactable_value D m name).
Qed.

(** The declarations of [style_after], one by one. *)
Lemma get_style_after D c mt mg o tag st name :
  StyleDecl.get (style_after D c mt mg o tag st) name =
  if mg && String.eqb "color" name then (if D then "white" else "")
  else match (if mt then restyled_value D c o name else None) with
       | Some v => v
       | None =>
           if String.eqb tag "rect"
              && Str.includes "fill"
                   (StyleDecl.cssText (guarded D (String.eqb tag "svg") "background" st))
              && String.eqb "fill" name
           then (if D then dark_colour else light_colour)
           else if String.eqb tag "svg"
                   && Str.includes "background" (StyleDecl.cssText st)
                   && String.eqb "background" name
           then (if D then dark_colour else light_colour)
           else StyleDecl.get st name
       end.
Proof.
  unfold style_after. cbv zeta.
  destruct mg; [rewrite get_style_write; change (css_name "color") with "color"|];
    cbn [andb].
  - destruct (String.eqb "color" name); [done|].
    destruct mt; [rewrite get_restyled; destruct (restyled_value D c o name); [done|]|];
      by rewrite !get_guarded.
  - destruct mt; [rewrite get_restyled; destruct (restyled_value D c o name); [done|]|];
      by rewrite !get_guarded.
Qed.

(** [style_after] on a style that differs from one it has made only in
    what the reactable block has written since. *)
Lemma style_after_reactable D c mt mg o tag m R st st1 name :
  (mt = true -> tag = "text" \/ tag = "tspan") ->
  (forall n, StyleDecl.get st1 n =
             match R, reactable_value D m n with
             | S _, Some v => v
             | _, _ => StyleDecl.get (style_after D c mt mg o tag st) n
             end) ->
  (tag = "svg" -> Str.includes "background" (StyleDecl.cssText st1) = true ->
   Str.includes "background" (StyleDecl.cssText (style_after D c mt mg o tag st)) = true) ->
  (tag = "rect" -> Str.includes "fill" (StyleDecl.cssText st1) = true ->
   Str.includes "fill" (StyleDecl.cssText (style_after D c mt mg o tag st)) = true) ->
  R = 0 \/ reactable_value D m name = None ->
  StyleDecl.get (style_after D c mt mg o tag st1) name =
  StyleDecl.get (style_after D c mt mg o tag st) name.
Proof.
  intros Htag H1 Hbg Hfill Hname.
  set (sa := style_after D c mt mg o tag st) in *.
  assert (Hsame : StyleDecl.get st1 name = StyleDecl.get sa name).
  { rewrite H1. destruct Hname as [-> | ->]; [done|]. by destruct R. }
  rewrite get_style_after.
  destruct (mg && String.eqb "color" name) eqn:E1.
  { subst sa. by rewrite get_style_after, E1. }
  destruct (if mt then restyled_value D c o name else None) as [v|] eqn:E2.
  { subst sa. by rewrite get_style_after, E1, E2. }
  destruct (String.eqb_spec tag "rect") as [Hrect|Hrect].
  { assert (Hsvg : String.eqb tag "svg" = false) by (by rewrite Hrect).
    rewrite Hsvg, guarded_off. cbn [andb].
    destruct (Str.includes "fill" (StyleDecl.cssText st1)) eqn:Hin; [|done].
    destruct (String.eqb_spec "fill" name) as [<-|_]; [|done]. cbn [andb].
    symmetry. subst sa.
    apply (style_after_settled D c mt mg o tag "fill" st); [by right|done|].
    by apply Hfill. }
  cbn [andb].
  destruct (String.eqb_spec tag "svg") as [Hsvg|Hsvg]; [|done]. cbn [andb].
  destruct (Str.includes "background" (StyleDecl.cssText st1)) eqn:Hin; [|done].
  destruct (String.eqb_spec "background" name) as [<-|_]; [|done]. cbn [andb].
  symmetry. subst sa.
  apply (style_after_settled D c mt mg o tag "background" st); [by left|done|].
  by apply Hbg.
Qed.

Lemma concat_replicate_nil {A} n : concat (replicate n (@nil A)) = [].
Proof. induction n as [|n IH]; [done|]. done. Qed.

(** One element through a call of the extended version and through the
    next: nothing to read has changed but the listeners. *)
Lemma extended_after_again L D c mt mg o R m e :
  (mt = true -> text_tag e) ->
  (tagName e = "img" -> occurrences (stale_marker L) (src e) <= 1) ->
  (tagName e = "svg" ->
   D = false \/
   (m sel_rt_search = false /\ m sel_rt_page_button_current = false /\
    m sel_rt_pagination_button = false)) ->
  let e1 := Nat.iter R (reactable_step D m) (element_after L D c mt mg o e) in
  let e2 := Nat.iter R (reactable_step D m) (element_after L D c mt mg o e1) in
  same_markup e1 e2 /\ src e2 = src e1 /\ originalStyle e2 = originalStyle e1 /\
  (forall name, StyleDecl.get (style e2) name = StyleDecl.get (style e1) name) /\
  listeners e2 = listeners e1 ++ concat (replicate R (added_listeners D m)).
Proof.
  intros Htag Hocc Hsvg e1 e2.
  set (ea := element_after L D c mt mg o e) in *.
  destruct (reactable_iter_fields D m R ea) as (A1 & A2 & A3 & A4). fold e1 in A1, A2, A3, A4.
  destruct (reactable_iter_fields D m R (element_after L D c mt mg o e1))
    as (B1 & B2 & B3 & B4). fold e2 in B1, B2, B3, B4.
  assert (Htag1 : tagName e1 = tagName e) by (by destruct A1 as (<- & _)).
  split; [|split; [|split; [|split]]].
  - etrans; [|exact B1]. by unfold element_after.
  - rewrite B2. unfold element_after at 1. cbn [src]. rewrite Htag1, A2.
    subst ea. unfold element_after. cbn [src tagName]. unfold src_after.
    destruct (String.eqb_spec (tagName e) "img") as [Himg|]; [|done].
    exact (replace_settles L D (src e) (Hocc Himg)).
  - rewrite B3. unfold element_after at 1. cbn [originalStyle].
    destruct mt; [|done]. rewrite A3. subst ea. unfold element_after.
    by cbn [originalStyle].
  - intros name. subst e2. rewrite get_reactable_iter_any.
    destruct R as [|R'].
    + subst e1 ea. simpl Nat.iter.
      destruct (element_after_again L D c mt mg o e Htag Hocc) as (_ & _ & _ & _ & Hst).
      symmetry. apply Hst.
    + assert (H1 : forall n,
                StyleDecl.get (style e1) n =
                match S R', reactable_value D m n with
                | S _, Some v => v
                | _, _ => StyleDecl.get
                            (style_after D c mt mg o (tagName e) (style e)) n
                end).
      { intros n. subst e1. rewrite get_reactable_iter_any. by subst ea. }
      destruct (reactable_value D m name) eqn:Hv; [by rewrite H1, Hv|].
      transitivity (StyleDecl.get (style_after D c mt mg o (tagName e) (style e)) name);
        [|by rewrite H1, Hv].
      unfold element_after at 1. cbn [style]. rewrite Htag1.
      apply (style_after_reactable D c mt mg o (tagName e) m (S R')); [|done|..|by right].
      * intros Hm. by destruct (Htag Hm) as [Ht|Ht]; [left|right].
      * intros Ht Hin. subst e1.
        apply (includes_reactable_iter "background" D m (S R')) in Hin; [done|].
        right. split; [done|]. by apply Hsvg.
      * intros Ht Hin. subst e1.
        apply (includes_reactable_iter "fill" D m (S R')) in Hin; [done|]. by left.
  - rewrite B4. unfold element_after at 1. by cbn [listeners].
Qed.

Lemma matches_button_tag d e :
  matches d e sel_rt_pagination_button = true -> tagName e = "button".
Proof.
  unfold matches, sel_rt_pagination_button, matches_complex, matches_compound. simpl.
  destruct (String.eqb_spec (tagName e) "button"); [done|]. simpl. done.
Qed.

Lemma reactable_step_ext D m m' e :
  (forall sel, In sel [sel_rt_rows; sel_rt_search; sel_rt_pagination_button;
                       sel_rt_pagination_nav_button; sel_rt_page_button_current;
                       sel_rt_sort_header] -> m sel = m' sel) ->
  reactable_step D m e = reactable_step D m' e.
Proof.
  intros Hm. unfold reactable_step.
  rewrite !(Hm _) by (simpl; tauto). done.
Qed.

Lemma reactable_iter_ext D m m' n e :
  (forall sel, In sel [sel_rt_rows; sel_rt_search; sel_rt_pagination_button;
                       sel_rt_pagination_nav_button; sel_rt_page_button_current;
                       sel_rt_sort_header] -> m sel = m' sel) ->
  Nat.iter n (reactable_step D m) e = Nat.iter n (reactable_step D m') e.
Proof.
  intros Hm. induction n as [|n IH]; [done|]. simpl. rewrite IH.
  by apply reactable_step_ext.
Qed.

Section ExtendedAgain.
Context `{Browser}.

(** A call of the extended version, element by element. *)
Lemma extended_passes_at L D d i e :
  elements d !! i = Some e ->
  completion (Extended.passes L D d) = Normal ->
  (matches d e sel_text = true -> written e) ->
  exists o,
    (matches d e sel_text = true -> unset (originalStyle e) = false ->
     originalStyle e = Some (JSON.stringify o)) /\
    elements (final (Extended.passes L D d)) !! i =
    Some (Nat.iter (length (querySelectorAll sel_reactable d))
            (reactable_step D (matches d e))
            (element_after L D "rgb(204,193,183)" (matches d e sel_text)
               (matches d e sel_gt) o e)).
Proof.
  intros He Hc Hw. rewrite extended_passes_common in Hc |- *.
  apply andThen_completes in Hc as [Hc _].
  rewrite andThen_normal by done. cbn [final].
  destruct (common_passes_at L D "rgb(204,193,183)" d i e He Hc Hw) as (o & Ho & He5).
  pose proof (common_passes_same_listeners L D "rgb(204,193,183)" d) as Hk.
  apply (keeps_impl same_listeners same_markup) in Hk; [|by intros ?? [? _]].
  set (d5 := final (common_passes L D "rgb(204,193,183)" d)) in *.
  exists o. split; [done|].
  fold (reactable_pass D). rewrite (reactable_pass_at D d5 i _ He5).
  rewrite <- (querySelectorAll_markup sel_reactable d d5 eq_refl Hk).
  f_equal. apply reactable_iter_ext. intros sel Hsel.
  pose proof (matches_at_markup sel d d5 i) as Hm.
  unfold matches_at in Hm. rewrite He, He5 in Hm. symmetry. apply Hm; [|done].
  simpl in Hsel. by destruct Hsel as [<-|[<-|[<-|[<-|[<-|[<-|[]]]]]]].
Qed.

End ExtendedAgain.

(** The extended version, call after call.  When every snapshot there is
    was written by the routine, no image source holds the stale marker
    more than once and, in dark mode, no svg element is a search input or
    a current page button of the reactable block, a call that follows a
    call ends as the first did and leaves the markup, source, snapshot
    and every style declaration of every element as the first left them;
    the listeners alone grow, by the seven of the two registration blocks
    for each reactable element, on every pagination button in dark
    mode. *)
Theorem extended_second_call `{Browser} d :
  Forall (fun e => matches d e sel_text = true -> written e) (elements d) ->
  Forall (fun e => tagName e = "img" ->
                   occurrences (stale_marker (isLightMode d)) (src e) <= 1)
         (elements d) ->
  Forall (fun e => tagName e = "svg" ->
                   isDarkMode d = false \/
                   matches d e (sel_rt_search ++ sel_rt_page_button_current) = false)
         (elements d) ->
  let r1 := run ExtendedVariant d in
  let r2 := run ExtendedVariant (final r1) in
  completion r2 = completion r1 /\
  forall i e,
    elements d !! i = Some e ->
    exists e1 e2,
      elements (final r1) !! i = Some e1 /\ elements (final r2) !! i = Some e2 /\
      same_markup e1 e2 /\ src e2 = src e1 /\ originalStyle e2 = originalStyle e1 /\
      (forall name, StyleDecl.get (style e2) name = StyleDecl.get (style e1) name) /\
      listeners e2 =
        listeners e1 ++
        concat (replicate (length (querySelectorAll sel_reactable d))
                  (added_listeners (isDarkMode d) (matches d e))).
Proof.
  intros Hw Hocc Hsvg r1 r2.
  rewrite Forall_lookup in Hw. rewrite Forall_lookup in Hocc.
  rewrite Forall_lookup in Hsvg.
  destruct (isLightMode d || isDarkMode d) eqn:Hmode.
  - pose proof (run_same_markup ExtendedVariant d) as Hk. fold r1 in Hk.
    destruct (modes_keep d (final r1) Hk) as [HL HD].
    set (L := isLightMode d) in *. set (D := isDarkMode d) in *.
    assert (Hr1 : r1 = Extended.passes L D d).
    { subst r1. by rewrite run_passes. }
    assert (Hr2 : r2 = Extended.passes L D (final r1)).
    { subst r2. rewrite run_passes by (by rewrite HL, HD). by rewrite HL, HD. }
    assert (Hc1 : completion r1 = Normal).
    { rewrite Hr1. apply (passes_written ExtendedVariant). intros i e He.
      by apply (Hw i e). }
    assert (Hat1 : forall i e, elements d !! i = Some e ->
              exists o,
                elements (final r1) !! i =
                Some (Nat.iter (length (querySelectorAll sel_reactable d))
                        (reactable_step D (matches d e))
                        (element_after L D "rgb(204,193,183)" (matches d e sel_text)
                           (matches d e sel_gt) o e))).
    { intros i e He. rewrite Hr1 in Hc1 |- *.
      destruct (extended_passes_at L D d i e He Hc1 (Hw i e He)) as (o & _ & Hat).
      by exists o. }
    assert (Hw1 : forall i e1, elements (final r1) !! i = Some e1 ->
                               matches (final r1) e1 sel_text = true -> written e1).
    { intros i e1 He1 Hm.
      destruct (keeps_lookup_r _ _ _ _ _ Hk He1) as (e & He & _).
      destruct (Hat1 i e He) as (o & Hat).
      pose proof (matches_at_markup sel_text d (final r1) i eq_refl Hk) as Hmt.
      unfold matches_at in Hmt. rewrite He, He1 in Hmt. rewrite <- Hmt in Hm.
      assert (e1 = Nat.iter (length (querySelectorAll sel_reactable d))
                     (reactable_step D (matches d e))
                     (element_after L D "rgb(204,193,183)" (matches d e sel_text)
                        (matches d e sel_gt) o e)) as -> by congruence.
      destruct (reactable_iter_fields D (matches d e)
                  (length (querySelectorAll sel_reactable d))
                  (element_after L D "rgb(204,193,183)" (matches d e sel_text)
                     (matches d e sel_gt) o e)) as (_ & _ & Hos & _).
      right. exists o. rewrite Hos. unfold element_after. cbn [originalStyle].
      by rewrite Hm. }
    assert (Hc2 : completion r2 = Normal).
    { rewrite Hr2. by apply (passes_written ExtendedVariant). }
    split; [congruence|]. intros i e He.
    destruct (Hat1 i e He) as (o & He1).
    set (R := length (querySelectorAll sel_reactable d)) in *.
    set (m := matches d e) in *.
    set (e1 := Nat.iter R (reactable_step D m)
                 (element_after L D "rgb(204,193,183)" (m sel_text) (m sel_gt) o e)) in *.
    pose proof Hc2 as Hc2'. rewrite Hr2 in Hc2'.
    destruct (extended_passes_at L D (final r1) i e1 He1 Hc2' (Hw1 i e1 He1))
      as (o' & Ho' & He2).
    rewrite <- Hr2 in He2.
    rewrite <- (querySelectorAll_markup sel_reactable d (final r1) eq_refl Hk) in He2.
    fold R in He2.
    assert (Hm1 : forall sel, markup_selector sel = true ->
                              matches (final r1) e1 sel = m sel).
    { intros sel Hsel. pose proof (matches_at_markup sel d (final r1) i Hsel Hk) as Hx.
      unfold matches_at in Hx. by rewrite He, He1 in Hx. }
    rewrite (reactable_iter_ext D (matches (final r1) e1) m) in He2.
    2:{ intros sel Hsel. apply Hm1. simpl in Hsel.
        by destruct Hsel as [<-|[<-|[<-|[<-|[<-|[<-|[]]]]]]]. }
    rewrite (Hm1 sel_text eq_refl), (Hm1 sel_gt eq_refl) in He2.
    rewrite (Hm1 sel_text eq_refl) in Ho'.
    assert (He2' : elements (final r2) !! i =
              Some (Nat.iter R (reactable_step D m)
                      (element_after L D "rgb(204,193,183)" (m sel_text) (m sel_gt) o e1))).
    { rewrite He2. destruct (m sel_text) eqn:Hmt; [|done].
      assert (o' = o) as ->; [|done].
      apply stringify_inj. specialize (Ho' eq_refl).
      destruct (reactable_iter_fields D m R
                  (element_after L D "rgb(204,193,183)" true (m sel_gt) o e))
        as (_ & _ & Hos & _).
      fold e1 in Hos. rewrite Hos in Ho'. unfold element_after in Ho'.
      cbn [originalStyle] in Ho'. specialize (Ho' eq_refl). congruence. }
    exists e1. eexists. split; [done|]. split; [exact He2'|].
    apply (extended_after_again L D "rgb(204,193,183)" (m sel_text) (m sel_gt) o R m e).
    + apply (matches_sel_text d e).
    + by apply (Hocc i e).
    + intros Ht. destruct (Hsvg i e He Ht) as [HDf|Hun]; [by left|right].
      subst m. rewrite matches_app in Hun. apply orb_false_iff in Hun as [-> ->].
      split; [done|]. split; [done|].
      destruct (matches d e sel_rt_pagination_button) eqn:Hb; [|done].
      apply matches_button_tag in Hb. congruence.
  - destruct (run_inactive ExtendedVariant d Hmode) as [Hf _]. fold r1 in Hf.
    assert (r2 = r1) as -> by (subst r2; by rewrite Hf).
    split; [done|]. intros i e He. exists e, e. rewrite Hf.
    apply orb_false_iff in Hmode as [_ ->].
    unfold added_listeners. cbn [andb]. rewrite concat_replicate_nil, app_nil_r.
    by repeat split.
Qed.

Lemma extended_second_call_witness :
  exists e1 e2,
    elements (final (run (H := plain_browser) ExtendedVariant
                       (table_page ["quarto-dark"]))) !! 6 = Some e1 /\
    elements (final (run (H := plain_browser) ExtendedVariant
                (final (run (H := plain_browser) ExtendedVariant
                          (table_page ["quarto-dark"]))))) !! 6 = Some e2 /\
    (forall name, StyleDecl.get (style e2) name = StyleDecl.get (style e1) name) /\
    length (listeners e2) = length (listeners e1) + 7.
Proof.
  destruct (extended_second_call (H := plain_browser) (table_page ["quarto-dark"]))
    as (_ & Hall).
  - repeat constructor; intros _; left; reflexivity.
  - repeat constructor; intros _; vm_compute; lia.
  - unfold table_page, page. cbn [elements].
    repeat (constructor; [intros Ht; vm_compute in Ht; discriminate|]).
    constructor.
  - destruct (Hall 6 (node "button" ["rt-page-button"] (Some 5)))
      as (e1 & e2 & H1 & H2 & _ & _ & _ & Hst & Hl); [vm_compute; reflexivity|].
    exists e1, e2. split; [exact H1|]. split; [exact H2|]. split; [exact Hst|].
    rewrite Hl, length_app. reflexivity.
Defined.
